(** * model.py: the CNN variants of the repository, embedded in Rocq

    The file [src/model.py] wires layers of an external tensor library into
    five classifier classes.  The embedding has three parts:

    - the Python runtime the file relies on: exceptions that record where
      they were raised, the module's global namespace, and an object store
      holding the tensors that parameters and buffers refer to;
    - the external library at the level on which the file uses it: layer
      constructors that allocate parameters, the documented shape rule of
      every layer, and the numerical kernels, which stay abstract (class
      [Kernels]) except for [view] and [log_softmax];
    - the source itself: [normalizer], [ConvLayer], [TransBlock] and the five
      model classes, each with its constructor and its [forward]. *)

From Stdlib Require Import ZArith QArith Reals Lia Lra List Bool.
From stdpp Require Import base list strings.

Local Close Scope Q_scope.
Local Open Scope string_scope.
Local Open Scope list_scope.
Local Open Scope Z_scope.

Set Warnings "-register-all".

(* ===================================================================== *)
(** * The Python runtime                                                   *)
(* ===================================================================== *)

(** ** Exceptions, with the place that raised them *)

Inductive exn_class :=
  NameError | ValueError | RuntimeError | TypeError | IndexError.

(** [ThisFile n]: raised while the interpreter executes line [n] of
    model.py, by a [raise] statement or by the evaluation of an expression
    of that line.  [Library]: raised inside the external library. *)
Inductive origin := ThisFile (line : nat) | Library.

Record exn := mkExn { exn_cls : exn_class; exn_origin : origin; exn_msg : string }.

Inductive result (A : Type) : Type :=
| Ok (a : A)
| Raise (e : exn).
Arguments Ok {A} a.
Arguments Raise {A} e.

(** ** Tensors *)

Inductive dtype := Float16 | Float32 | Float64 | Int32 | Int64 | UInt8.

Definition is_floating (d : dtype) : bool :=
  match d with Float16 | Float32 | Float64 => true | _ => false end.

Definition dtype_eqb (a b : dtype) : bool :=
  match a, b with
  | Float16, Float16 | Float32, Float32 | Float64, Float64
  | Int32, Int32 | Int64, Int64 | UInt8, UInt8 => true
  | _, _ => false
  end.

(** A tensor is its shape, its element type and its entries, read through a
    multi-index.  Entries are real numbers: rounding, infinities and NaN of
    the machine formats are outside the model. *)
Record Tensor := mkTensor {
  t_shape : list Z;
  t_dtype : dtype;
  t_at : list Z -> R
}.

Definition numel (shape : list Z) : Z := fold_right Z.mul 1 shape.

Definition empty_tensor : Tensor := mkTensor [0] Float32 (fun _ => 0%R).

#[global] Instance Tensor_inhabited : Inhabited Tensor := populate empty_tensor.

(** ** The object store *)

Abbreviation loc := nat (only parsing).

(** A numerical operation the library was asked to run; the log of these is
    a ghost component of the state. *)
Inductive event :=
| EvConv2d (in_channels out_channels : Z) (kernel_size : Z * Z) (padding : Z)
| EvBatchNorm2d (num_features : Z)
| EvGroupNorm (num_groups num_channels : Z)
| EvReLU
| EvDropout (p : Q)
| EvMaxPool2d (kernel_size stride : Z)
| EvAvgPool2d (kernel_size : Z)
| EvAdaptiveAvgPool2d (output_size : Z)
| EvView (target : list Z)
| EvLogSoftmax (dim : Z).

(** [cells]: the tensors behind parameters and buffers, addressed by
    position; [rng]: the library's global random generator; [trace]: the log
    of operations run so far. *)
Record state := mkState {
  cells : list Tensor;
  rng : Z;
  trace : list event
}.

Definition M (A : Type) : Type := state -> result A * state.

Definition ret {A} (a : A) : M A := fun s => (Ok a, s).

Definition bind {A B} (c : M A) (f : A -> M B) : M B :=
  fun s => match c s with
           | (Ok a, s') => f a s'
           | (Raise e, s') => (Raise e, s')
           end.

Definition raise {A} (e : exn) : M A := fun s => (Raise e, s).

Notation "x <- c ;; k" := (bind c (fun x => k))
  (at level 100, c at next level, right associativity).
Notation "c ;;; k" := (bind c (fun _ => k))
  (at level 100, right associativity).

Definition alloc (t : Tensor) : M loc :=
  fun s => (Ok (length (cells s)),
            mkState (cells s ++ [t]) (rng s) (trace s)).

Definition read (l : loc) : M Tensor :=
  fun s => (Ok (cells s !!! l), s).

Definition write (l : loc) (t : Tensor) : M unit :=
  fun s => (Ok tt, mkState (<[l := t]> (cells s)) (rng s) (trace s)).

Definition log (e : event) : M unit :=
  fun s => (Ok tt, mkState (cells s) (rng s) (trace s ++ [e])).

Definition get_rng : M Z := fun s => (Ok (rng s), s).

Definition set_rng (r : Z) : M unit :=
  fun s => (Ok tt, mkState (cells s) r (trace s)).

(** ** Values and the module namespace of model.py *)

(** [NUM_GROUPS: int = 8] *)
Definition NUM_GROUPS : Z := 8.

(** [class NormalizationMethod(Enum)] *)
Inductive NormalizationMethod := BATCH | LAYER | GROUP.

(** What an expression of the file can evaluate to: numbers, a member of
    the enumeration, or some other object, known by its name. *)
Inductive pyval :=
| VInt (z : Z)
| VFloat (q : Q)
| VMethod (m : NormalizationMethod)
| VNone
| VObj (name : string).

(** Every name bound at the top level of model.py (imports, the constant,
    the classes and the function), in order of binding. *)
Definition module_globals : list (string * pyval) :=
  [ ("Enum", VObj "Enum"); ("Tensor", VObj "Tensor"); ("nn", VObj "nn");
    ("F", VObj "F"); ("NUM_GROUPS", VInt NUM_GROUPS);
    ("NormalizationMethod", VObj "NormalizationMethod");
    ("normalizer", VObj "normalizer"); ("ConvLayer", VObj "ConvLayer");
    ("TransBlock", VObj "TransBlock"); ("Model", VObj "Model");
    ("session_6_Model", VObj "session_6_Model");
    ("Session_7_Model_1", VObj "Session_7_Model_1");
    ("Session_7_Model_2", VObj "Session_7_Model_2");
    ("Session_7_Model_3", VObj "Session_7_Model_3") ].

Fixpoint lookup_name (name : string) (env : list (string * pyval)) : option pyval :=
  match env with
  | [] => None
  | (n, v) :: env' => if String.eqb n name then Some v else lookup_name name env'
  end.

(** Evaluation of a global name on line [line]; no builtin is called
    [dropout_value], so a miss in the module namespace is a [NameError]. *)
Definition load_global (line : nat) (name : string) : M pyval :=
  match lookup_name name module_globals with
  | Some v => ret v
  | None => raise (mkExn NameError (ThisFile line) name)
  end.

(* ===================================================================== *)
(** * The external library, as model.py uses it                            *)
(* ===================================================================== *)

(** An exception of the library.  The text of a library message depends
    on the version of the library and carries run-time values; the model
    keeps the class of the exception and no text. *)
Definition lib_error {A} (c : exn_class) : M A :=
  raise (mkExn c Library "").

(** The numerical kernels, and whether the allocator finds room for a
    tensor of a given shape.  Nothing in model.py depends on what they
    compute, so they are left to the library and the machine: every
    statement below holds for every implementation of this interface. *)
Class Kernels := {
  k_has_memory : list Z -> bool;
  k_next_rng : Z -> Z;
  k_init : Z -> list Z -> list Z -> R;
  k_conv2d : Tensor -> Z -> Tensor -> list Z -> R;
  k_batch_norm : bool -> Tensor -> Tensor -> Tensor -> Tensor -> Tensor -> list Z -> R;
  k_running_mean : Tensor -> Tensor -> list Z -> R;
  k_running_var : Tensor -> Tensor -> list Z -> R;
  k_group_norm : Z -> Tensor -> Tensor -> Tensor -> list Z -> R;
  k_dropout : Z -> Q -> Tensor -> list Z -> R;
  k_max_pool2d : Z -> Z -> Tensor -> list Z -> R;
  k_avg_pool2d : Z -> Tensor -> list Z -> R;
  k_adaptive_avg_pool2d : Z -> Tensor -> list Z -> R
}.

(** ** Module objects

    The tree of [nn.Module] objects an instance owns.  Layers with
    parameters or buffers carry the store locations of their tensors.
    [ConvLayer] and [TransBlock] are the two wrapper classes of model.py;
    they sit in the same tree because [nn.Sequential] holds them. *)
Inductive nn_module :=
| Conv2d (in_channels out_channels : Z) (kernel_size : Z * Z) (padding : Z)
         (weight : loc)
| BatchNorm2d (num_features : Z)
              (weight bias running_mean running_var num_batches_tracked : loc)
| GroupNorm (num_groups num_channels : Z) (weight bias : loc)
| ReLU
| Dropout (p : Q)
| MaxPool2d (kernel_size stride : Z)
| AvgPool2d (kernel_size : Z)
| AdaptiveAvgPool2d (output_size : Z)
| Sequential (children : list nn_module)
| ConvLayer (layer : nn_module)
| TransBlock (layer : nn_module).

(** ** Shape rules (the library's documented shape arithmetic) *)

(** Stride 1, dilation 1, groups 1: a spatial extent [h] becomes
    [h + 2 * padding - kernel + 1]; the padded input must cover the kernel
    and the weight must have an output channel.  An input without elements
    is accepted when the batch or the channels are empty, not when only a
    spatial extent is 0; without input channels the result has no channels
    either.  Batched (4-D) and unbatched (3-D) inputs are accepted, the
    latter as a batch of one. *)
Definition conv2d_shape (cin cout : Z) (k : Z * Z) (p : Z) (s : list Z)
  : option (list Z) :=
  let ok n c h w :=
    (0 <=? p) && (0 <? cout) && (c =? cin)
    && (k.1 <=? h + 2 * p) && (k.2 <=? w + 2 * p)
    && ((n =? 0) || (c =? 0) || ((0 <? h) && (0 <? w))) in
  let out c := if c =? 0 then 0 else cout in
  match s with
  | [n; c; h; w] =>
      if ok n c h w
      then Some [n; out c; h + 2 * p - k.1 + 1; w + 2 * p - k.2 + 1] else None
  | [c; h; w] =>
      if ok 1 c h w
      then Some [out c; h + 2 * p - k.1 + 1; w + 2 * p - k.2 + 1] else None
  | _ => None
  end.

(** [_check_input_dim]: BatchNorm2d wants a 4-D input. *)
Definition bn_check_input_dim (s : list Z) : bool :=
  match s with [_; _; _; _] => true | _ => false end.

(** [_verify_batch_size]: the product of all extents but the second must
    not be 1. *)
Definition verify_batch_size (s : list Z) : bool :=
  match s with
  | n :: _ :: rest => negb (n * numel rest =? 1)
  | _ => true
  end.

Definition bn_check_channels (c : Z) (s : list Z) : bool :=
  match s with _ :: c' :: _ => c' =? c | _ => false end.

Definition batch_norm2d_shape (c : Z) (training : bool) (s : list Z)
  : option (list Z) :=
  if bn_check_input_dim s
     && (negb training || verify_batch_size s)
     && bn_check_channels c s
  then Some s else None.

(** [F.group_norm]: at least two dimensions, the batch-size check on the
    grouped view [(n * c / g, g, ...)], and [c] channels. *)
Definition gn_check_dim (s : list Z) : bool :=
  match s with _ :: _ :: _ => true | _ => false end.

Definition gn_grouped (g : Z) (s : list Z) : list Z :=
  match s with
  | n :: c :: rest => (n * c / g) :: g :: rest
  | _ => s
  end.

Definition group_norm_shape (g c : Z) (s : list Z) : option (list Z) :=
  if gn_check_dim s && verify_batch_size (gn_grouped g s)
     && bn_check_channels c s
  then Some s else None.

(** Pooling with window [k] and stride [st], no padding: an extent [h]
    becomes [(h - k) / st + 1], the window must fit and there must be a
    channel. *)
Definition pool2d_shape (k st : Z) (s : list Z) : option (list Z) :=
  let ok c h w :=
    (0 <? k) && (0 <? st) && (0 <? c) && (k <=? h) && (k <=? w) in
  match s with
  | [n; c; h; w] =>
      if ok c h w then Some [n; c; (h - k) / st + 1; (w - k) / st + 1] else None
  | [c; h; w] =>
      if ok c h w then Some [c; (h - k) / st + 1; (w - k) / st + 1] else None
  | _ => None
  end.

(** Adaptive pooling to [o] x [o]: the non-batch extents must not be 0. *)
Definition adaptive_pool2d_shape (o : Z) (s : list Z) : option (list Z) :=
  let ok c h w := (0 <=? o) && (0 <? c) && (0 <? h) && (0 <? w) in
  match s with
  | [n; c; h; w] => if ok c h w then Some [n; c; o; o] else None
  | [c; h; w] => if ok c h w then Some [c; o; o] else None
  | _ => None
  end.

(** [Tensor.view]: at most one extent is [-1]; it is inferred from the
    number of elements, which the other extents must divide. *)
Definition infer_size (target : list Z) (n : Z) : option (list Z) :=
  let known := List.filter (fun d => negb (d =? -1)) target in
  let newsize := numel known in
  if forallb (fun d => 0 <=? d) known then
    match (length target - length known)%nat with
    | O => if n =? newsize then Some target else None
    | 1%nat =>
        if (0 <? newsize) && (n mod newsize =? 0)
        then Some (map (fun d => if d =? -1 then n / newsize else d) target)
        else None
    | _ => None
    end
  else None.

(** Row-major offset of a multi-index, and back. *)
Fixpoint ravel (shape idx : list Z) : Z :=
  match shape, idx with
  | _ :: shape', i :: idx' => i * numel shape' + ravel shape' idx'
  | _, _ => 0
  end.

Fixpoint unravel (shape : list Z) (off : Z) : list Z :=
  match shape with
  | [] => []
  | _ :: shape' => off / numel shape' :: unravel shape' (off mod numel shape')
  end.

(** A dimension argument counts from the end when negative. *)
Definition normalize_dim (dim : Z) (ndim : nat) : option nat :=
  let n := Z.of_nat ndim in
  if (- n <=? dim) && (dim <? n)
  then Some (Z.to_nat (if dim <? 0 then dim + n else dim))
  else None.

(** The sum of [exp] over dimension [d] through the multi-index [idx]. *)
Definition sum_exp (x : list Z -> R) (idx : list Z) (d : nat) (size : Z) : R :=
  fold_right Rplus 0%R
    (map (fun k => exp (x (<[d := Z.of_nat k]> idx))) (seq 0 (Z.to_nat size))).

(** ** Layer constructors

    A constructor allocates the layer's parameters and buffers in the store
    and returns the module object.  What it rejects, it rejects with an
    exception of the library. *)

(** An extent is passed to the library as a signed 64-bit integer. *)
Definition fits_int64 (z : Z) : bool := (- 2 ^ 63 <=? z) && (z <? 2 ^ 63).

Section Library.
Context `{K : Kernels}.

Definition ones : list Z -> R := fun _ => 1%R.
Definition zeros : list Z -> R := fun _ => 0%R.

(** Whether a new tensor of a shape can be stored.  A tensor of 2^61
    entries or more has no address, one of at most 2^16 entries is taken
    to fit (the largest tensor of model.py has 32 * 16 * 3 * 3 = 4608
    entries), and in between it is up to the machine. *)
Definition can_allocate (shape : list Z) : bool :=
  (numel shape <=? 2 ^ 16) || ((numel shape <? 2 ^ 61) && k_has_memory shape).

(** [torch.empty(shape)] and the like: an extent that is no 64-bit integer
    is a [TypeError], a negative extent and a tensor that cannot be stored
    are a [RuntimeError]. *)
Definition check_size (shape : list Z) : M unit :=
  if negb (forallb fits_int64 shape) then lib_error TypeError
  else if negb (forallb (fun d => 0 <=? d) shape) then lib_error RuntimeError
  else if negb (can_allocate shape) then lib_error RuntimeError
  else ret tt.

(** [bias=False] throughout model.py, so a convolution owns one tensor.
    Its entries are drawn from the global generator, unless it has none:
    initialising a tensor without elements draws nothing. *)
Definition nn_Conv2d (in_channels out_channels : Z) (kernel_size : Z * Z)
    (padding : Z) : M nn_module :=
  let shape := [out_channels; in_channels; kernel_size.1; kernel_size.2] in
  check_size shape ;;;
  r <- get_rng ;;
  (if numel shape =? 0 then ret tt else set_rng (k_next_rng r)) ;;;
  w <- alloc (mkTensor shape Float32 (k_init r shape)) ;;
  ret (Conv2d in_channels out_channels kernel_size padding w).

Definition nn_BatchNorm2d (num_features : Z) : M nn_module :=
  check_size [num_features] ;;;
  w <- alloc (mkTensor [num_features] Float32 ones) ;;
  b <- alloc (mkTensor [num_features] Float32 zeros) ;;
  rm <- alloc (mkTensor [num_features] Float32 zeros) ;;
  rv <- alloc (mkTensor [num_features] Float32 ones) ;;
  nbt <- alloc (mkTensor [] Int64 zeros) ;;
  ret (BatchNorm2d num_features w b rm rv nbt).

(** The divisibility check of [GroupNorm.__init__] comes before the
    tensors are made. *)
Definition nn_GroupNorm (num_groups num_channels : Z) : M nn_module :=
  if negb (num_channels mod num_groups =? 0) then
    lib_error ValueError
  else
    check_size [num_channels] ;;;
    w <- alloc (mkTensor [num_channels] Float32 ones) ;;
    b <- alloc (mkTensor [num_channels] Float32 zeros) ;;
    ret (GroupNorm num_groups num_channels w b).

Definition nn_ReLU : M nn_module := ret ReLU.

Definition nn_Dropout (p : pyval) : M nn_module :=
  match p with
  | VFloat q =>
      if Qle_bool 0 q && Qle_bool q 1 then ret (Dropout q)
      else lib_error ValueError
  | VInt z =>
      if (0 <=? z) && (z <=? 1) then ret (Dropout (inject_Z z))
      else lib_error ValueError
  | _ => lib_error TypeError
  end.

Definition nn_MaxPool2d (kernel_size stride : Z) : M nn_module :=
  ret (MaxPool2d kernel_size stride).

(** [stride] defaults to [kernel_size]. *)
Definition nn_AvgPool2d (kernel_size : Z) : M nn_module :=
  ret (AvgPool2d kernel_size).

Definition nn_AdaptiveAvgPool2d (output_size : Z) : M nn_module :=
  ret (AdaptiveAvgPool2d output_size).

Definition nn_Sequential (children : list nn_module) : M nn_module :=
  ret (Sequential children).

(** ** Calling a layer *)

Definition F_conv2d (cin cout : Z) (k : Z * Z) (p : Z) (weight : loc)
    (x : Tensor) : M Tensor :=
  log (EvConv2d cin cout k p) ;;;
  w <- read weight ;;
  if negb (dtype_eqb (t_dtype x) (t_dtype w)) then
    lib_error RuntimeError
  else
    match conv2d_shape cin cout k p (t_shape x) with
    | Some shape => ret (mkTensor shape (t_dtype x) (k_conv2d w p x))
    | None => lib_error RuntimeError
    end.

(** [BatchNorm2d.forward]: the dimension check, then in training mode the
    count of batches is incremented, then [F.batch_norm] checks the batch
    size and the channels and updates the running statistics. *)
Definition BatchNorm2d_forward (training : bool) (c : Z)
    (weight bias running_mean running_var num_batches_tracked : loc)
    (x : Tensor) : M Tensor :=
  log (EvBatchNorm2d c) ;;;
  if negb (bn_check_input_dim (t_shape x)) then
    lib_error ValueError
  else
    (if training then
       n <- read num_batches_tracked ;;
       write num_batches_tracked
         (mkTensor (t_shape n) (t_dtype n) (fun i => (t_at n i + 1)%R))
     else ret tt) ;;;
    if training && negb (verify_batch_size (t_shape x)) then
      lib_error ValueError
    else
      w <- read weight ;;
      b <- read bias ;;
      rm <- read running_mean ;;
      rv <- read running_var ;;
      if negb (bn_check_channels c (t_shape x)) then
        lib_error RuntimeError
      else if negb (dtype_eqb (t_dtype x) (t_dtype w)) then
        lib_error RuntimeError
      else
        (if training then
           write running_mean
             (mkTensor (t_shape rm) (t_dtype rm) (k_running_mean rm x)) ;;;
           write running_var
             (mkTensor (t_shape rv) (t_dtype rv) (k_running_var rv x))
         else ret tt) ;;;
        ret (mkTensor (t_shape x) (t_dtype x) (k_batch_norm training w b rm rv x)).

Definition F_group_norm (g c : Z) (weight bias : loc) (x : Tensor) : M Tensor :=
  log (EvGroupNorm g c) ;;;
  if negb (gn_check_dim (t_shape x)) then
    lib_error RuntimeError
  else if negb (verify_batch_size (gn_grouped g (t_shape x))) then
    lib_error ValueError
  else
    w <- read weight ;;
    b <- read bias ;;
    if negb (bn_check_channels c (t_shape x)) then
      lib_error RuntimeError
    else if negb (dtype_eqb (t_dtype x) (t_dtype w)) then
      lib_error RuntimeError
    else ret (mkTensor (t_shape x) (t_dtype x) (k_group_norm g w b x)).

Definition F_relu (x : Tensor) : M Tensor :=
  log EvReLU ;;;
  ret (mkTensor (t_shape x) (t_dtype x) (fun i => Rmax 0 (t_at x i))).

(** In evaluation mode, with probability 0 and on a tensor without
    elements dropout is the identity; with probability 1 the result is the
    input times zero; otherwise the mask is drawn from the global
    generator. *)
Definition F_dropout (p : Q) (training : bool) (x : Tensor) : M Tensor :=
  log (EvDropout p) ;;;
  if negb training || Qeq_bool p 0 || (numel (t_shape x) =? 0) then ret x
  else if Qeq_bool p 1 then
    ret (mkTensor (t_shape x) (t_dtype x) (fun i => (t_at x i * 0)%R))
  else
    r <- get_rng ;;
    set_rng (k_next_rng r) ;;;
    ret (mkTensor (t_shape x) (t_dtype x) (k_dropout r p x)).

Definition F_max_pool2d (k st : Z) (x : Tensor) : M Tensor :=
  log (EvMaxPool2d k st) ;;;
  match pool2d_shape k st (t_shape x) with
  | Some shape => ret (mkTensor shape (t_dtype x) (k_max_pool2d k st x))
  | None => lib_error RuntimeError
  end.

Definition F_avg_pool2d (k : Z) (x : Tensor) : M Tensor :=
  log (EvAvgPool2d k) ;;;
  match pool2d_shape k k (t_shape x) with
  | Some shape => ret (mkTensor shape (t_dtype x) (k_avg_pool2d k x))
  | None => lib_error RuntimeError
  end.

Definition F_adaptive_avg_pool2d (o : Z) (x : Tensor) : M Tensor :=
  log (EvAdaptiveAvgPool2d o) ;;;
  match adaptive_pool2d_shape o (t_shape x) with
  | Some shape => ret (mkTensor shape (t_dtype x) (k_adaptive_avg_pool2d o x))
  | None => lib_error RuntimeError
  end.

(** [nn.Sequential.forward]: the children in order, each fed the output of
    the one before. *)
Definition run_seq {A} (f : A -> Tensor -> M Tensor) : list A -> Tensor -> M Tensor :=
  fix run (ms : list A) (x : Tensor) : M Tensor :=
    match ms with
    | [] => ret x
    | m :: ms' => x' <- f m x ;; run ms' x'
    end.

(** [module(x)]: dispatch on the class of the module object.  The last two
    cases are [ConvLayer.forward] and [TransBlock.forward] of model.py:
    [x = self.layer(x); return x]. *)
Fixpoint call (m : nn_module) (training : bool) (x : Tensor) {struct m} : M Tensor :=
  match m with
  | Conv2d cin cout k p w => F_conv2d cin cout k p w x
  | BatchNorm2d c w b rm rv nbt => BatchNorm2d_forward training c w b rm rv nbt x
  | GroupNorm g c w b => F_group_norm g c w b x
  | ReLU => F_relu x
  | Dropout p => F_dropout p training x
  | MaxPool2d k st => F_max_pool2d k st x
  | AvgPool2d k => F_avg_pool2d k x
  | AdaptiveAvgPool2d o => F_adaptive_avg_pool2d o x
  | Sequential children => run_seq (fun c => call c training) children x
  | ConvLayer layer => x <- call layer training x ;; ret x
  | TransBlock layer => x <- call layer training x ;; ret x
  end.

(** [x.view(target)] on a contiguous tensor. *)
Definition Tensor_view (x : Tensor) (target : list Z) : M Tensor :=
  log (EvView target) ;;;
  match infer_size target (numel (t_shape x)) with
  | Some shape =>
      ret (mkTensor shape (t_dtype x)
             (fun idx => t_at x (unravel (t_shape x) (ravel shape idx))))
  | None => lib_error RuntimeError
  end.

(** [F.log_softmax(x, dim)]: every entry minus the logarithm of the sum of
    the exponentials along [dim]. *)
Definition F_log_softmax (x : Tensor) (dim : Z) : M Tensor :=
  log (EvLogSoftmax dim) ;;;
  match normalize_dim dim (length (t_shape x)) with
  | None => lib_error IndexError
  | Some d =>
      if is_floating (t_dtype x) then
        ret (mkTensor (t_shape x) (t_dtype x)
               (fun idx =>
                  (t_at x idx
                   - ln (sum_exp (t_at x) idx d (t_shape x !!! d)))%R))
      else lib_error RuntimeError
  end.

End Library.

(* ===================================================================== *)
(** * model.py                                                             *)
(* ===================================================================== *)

(** A module-level integer constant read inside a function body. *)
Definition load_int (line : nat) (name : string) : M Z :=
  v <- load_global line name ;;
  match v with
  | VInt z => ret z
  | _ => lib_error TypeError
  end.

(** [def normalizer(method, out_channels)].  The annotation promises a
    [NormalizationMethod]; at run time any value can arrive, and the last
    branch is the [raise ValueError] of line 27. *)
Definition normalizer `{Kernels} (method : pyval) (out_channels : Z) : M nn_module :=
  match method with
  | VMethod BATCH => nn_BatchNorm2d out_channels
  | VMethod LAYER => nn_GroupNorm 1 out_channels
  | VMethod GROUP =>
      g <- load_int 25 "NUM_GROUPS" ;;
      nn_GroupNorm g out_channels
  | _ => raise (mkExn ValueError (ThisFile 27) "Invalid NormalizationMethod")
  end.

(** [ConvLayer.__init__]: convolution 3x3, normalisation, ReLU,
    dropout 0.05.  As in [normalizer], [norm_method] is whatever the caller
    passes. *)
Definition ConvLayer_init `{Kernels} (in_channels out_channels padding : Z)
    (norm_method : pyval) : M nn_module :=
  conv <- nn_Conv2d in_channels out_channels (3, 3) padding ;;
  norm <- normalizer norm_method out_channels ;;
  relu <- nn_ReLU ;;
  drop <- nn_Dropout (VFloat (5 # 100)) ;;
  layer <- nn_Sequential [conv; norm; relu; drop] ;;
  ret (ConvLayer layer).

(** [TransBlock.__init__]: convolution 1x1 (padding 0 by default), then
    max-pooling 2x2 with stride 2. *)
Definition TransBlock_init `{Kernels} (in_channels out_channels : Z) : M nn_module :=
  conv <- nn_Conv2d in_channels out_channels (1, 1) 0 ;;
  pool <- nn_MaxPool2d 2 2 ;;
  layer <- nn_Sequential [conv; pool] ;;
  ret (TransBlock layer).

(** Every class below is a record of its attributes in the order
    [__init__] assigns them, [init] for [__init__] and [forward].  The
    [training] flag, which the library keeps on every module object and
    switches for a whole instance at once, is an argument of [forward]. *)

Module Model.

Record t := mk {
  conv_block1 : nn_module;
  trans_block1 : nn_module;
  conv_block2 : nn_module;
  trans_block2 : nn_module;
  conv_block3 : nn_module;
  trans_block3 : nn_module;
  gap : nn_module;
  out : nn_module
}.

Definition init `{Kernels} (norm_method : pyval) : M t :=
  conv_block1 <-
    (a <- ConvLayer_init 3 16 1 norm_method ;;
     b <- ConvLayer_init 16 32 1 norm_method ;;
     nn_Sequential [a; b]) ;;
  trans_block1 <- TransBlock_init 32 16 ;;
  conv_block2 <-
    (a <- ConvLayer_init 16 16 1 norm_method ;;
     b <- ConvLayer_init 16 16 1 norm_method ;;
     c <- ConvLayer_init 16 32 1 norm_method ;;
     nn_Sequential [a; b; c]) ;;
  trans_block2 <- TransBlock_init 32 16 ;;
  conv_block3 <-
    (a <- ConvLayer_init 16 16 1 norm_method ;;
     b <- ConvLayer_init 16 16 1 norm_method ;;
     c <- ConvLayer_init 16 32 1 norm_method ;;
     nn_Sequential [a; b; c]) ;;
  trans_block3 <- TransBlock_init 32 16 ;;
  gap <- nn_AdaptiveAvgPool2d 1 ;;
  out <- nn_Conv2d 16 10 (1, 1) 0 ;;
  ret (mk conv_block1 trans_block1 conv_block2 trans_block2
          conv_block3 trans_block3 gap out).

Definition forward `{Kernels} (self : t) (training : bool) (x : Tensor) : M Tensor :=
  x <- call (conv_block1 self) training x ;;
  x <- call (trans_block1 self) training x ;;
  x <- call (conv_block2 self) training x ;;
  x <- call (trans_block2 self) training x ;;
  x <- call (conv_block3 self) training x ;;
  x <- call (trans_block3 self) training x ;;
  x <- call (gap self) training x ;;
  x <- call (out self) training x ;;
  x <- Tensor_view x [-1; 10] ;;
  F_log_softmax x 1.

(** The attributes, in the order of assignment. *)
Definition children (self : t) : list nn_module :=
  [conv_block1 self; trans_block1 self; conv_block2 self; trans_block2 self;
   conv_block3 self; trans_block3 self; gap self; out self].

End Model.

(** [nn.Sequential(Conv2d 3x3, ReLU, BatchNorm2d, Dropout(dropout_value))]:
    the arguments are evaluated left to right, the name [dropout_value]
    last, on line [line]. *)
Definition conv_relu_bn_drop `{Kernels} (line : nat) (cin cout : Z)
    (k : Z * Z) (p : Z) : M nn_module :=
  conv <- nn_Conv2d cin cout k p ;;
  relu <- nn_ReLU ;;
  bn <- nn_BatchNorm2d cout ;;
  v <- load_global line "dropout_value" ;;
  drop <- nn_Dropout v ;;
  nn_Sequential [conv; relu; bn; drop].

(** [nn.Sequential(Conv2d, ReLU, BatchNorm2d)] *)
Definition conv_relu_bn `{Kernels} (cin cout : Z) (k : Z * Z) (p : Z) : M nn_module :=
  conv <- nn_Conv2d cin cout k p ;;
  relu <- nn_ReLU ;;
  bn <- nn_BatchNorm2d cout ;;
  nn_Sequential [conv; relu; bn].

(** [nn.Sequential(Conv2d)] *)
Definition conv_only `{Kernels} (cin cout : Z) (k : Z * Z) (p : Z) : M nn_module :=
  conv <- nn_Conv2d cin cout k p ;;
  nn_Sequential [conv].

Module session_6_Model.

Record t := mk {
  convblock1 : nn_module;
  convblock2 : nn_module;
  convblock3 : nn_module;
  pool1 : nn_module;
  convblock4 : nn_module;
  convblock5 : nn_module;
  convblock6 : nn_module;
  convblock7 : nn_module;
  gap : nn_module;
  convblock8 : nn_module;
  dropout : nn_module
}.

Definition init `{Kernels} : M t :=
  convblock1 <- conv_relu_bn_drop 158 1 16 (3, 3) 0 ;;
  convblock2 <- conv_relu_bn_drop 167 16 32 (3, 3) 0 ;;
  convblock3 <- conv_only 32 10 (1, 1) 0 ;;
  pool1 <- nn_MaxPool2d 2 2 ;;
  convblock4 <- conv_relu_bn_drop 184 10 16 (3, 3) 0 ;;
  convblock5 <- conv_relu_bn_drop 191 16 16 (3, 3) 0 ;;
  convblock6 <- conv_relu_bn_drop 198 16 16 (3, 3) 0 ;;
  convblock7 <- conv_relu_bn_drop 205 16 16 (3, 3) 1 ;;
  gap <- (a <- nn_AvgPool2d 6 ;; nn_Sequential [a]) ;;
  convblock8 <- conv_only 16 10 (1, 1) 0 ;;
  dropout <- (v <- load_global 220 "dropout_value" ;; nn_Dropout v) ;;
  ret (mk convblock1 convblock2 convblock3 pool1 convblock4 convblock5
          convblock6 convblock7 gap convblock8 dropout).

Definition forward `{Kernels} (self : t) (training : bool) (x : Tensor) : M Tensor :=
  x <- call (convblock1 self) training x ;;
  x <- call (convblock2 self) training x ;;
  x <- call (convblock3 self) training x ;;
  x <- call (pool1 self) training x ;;
  x <- call (convblock4 self) training x ;;
  x <- call (convblock5 self) training x ;;
  x <- call (convblock6 self) training x ;;
  x <- call (convblock7 self) training x ;;
  x <- call (gap self) training x ;;
  x <- call (convblock8 self) training x ;;
  x <- Tensor_view x [-1; 10] ;;
  F_log_softmax x (-1).

Definition children (self : t) : list nn_module :=
  [convblock1 self; convblock2 self; convblock3 self; pool1 self;
   convblock4 self; convblock5 self; convblock6 self; convblock7 self;
   gap self; convblock8 self; dropout self].

End session_6_Model.

Module Session_7_Model_1.

Record t := mk {
  convblock1 : nn_module;
  convblock2 : nn_module;
  convblock3 : nn_module;
  pool1 : nn_module;
  convblock4 : nn_module;
  convblock5 : nn_module;
  pool2 : nn_module;
  convblock6 : nn_module;
  gap : nn_module;
  convblock7 : nn_module;
  dropout : nn_module
}.

Definition init `{Kernels} : M t :=
  convblock1 <- conv_relu_bn_drop 246 1 8 (3, 3) 0 ;;
  convblock2 <- conv_relu_bn_drop 253 8 16 (3, 3) 0 ;;
  convblock3 <- conv_only 16 10 (1, 1) 0 ;;
  pool1 <- nn_MaxPool2d 2 2 ;;
  convblock4 <- conv_relu_bn_drop 266 10 10 (3, 3) 0 ;;
  convblock5 <- conv_relu_bn_drop 273 10 10 (3, 3) 1 ;;
  pool2 <- nn_MaxPool2d 2 2 ;;
  convblock6 <- conv_relu_bn_drop 282 10 10 (3, 3) 1 ;;
  gap <- (a <- nn_AvgPool2d 5 ;; nn_Sequential [a]) ;;
  convblock7 <-
    (conv <- nn_Conv2d 10 10 (1, 1) 0 ;;
     bn <- nn_BatchNorm2d 10 ;;
     relu <- nn_ReLU ;;
     v <- load_global 293 "dropout_value" ;;
     drop <- nn_Dropout v ;;
     nn_Sequential [conv; bn; relu; drop]) ;;
  dropout <- (v <- load_global 296 "dropout_value" ;; nn_Dropout v) ;;
  ret (mk convblock1 convblock2 convblock3 pool1 convblock4 convblock5
          pool2 convblock6 gap convblock7 dropout).

Definition forward `{Kernels} (self : t) (training : bool) (x : Tensor) : M Tensor :=
  x <- call (convblock1 self) training x ;;
  x <- call (convblock2 self) training x ;;
  x <- call (convblock3 self) training x ;;
  x <- call (pool1 self) training x ;;
  x <- call (convblock4 self) training x ;;
  x <- call (convblock5 self) training x ;;
  x <- call (pool2 self) training x ;;
  x <- call (convblock6 self) training x ;;
  x <- call (gap self) training x ;;
  x <- call (convblock7 self) training x ;;
  x <- Tensor_view x [-1; 10] ;;
  F_log_softmax x (-1).

Definition children (self : t) : list nn_module :=
  [convblock1 self; convblock2 self; convblock3 self; pool1 self;
   convblock4 self; convblock5 self; pool2 self; convblock6 self;
   gap self; convblock7 self; dropout self].

End Session_7_Model_1.

Module Session_7_Model_2.

Record t := mk {
  convblock1 : nn_module;
  convblock2 : nn_module;
  convblock3 : nn_module;
  pool1 : nn_module;
  convblock4 : nn_module;
  convblock5 : nn_module;
  convblock6 : nn_module;
  convblock7 : nn_module;
  convblock8 : nn_module;
  convblock9 : nn_module
}.

Definition init `{Kernels} : M t :=
  convblock1 <- conv_relu_bn 1 8 (3, 3) 0 ;;
  convblock2 <- conv_relu_bn 8 16 (3, 3) 0 ;;
  convblock3 <- conv_only 16 10 (1, 1) 0 ;;
  pool1 <- nn_MaxPool2d 2 2 ;;
  convblock4 <- conv_relu_bn 10 10 (3, 3) 0 ;;
  convblock5 <- conv_relu_bn 10 16 (3, 3) 0 ;;
  convblock6 <- conv_relu_bn 16 10 (3, 3) 0 ;;
  convblock7 <- conv_relu_bn 10 10 (3, 3) 0 ;;
  convblock8 <- conv_relu_bn 10 10 (3, 3) 0 ;;
  convblock9 <- conv_only 10 10 (2, 2) 0 ;;
  ret (mk convblock1 convblock2 convblock3 pool1 convblock4 convblock5
          convblock6 convblock7 convblock8 convblock9).

Definition forward `{Kernels} (self : t) (training : bool) (x : Tensor) : M Tensor :=
  x <- call (convblock1 self) training x ;;
  x <- call (convblock2 self) training x ;;
  x <- call (convblock3 self) training x ;;
  x <- call (pool1 self) training x ;;
  x <- call (convblock4 self) training x ;;
  x <- call (convblock5 self) training x ;;
  x <- call (convblock6 self) training x ;;
  x <- call (convblock7 self) training x ;;
  x <- call (convblock8 self) training x ;;
  x <- call (convblock9 self) training x ;;
  x <- Tensor_view x [-1; 10] ;;
  F_log_softmax x (-1).

Definition children (self : t) : list nn_module :=
  [convblock1 self; convblock2 self; convblock3 self; pool1 self;
   convblock4 self; convblock5 self; convblock6 self; convblock7 self;
   convblock8 self; convblock9 self].

End Session_7_Model_2.

Module Session_7_Model_3.

Record t := mk {
  convblock1 : nn_module;
  convblock2 : nn_module;
  convblock3 : nn_module;
  pool1 : nn_module;
  convblock4 : nn_module;
  convblock5 : nn_module;
  convblock6 : nn_module;
  convblock7 : nn_module;
  convblock8 : nn_module;
  convblock9 : nn_module
}.

Definition init `{Kernels} : M t :=
  convblock1 <- conv_relu_bn 1 8 (3, 3) 0 ;;
  convblock2 <- conv_relu_bn 8 16 (3, 3) 0 ;;
  convblock3 <- conv_only 16 10 (1, 1) 0 ;;
  pool1 <- nn_MaxPool2d 2 2 ;;
  convblock4 <- conv_relu_bn 10 10 (3, 3) 0 ;;
  convblock5 <- conv_relu_bn 10 16 (3, 3) 0 ;;
  convblock6 <- conv_relu_bn 16 10 (3, 3) 0 ;;
  convblock7 <- conv_relu_bn 10 10 (3, 3) 0 ;;
  convblock8 <- conv_relu_bn 10 10 (3, 3) 0 ;;
  convblock9 <- conv_only 10 10 (2, 2) 0 ;;
  ret (mk convblock1 convblock2 convblock3 pool1 convblock4 convblock5
          convblock6 convblock7 convblock8 convblock9).

Definition forward `{Kernels} (self : t) (training : bool) (x : Tensor) : M Tensor :=
  x <- call (convblock1 self) training x ;;
  x <- call (convblock2 self) training x ;;
  x <- call (convblock3 self) training x ;;
  x <- call (pool1 self) training x ;;
  x <- call (convblock4 self) training x ;;
  x <- call (convblock5 self) training x ;;
  x <- call (convblock6 self) training x ;;
  x <- call (convblock7 self) training x ;;
  x <- call (convblock8 self) training x ;;
  x <- call (convblock9 self) training x ;;
  x <- Tensor_view x [-1; 10] ;;
  F_log_softmax x (-1).

Definition children (self : t) : list nn_module :=
  [convblock1 self; convblock2 self; convblock3 self; pool1 self;
   convblock4 self; convblock5 self; convblock6 self; convblock7 self;
   convblock8 self; convblock9 self].

End Session_7_Model_3.

(** ** The five variants under one roof *)

Inductive variant :=
| VModel (norm_method : NormalizationMethod)
| Vsession_6_Model
| VSession_7_Model_1
| VSession_7_Model_2
| VSession_7_Model_3.

Inductive instance :=
| IModel (self : Model.t)
| Isession_6_Model (self : session_6_Model.t)
| ISession_7_Model_1 (self : Session_7_Model_1.t)
| ISession_7_Model_2 (self : Session_7_Model_2.t)
| ISession_7_Model_3 (self : Session_7_Model_3.t).

(** [Cls(...)]: run the constructor of the class. *)
Definition construct `{Kernels} (v : variant) : M instance :=
  match v with
  | VModel nm => self <- Model.init (VMethod nm) ;; ret (IModel self)
  | Vsession_6_Model => self <- session_6_Model.init ;; ret (Isession_6_Model self)
  | VSession_7_Model_1 => self <- Session_7_Model_1.init ;; ret (ISession_7_Model_1 self)
  | VSession_7_Model_2 => self <- Session_7_Model_2.init ;; ret (ISession_7_Model_2 self)
  | VSession_7_Model_3 => self <- Session_7_Model_3.init ;; ret (ISession_7_Model_3 self)
  end.

(** [instance(x)] *)
Definition forward `{Kernels} (i : instance) (training : bool) (x : Tensor) : M Tensor :=
  match i with
  | IModel self => Model.forward self training x
  | Isession_6_Model self => session_6_Model.forward self training x
  | ISession_7_Model_1 self => Session_7_Model_1.forward self training x
  | ISession_7_Model_2 self => Session_7_Model_2.forward self training x
  | ISession_7_Model_3 self => Session_7_Model_3.forward self training x
  end.

(** The child modules of an instance, in the order of their assignment in
    [__init__] (the order in which the library registers them). *)
Definition children (i : instance) : list nn_module :=
  match i with
  | IModel self => Model.children self
  | Isession_6_Model self => session_6_Model.children self
  | ISession_7_Model_1 self => Session_7_Model_1.children self
  | ISession_7_Model_2 self => Session_7_Model_2.children self
  | ISession_7_Model_3 self => Session_7_Model_3.children self
  end.

(** Concrete kernels, for running the definitions on examples: every
    kernel returns 0 and the generator counts. *)
Definition zero_kernels : Kernels := {|
  k_has_memory := fun _ => true;
  k_next_rng := Z.succ;
  k_init := fun _ _ _ => 0%R;
  k_conv2d := fun _ _ _ _ => 0%R;
  k_batch_norm := fun _ _ _ _ _ _ _ => 0%R;
  k_running_mean := fun _ _ _ => 0%R;
  k_running_var := fun _ _ _ => 0%R;
  k_group_norm := fun _ _ _ _ _ => 0%R;
  k_dropout := fun _ _ _ _ => 0%R;
  k_max_pool2d := fun _ _ _ _ => 0%R;
  k_avg_pool2d := fun _ _ _ => 0%R;
  k_adaptive_avg_pool2d := fun _ _ _ => 0%R
|}.

Definition state0 : state := mkState [] 0 [].


(* ===================================================================== *)
(** * Static views of a module tree                                        *)
(* ===================================================================== *)

(** The store locations a module tree refers to: its parameters and
    buffers, in tree order. *)
Fixpoint locs (m : nn_module) : list loc :=
  match m with
  | Conv2d _ _ _ _ w => [w]
  | BatchNorm2d _ w b rm rv nbt => [w; b; rm; rv; nbt]
  | GroupNorm _ _ w b => [w; b]
  | ReLU | Dropout _ | MaxPool2d _ _ | AvgPool2d _ | AdaptiveAvgPool2d _ => []
  | Sequential children => flat_map locs children
  | ConvLayer layer => locs layer
  | TransBlock layer => locs layer
  end.

(** The locations whose element type a call compares with the input's. *)
Fixpoint weight_locs (m : nn_module) : list loc :=
  match m with
  | Conv2d _ _ _ _ w => [w]
  | BatchNorm2d _ w _ _ _ _ => [w]
  | GroupNorm _ _ w _ => [w]
  | ReLU | Dropout _ | MaxPool2d _ _ | AvgPool2d _ | AdaptiveAvgPool2d _ => []
  | Sequential children => flat_map weight_locs children
  | ConvLayer layer => weight_locs layer
  | TransBlock layer => weight_locs layer
  end.

(** The architecture: the tree with its locations forgotten. *)
Fixpoint arch (m : nn_module) : nn_module :=
  match m with
  | Conv2d cin cout k p _ => Conv2d cin cout k p O
  | BatchNorm2d c _ _ _ _ _ => BatchNorm2d c O O O O O
  | GroupNorm g c _ _ => GroupNorm g c O O
  | Sequential children => Sequential (map arch children)
  | ConvLayer layer => ConvLayer (arch layer)
  | TransBlock layer => TransBlock (arch layer)
  | leaf => leaf
  end.

(** The library operations a call of the module runs, in order. *)
Fixpoint ops (m : nn_module) : list event :=
  match m with
  | Conv2d cin cout k p _ => [EvConv2d cin cout k p]
  | BatchNorm2d c _ _ _ _ _ => [EvBatchNorm2d c]
  | GroupNorm g c _ _ => [EvGroupNorm g c]
  | ReLU => [EvReLU]
  | Dropout p => [EvDropout p]
  | MaxPool2d k st => [EvMaxPool2d k st]
  | AvgPool2d k => [EvAvgPool2d k]
  | AdaptiveAvgPool2d o => [EvAdaptiveAvgPool2d o]
  | Sequential children => flat_map ops children
  | ConvLayer layer => ops layer
  | TransBlock layer => ops layer
  end.

Definition seq_shape {A} (f : A -> list Z -> option (list Z))
  : list A -> list Z -> option (list Z) :=
  fix go (ms : list A) (s : list Z) : option (list Z) :=
    match ms with
    | [] => Some s
    | m :: ms' => match f m s with Some s' => go ms' s' | None => None end
    end.

(** The shape a call of the module returns for an input of shape [s], by
    the shape rules of its layers; [None] where a rule rejects. *)
Fixpoint out_shape (m : nn_module) (training : bool) (s : list Z) : option (list Z) :=
  match m with
  | Conv2d cin cout k p _ => conv2d_shape cin cout k p s
  | BatchNorm2d c _ _ _ _ _ => batch_norm2d_shape c training s
  | GroupNorm g c _ _ => group_norm_shape g c s
  | ReLU | Dropout _ => Some s
  | MaxPool2d k st => pool2d_shape k st s
  | AvgPool2d k => pool2d_shape k k s
  | AdaptiveAvgPool2d o => adaptive_pool2d_shape o s
  | Sequential children => seq_shape (fun c => out_shape c training) children s
  | ConvLayer layer => out_shape layer training s
  | TransBlock layer => out_shape layer training s
  end.

(** The blocks [forward] runs, in call order, and the [dim] it passes to
    [log_softmax].  session_6_Model and Session_7_Model_1 assign [dropout]
    last and never call it. *)
Definition forward_path (i : instance) : list nn_module :=
  match i with
  | IModel self => children i
  | Isession_6_Model self => removelast (children i)
  | ISession_7_Model_1 self => removelast (children i)
  | ISession_7_Model_2 self => children i
  | ISession_7_Model_3 self => children i
  end.

Definition softmax_dim (i : instance) : Z :=
  match i with IModel _ => 1 | _ => -1 end.

(** Shape of the result of [forward], by the shape rules. *)
Definition forward_shape (i : instance) (training : bool) (s : list Z) : option (list Z) :=
  match out_shape (Sequential (forward_path i)) training s with
  | Some s' => infer_size [-1; 10] (numel s')
  | None => None
  end.

(** Induction on module trees, through the lists of [Sequential]. *)
Section nn_module_induction.
Variable P : nn_module -> Prop.
Hypothesis HConv2d : forall cin cout k p w, P (Conv2d cin cout k p w).
Hypothesis HBatchNorm2d : forall c w b rm rv nbt, P (BatchNorm2d c w b rm rv nbt).
Hypothesis HGroupNorm : forall g c w b, P (GroupNorm g c w b).
Hypothesis HReLU : P ReLU.
Hypothesis HDropout : forall p, P (Dropout p).
Hypothesis HMaxPool2d : forall k st, P (MaxPool2d k st).
Hypothesis HAvgPool2d : forall k, P (AvgPool2d k).
Hypothesis HAdaptive : forall o, P (AdaptiveAvgPool2d o).
Hypothesis HSequential : forall ms, Forall P ms -> P (Sequential ms).
Hypothesis HConvLayer : forall l, P l -> P (ConvLayer l).
Hypothesis HTransBlock : forall l, P l -> P (TransBlock l).

Fixpoint nn_module_tree_ind (m : nn_module) : P m :=
  match m with
  | Conv2d cin cout k p w => HConv2d cin cout k p w
  | BatchNorm2d c w b rm rv nbt => HBatchNorm2d c w b rm rv nbt
  | GroupNorm g c w b => HGroupNorm g c w b
  | ReLU => HReLU
  | Dropout p => HDropout p
  | MaxPool2d k st => HMaxPool2d k st
  | AvgPool2d k => HAvgPool2d k
  | AdaptiveAvgPool2d o => HAdaptive o
  | Sequential ms =>
      HSequential ms
        ((fix go (ms : list nn_module) : Forall P ms :=
            match ms with
            | [] => @List.Forall_nil _ P
            | m' :: ms' => @List.Forall_cons _ P m' ms' (nn_module_tree_ind m') (go ms')
            end) ms)
  | ConvLayer l => HConvLayer l (nn_module_tree_ind l)
  | TransBlock l => HTransBlock l (nn_module_tree_ind l)
  end.
End nn_module_induction.

(* ===================================================================== *)
(** * Reasoning about computations                                         *)
(* ===================================================================== *)

Lemma bind_inv {A B} (c : M A) (f : A -> M B) s r s' :
  bind c f s = (r, s') ->
  (exists a s1, c s = (Ok a, s1) /\ f a s1 = (r, s'))
  \/ (exists e, c s = (Raise e, s') /\ r = Raise e).
Proof.
  unfold bind. destruct (c s) as [[a | e] s1]; intros H.
  - left. eauto.
  - right. inversion H; subst. eauto.
Qed.

Lemma bind_Ok {A B} (c : M A) (f : A -> M B) s b s' :
  bind c f s = (Ok b, s') ->
  exists a s1, c s = (Ok a, s1) /\ f a s1 = (Ok b, s').
Proof.
  intros H. apply bind_inv in H as [H | (e & _ & H)]; [exact H | discriminate].
Qed.

Lemma bind_step {A B} (c : M A) (f : A -> M B) s a s1 :
  c s = (Ok a, s1) -> bind c f s = f a s1.
Proof. unfold bind. intros ->. reflexivity. Qed.

Lemma bind_fail {A B} (c : M A) (f : A -> M B) s e s1 :
  c s = (Raise e, s1) -> bind c f s = (Raise e, s1).
Proof. unfold bind. intros ->. reflexivity. Qed.

Lemma bind_ret_l {A B} (a : A) (f : A -> M B) s : bind (ret a) f s = f a s.
Proof. reflexivity. Qed.

Lemma bind_ret_r {A} (c : M A) s : bind c ret s = c s.
Proof. unfold bind, ret. destruct (c s) as [[a | e] s1]; reflexivity. Qed.

Lemma bind_assoc {A B C} (c : M A) (f : A -> M B) (g : B -> M C) s :
  bind (bind c f) g s = bind c (fun a => bind (f a) g) s.
Proof. unfold bind. destruct (c s) as [[a | e] s1]; reflexivity. Qed.

Lemma bind_ext {A B} (c : M A) (f g : A -> M B) s :
  (forall a s1, f a s1 = g a s1) -> bind c f s = bind c g s.
Proof. intros H. unfold bind. destruct (c s) as [[a | e] s1]; auto. Qed.

(** ** What a call may change *)

(** The store has the same size and every cell keeps its shape and element
    type. *)
Definition same_meta_cells (c c' : list Tensor) : Prop :=
  length c' = length c
  /\ forall l, t_dtype (c' !!! l) = t_dtype (c !!! l)
            /\ t_shape (c' !!! l) = t_shape (c !!! l).

Definition same_meta (s s' : state) : Prop :=
  same_meta_cells (cells s) (cells s').

(** Cells outside [L] keep their content. *)
Definition frame (L : list loc) (s s' : state) : Prop :=
  forall l, ~ In l L -> cells s' !! l = cells s !! l.

Lemma same_meta_cells_refl c : same_meta_cells c c.
Proof. split; auto. Qed.

Lemma same_meta_refl s : same_meta s s.
Proof. apply same_meta_cells_refl. Qed.

Lemma same_meta_trans s1 s2 s3 :
  same_meta s1 s2 -> same_meta s2 s3 -> same_meta s1 s3.
Proof.
  intros [H1 H2] [H3 H4]. split; [congruence |].
  intros l. destruct (H2 l) as [A B], (H4 l) as [C D]. rewrite C, D. auto.
Qed.

Lemma same_meta_dtype s s' l :
  same_meta s s' -> t_dtype (cells s' !!! l) = t_dtype (cells s !!! l).
Proof. intros [_ H]. apply H. Qed.

Lemma same_meta_length s s' :
  same_meta s s' -> length (cells s') = length (cells s).
Proof. intros [H _]. exact H. Qed.

Lemma insert_same_meta c c' l t :
  same_meta_cells c c' ->
  t_dtype t = t_dtype (c !!! l) -> t_shape t = t_shape (c !!! l) ->
  same_meta_cells c (<[l := t]> c').
Proof.
  intros [Hlen Hm] Hd Hs. split.
  - rewrite length_insert. exact Hlen.
  - intros l'. rewrite list_lookup_total_insert.
    case_decide as Hl; [destruct Hl as [-> _]; split; assumption | apply Hm].
Qed.

Lemma frame_refl L s : frame L s s.
Proof. intros l _. reflexivity. Qed.

Lemma frame_trans L1 L2 L s1 s2 s3 :
  frame L1 s1 s2 -> frame L2 s2 s3 ->
  (forall l, In l L1 -> In l L) -> (forall l, In l L2 -> In l L) ->
  frame L s1 s3.
Proof.
  intros H1 H2 I1 I2 l Hl. rewrite H2, H1; auto.
Qed.

Lemma frame_weaken L L' s s' :
  frame L s s' -> (forall l, In l L -> In l L') -> frame L' s s'.
Proof. intros H I l Hl. apply H. auto. Qed.

(** What a call of module [m] on [x] from state [s] leaves behind: the
    store keeps its layout, only cells of [m] change, a result has the shape
    the shape rules give and the element type of the input, the log grows by
    the operations of [m]; an exception comes from the library, and the log
    then grew by an initial part of the operations. *)
Definition call_post (m : nn_module) (training : bool) (x : Tensor)
    (s : state) (r : result Tensor) (s' : state) : Prop :=
  same_meta s s' /\ frame (locs m) s s' /\
  match r with
  | Ok y =>
      out_shape m training (t_shape x) = Some (t_shape y)
      /\ t_dtype y = t_dtype x
      /\ trace s' = trace s ++ ops m
  | Raise e =>
      exn_origin e = Library
      /\ exists pre rest, ops m = pre ++ rest /\ trace s' = trace s ++ pre
  end.

Ltac run_in H :=
  cbv [bind log read write ret get_rng set_rng raise lib_error] in H.

Ltac split_cond H :=
  match type of H with
  | context [if ?b then _ else _] =>
      let E := fresh "E" in destruct b eqn:E; simpl in H
  | context [match ?o with Some _ => _ | None => _ end] =>
      let E := fresh "E" in destruct o eqn:E; simpl in H
  end.

Lemma same_meta_cells_dtype c c' l :
  same_meta_cells c c' -> t_dtype (c' !!! l) = t_dtype (c !!! l).
Proof. intros [_ H]. apply H. Qed.

Lemma same_meta_cells_shape c c' l :
  same_meta_cells c c' -> t_shape (c' !!! l) = t_shape (c !!! l).
Proof. intros [_ H]. apply H. Qed.

(** A store reached from [c] by overwriting cells with tensors that took
    their shape and element type from the cell. *)
Ltac build_meta c cur :=
  lazymatch cur with
  | insert ?l ?t ?inner =>
      build_meta c inner;
      let M := fresh "M" in
      assert (M : same_meta_cells c cur) by
        (apply insert_same_meta;
         [ match goal with M' : same_meta_cells c inner |- _ => exact M' end
         | simpl;
           first [ reflexivity
                 | match goal with
                   | M' : same_meta_cells _ _ |- _ =>
                       apply (same_meta_cells_dtype _ _ _ M')
                   end ]
         | simpl;
           first [ reflexivity
                 | match goal with
                   | M' : same_meta_cells _ _ |- _ =>
                       apply (same_meta_cells_shape _ _ _ M')
                   end ] ])
  | _ =>
      let M := fresh "M" in
      assert (M : same_meta_cells c cur) by apply same_meta_cells_refl
  end.

Ltac solve_meta_cells :=
  lazymatch goal with
  | |- same_meta_cells ?c ?c' => build_meta c c'; assumption
  end.

Ltac solve_frame :=
  let l := fresh "l" in
  let Hl := fresh "Hl" in
  intros l Hl; simpl;
  rewrite ?list_lookup_insert_ne;
  [reflexivity | intros ->; apply Hl; simpl; tauto ..].

Ltac use_checks :=
  repeat match goal with
         | E : negb _ = false |- _ => apply negb_false_iff in E
         end;
  unfold batch_norm2d_shape, group_norm_shape;
  repeat match goal with
         | E : ?b = true |- context [?b] => rewrite E
         end.

Ltac leaf_result :=
  simpl;
  first
    [ split; [first [assumption | reflexivity | use_checks; reflexivity]
             | split; reflexivity]
    | split; [reflexivity | eexists _, []; rewrite app_nil_r; split; reflexivity] ].

Ltac leaf_post H :=
  run_in H; simpl in H; repeat split_cond H;
  inversion H; subst; clear H;
  (split; [unfold same_meta; simpl; solve_meta_cells | split; [solve_frame |]]).

Section CallPost.
Context `{K : Kernels}.

Lemma F_conv2d_post cin cout k p w training x s r s' :
  F_conv2d cin cout k p w x s = (r, s') ->
  call_post (Conv2d cin cout k p w) training x s r s'.
Proof. unfold F_conv2d. intros H. leaf_post H; leaf_result. Qed.

Lemma BatchNorm2d_forward_post training c w b rm rv nbt x s r s' :
  BatchNorm2d_forward training c w b rm rv nbt x s = (r, s') ->
  call_post (BatchNorm2d c w b rm rv nbt) training x s r s'.
Proof.
  unfold BatchNorm2d_forward. intros H.
  destruct training; leaf_post H; leaf_result.
Qed.

Lemma F_group_norm_post g c w b training x s r s' :
  F_group_norm g c w b x s = (r, s') ->
  call_post (GroupNorm g c w b) training x s r s'.
Proof. unfold F_group_norm. intros H. leaf_post H; leaf_result. Qed.

Lemma F_relu_post training x s r s' :
  F_relu x s = (r, s') -> call_post ReLU training x s r s'.
Proof. unfold F_relu. intros H. leaf_post H; leaf_result. Qed.

Lemma F_dropout_post p training x s r s' :
  F_dropout p training x s = (r, s') -> call_post (Dropout p) training x s r s'.
Proof.
  unfold F_dropout. intros H. destruct training; leaf_post H; leaf_result.
Qed.

Lemma F_max_pool2d_post k st training x s r s' :
  F_max_pool2d k st x s = (r, s') -> call_post (MaxPool2d k st) training x s r s'.
Proof. unfold F_max_pool2d. intros H. leaf_post H; leaf_result. Qed.

Lemma F_avg_pool2d_post k training x s r s' :
  F_avg_pool2d k x s = (r, s') -> call_post (AvgPool2d k) training x s r s'.
Proof. unfold F_avg_pool2d. intros H. leaf_post H; leaf_result. Qed.

Lemma F_adaptive_avg_pool2d_post o training x s r s' :
  F_adaptive_avg_pool2d o x s = (r, s') ->
  call_post (AdaptiveAvgPool2d o) training x s r s'.
Proof. unfold F_adaptive_avg_pool2d. intros H. leaf_post H; leaf_result. Qed.


Lemma run_seq_post training ms :
  Forall (fun m => forall x s r s',
            call m training x s = (r, s') -> call_post m training x s r s') ms ->
  forall x s r s',
    run_seq (fun c => call c training) ms x s = (r, s') ->
    call_post (Sequential ms) training x s r s'.
Proof.
  induction 1 as [| m ms Hm _ IH]; intros x s r s' H.
  - inversion H; subst. split; [apply same_meta_refl |].
    split; [apply frame_refl |]. simpl. rewrite app_nil_r. auto.
  - simpl in H. apply bind_inv in H as [(a & s1 & Hc & H) | (e & Hc & ->)].
    + apply Hm in Hc as (M1 & F1 & S1 & D1 & T1).
      apply IH in H as (M2 & F2 & R2).
      split; [eapply same_meta_trans; eauto |].
      split.
      { eapply frame_trans; eauto; intros l Hl; simpl; apply in_app_iff; auto. }
      destruct r as [y | e]; simpl in *.
      * destruct R2 as (S2 & D2 & T2).
        rewrite S1, D2, D1, T2, T1, app_assoc. auto.
      * destruct R2 as (O2 & pre & rest & E2 & T2). split; [exact O2 |].
        exists (ops m ++ pre), rest. rewrite E2, T2, T1, !app_assoc. auto.
    + apply Hm in Hc as (M1 & F1 & O1 & pre & rest & E1 & T1).
      split; [exact M1 |].
      split.
      { eapply frame_weaken; eauto; intros l Hl; simpl; apply in_app_iff; auto. }
      simpl. split; [exact O1 |].
      exists pre, (rest ++ flat_map ops ms). rewrite E1, app_assoc. auto.
Qed.

(** Every call of every module tree satisfies [call_post]. *)
Lemma call_post_holds training m :
  forall x s r s',
    call m training x s = (r, s') -> call_post m training x s r s'.
Proof.
  induction m as [cin cout k p w | c w b rm rv nbt | g c w b | | p | k st | k
                  | o | ms IH | l IH | l IH] using nn_module_tree_ind;
    intros x s r s' H; simpl in H.
  - eapply F_conv2d_post; eauto.
  - eapply BatchNorm2d_forward_post; eauto.
  - eapply F_group_norm_post; eauto.
  - eapply F_relu_post; eauto.
  - eapply F_dropout_post; eauto.
  - eapply F_max_pool2d_post; eauto.
  - eapply F_avg_pool2d_post; eauto.
  - eapply F_adaptive_avg_pool2d_post; eauto.
  - eapply run_seq_post; eauto.
  - rewrite bind_ret_r in H. apply IH in H. exact H.
  - rewrite bind_ret_r in H. apply IH in H. exact H.
Qed.

End CallPost.

(** ** When a call succeeds *)

(** Every tensor whose element type a call of [m] compares with the input's
    has element type [d]. *)
Definition params_dtype (s : state) (m : nn_module) (d : dtype) : Prop :=
  Forall (fun l => t_dtype (cells s !!! l) = d) (weight_locs m).

Lemma dtype_eqb_refl d : dtype_eqb d d = true.
Proof. destruct d; reflexivity. Qed.

Lemma dtype_eqb_eq a b : dtype_eqb a b = true -> a = b.
Proof. destruct a, b; simpl; congruence. Qed.

Lemma params_dtype_same_meta s s' m d :
  same_meta s s' -> params_dtype s m d -> params_dtype s' m d.
Proof.
  intros M H. unfold params_dtype. eapply Forall_impl; [exact H |].
  intros l <-. apply same_meta_dtype. exact M.
Qed.

Lemma batch_norm2d_shape_Some c training s shp :
  batch_norm2d_shape c training s = Some shp ->
  shp = s /\ bn_check_input_dim s = true
  /\ (training = true -> verify_batch_size s = true)
  /\ bn_check_channels c s = true.
Proof.
  unfold batch_norm2d_shape.
  destruct (bn_check_input_dim s); simpl; [| discriminate].
  destruct training; simpl.
  - destruct (verify_batch_size s); simpl; [| discriminate].
    destruct (bn_check_channels c s); [| discriminate].
    intros [= <-]. auto.
  - destruct (bn_check_channels c s); [| discriminate].
    intros [= <-]. repeat split; auto. discriminate.
Qed.

Lemma group_norm_shape_Some g c s shp :
  group_norm_shape g c s = Some shp ->
  shp = s /\ gn_check_dim s = true
  /\ verify_batch_size (gn_grouped g s) = true
  /\ bn_check_channels c s = true.
Proof.
  unfold group_norm_shape.
  destruct (gn_check_dim s); simpl; [| discriminate].
  destruct (verify_batch_size (gn_grouped g s)); simpl; [| discriminate].
  destruct (bn_check_channels c s); [| discriminate].
  intros [= <-]. auto.
Qed.

Ltac run := cbv [bind log read write ret get_rng set_rng raise lib_error].

Section CallSucceeds.
Context `{K : Kernels}.

Lemma call_leaf_succeeds training m x s shp :
  match m with Sequential _ | ConvLayer _ | TransBlock _ => False | _ => True end ->
  out_shape m training (t_shape x) = Some shp ->
  params_dtype s m (t_dtype x) ->
  exists y s', call m training x s = (Ok y, s').
Proof.
  intros Hleaf Hs Hd. unfold params_dtype in Hd.
  destruct m as [cin cout k p w | c w b rm rv nbt | g c w b | | p | k st | k
                 | o | ms | l | l]; try contradiction; simpl in *.
  - apply Forall_cons in Hd as [Hd _].
    unfold F_conv2d. run. simpl. rewrite Hd, dtype_eqb_refl, Hs. simpl. eauto.
  - apply Forall_cons in Hd as [Hd _].
    apply batch_norm2d_shape_Some in Hs as (-> & C1 & C2 & C3).
    unfold BatchNorm2d_forward. run. simpl. rewrite C1. simpl.
    destruct training; simpl.
    + rewrite C2 by reflexivity. rewrite C3. simpl.
      rewrite (same_meta_cells_dtype (cells s) _ w) by solve_meta_cells.
      rewrite Hd, dtype_eqb_refl. simpl. eauto.
    + rewrite C3, Hd, dtype_eqb_refl. simpl. eauto.
  - apply Forall_cons in Hd as [Hd _].
    apply group_norm_shape_Some in Hs as (-> & C1 & C2 & C3).
    unfold F_group_norm. run. simpl.
    rewrite C1, C2, C3. simpl. rewrite Hd, dtype_eqb_refl. simpl. eauto.
  - unfold F_relu. run. eauto.
  - unfold F_dropout. run. simpl.
    destruct (_ || _); [eauto |]. destruct (Qeq_bool p 1); eauto.
  - unfold F_max_pool2d. run. simpl. rewrite Hs. eauto.
  - unfold F_avg_pool2d. run. simpl. rewrite Hs. eauto.
  - unfold F_adaptive_avg_pool2d. run. simpl. rewrite Hs. eauto.
Qed.

Lemma run_seq_succeeds training ms :
  Forall (fun m => forall x s shp,
            out_shape m training (t_shape x) = Some shp ->
            params_dtype s m (t_dtype x) ->
            exists y s', call m training x s = (Ok y, s')) ms ->
  forall x s shp,
    out_shape (Sequential ms) training (t_shape x) = Some shp ->
    params_dtype s (Sequential ms) (t_dtype x) ->
    exists y s', run_seq (fun c => call c training) ms x s = (Ok y, s').
Proof.
  induction 1 as [| m ms Hm _ IH]; intros x s shp Hs Hd; simpl in *.
  - unfold ret. eauto.
  - destruct (out_shape m training (t_shape x)) as [s1 |] eqn:E1; [| discriminate].
    unfold params_dtype in Hd. simpl in Hd. apply Forall_app in Hd as [Hd1 Hd2].
    destruct (Hm x s s1 E1 Hd1) as (a & sa & Ha).
    pose proof (call_post_holds training m x s _ _ Ha) as (M1 & _ & S1 & D1 & _).
    rewrite E1 in S1. injection S1 as ->.
    destruct (IH a sa shp) as (y & s' & Hy).
    + exact Hs.
    + rewrite D1. eapply params_dtype_same_meta; eauto.
    + exists y, s'. erewrite bind_step; eauto.
Qed.

(** A call succeeds when the shape rules accept the input and the
    parameters have the element type of the input. *)
Lemma call_succeeds training m :
  forall x s shp,
    out_shape m training (t_shape x) = Some shp ->
    params_dtype s m (t_dtype x) ->
    exists y s', call m training x s = (Ok y, s').
Proof.
  induction m as [cin cout k p w | c w b rm rv nbt | g c w b | | p | k st | k
                  | o | ms IH | l IH | l IH] using nn_module_tree_ind;
    intros x s shp Hs Hd;
    try (eapply call_leaf_succeeds; eauto; exact I).
  - simpl. eapply run_seq_succeeds; eauto.
  - simpl in *. destruct (IH x s shp Hs Hd) as (y & s' & Hy).
    exists y, s'. erewrite bind_step; eauto.
  - simpl in *. destruct (IH x s shp Hs Hd) as (y & s' & Hy).
    exists y, s'. erewrite bind_step; eauto.
Qed.

End CallSucceeds.

(* ===================================================================== *)
(** * The shape of [forward]                                               *)
(* ===================================================================== *)

Section ForwardPath.
Context `{K : Kernels}.

(** [forward] runs the blocks of [forward_path] one after the other, then
    [view(-1, 10)], then [log_softmax]. *)
Lemma forward_unfold i training x s :
  forward i training x s =
  (x <- call (Sequential (forward_path i)) training x ;;
   x <- Tensor_view x [-1; 10] ;;
   F_log_softmax x (softmax_dim i)) s.
Proof.
  destruct i as [self | self | self | self | self]; destruct self;
    unfold forward, forward_path, children, softmax_dim,
      Model.forward, Model.children,
      session_6_Model.forward, session_6_Model.children,
      Session_7_Model_1.forward, Session_7_Model_1.children,
      Session_7_Model_2.forward, Session_7_Model_2.children,
      Session_7_Model_3.forward, Session_7_Model_3.children;
    simpl;
    repeat (rewrite bind_assoc; apply bind_ext; intros ? ?);
    reflexivity.
Qed.


Lemma Tensor_view_inv x target s r s' :
  Tensor_view x target s = (r, s') ->
  cells s' = cells s /\ rng s' = rng s
  /\ trace s' = trace s ++ [EvView target]
  /\ match r with
     | Ok y =>
         infer_size target (numel (t_shape x)) = Some (t_shape y)
         /\ t_dtype y = t_dtype x
         /\ t_at y = (fun idx => t_at x (unravel (t_shape x) (ravel (t_shape y) idx)))
     | Raise e => exn_origin e = Library
     end.
Proof.
  unfold Tensor_view. intros H. run_in H. simpl in H.
  repeat split_cond H; inversion H; subst; simpl; repeat split; auto.
Qed.

Lemma F_log_softmax_inv x dim s r s' :
  F_log_softmax x dim s = (r, s') ->
  cells s' = cells s /\ rng s' = rng s
  /\ trace s' = trace s ++ [EvLogSoftmax dim]
  /\ match r with
     | Ok y =>
         t_shape y = t_shape x /\ t_dtype y = t_dtype x
         /\ is_floating (t_dtype x) = true
         /\ exists d,
             normalize_dim dim (length (t_shape x)) = Some d
             /\ t_at y = (fun idx =>
                            (t_at x idx
                             - ln (sum_exp (t_at x) idx d (t_shape x !!! d)))%R)
     | Raise e => exn_origin e = Library
     end.
Proof.
  unfold F_log_softmax. intros H. run_in H. simpl in H.
  repeat split_cond H; inversion H; subst; simpl; repeat split; eauto.
Qed.

End ForwardPath.

(** The operations a [forward] of the instance runs, in order. *)
Definition forward_ops (i : instance) : list event :=
  ops (Sequential (forward_path i))
  ++ [EvView [-1; 10]; EvLogSoftmax (softmax_dim i)].

(** Every parameter and buffer of the instance. *)
Definition instance_locs (i : instance) : list loc :=
  locs (Sequential (children i)).

Lemma In_removelast {A} (x : A) l : In x (removelast l) -> In x l.
Proof.
  induction l as [| a [| b l] IH]; simpl; auto.
  intros [-> | H]; [auto | right; apply IH; exact H].
Qed.

Lemma forward_path_children i m : In m (forward_path i) -> In m (children i).
Proof.
  destruct i; unfold forward_path; auto using In_removelast.
Qed.

Lemma forward_path_locs i l :
  In l (locs (Sequential (forward_path i))) -> In l (instance_locs i).
Proof.
  unfold instance_locs. simpl. rewrite !in_flat_map.
  intros (m & Hm & Hl). exists m. split; [apply forward_path_children |]; auto.
Qed.

(** What a [forward] leaves behind; compare [call_post]. *)
Definition forward_post (i : instance) (training : bool) (x : Tensor)
    (s : state) (r : result Tensor) (s' : state) : Prop :=
  same_meta s s' /\ frame (instance_locs i) s s' /\
  match r with
  | Ok y =>
      forward_shape i training (t_shape x) = Some (t_shape y)
      /\ t_dtype y = t_dtype x
      /\ trace s' = trace s ++ forward_ops i
  | Raise e =>
      exn_origin e = Library
      /\ exists pre rest, forward_ops i = pre ++ rest /\ trace s' = trace s ++ pre
  end.

Lemma forward_post_holds `{K : Kernels} i training x s r s' :
  forward i training x s = (r, s') -> forward_post i training x s r s'.
Proof.
  rewrite forward_unfold. intros H. unfold forward_post, forward_ops, forward_shape.
  set (body := Sequential (forward_path i)) in *.
  assert (Hincl : forall l, In l (locs body) -> In l (instance_locs i))
    by apply forward_path_locs.
  apply bind_inv in H as [(a & s1 & Hc & H) | (e & Hc & ->)];
    apply call_post_holds in Hc as (M1 & F1 & R1).
  - destruct R1 as (S1 & D1 & T1). rewrite S1.
    apply bind_inv in H as [(b & s2 & Hv & H) | (e & Hv & ->)];
      apply Tensor_view_inv in Hv as (C2 & _ & T2 & R2).
    + destruct R2 as (S2 & D2 & _).
      apply F_log_softmax_inv in H as (C3 & _ & T3 & R3).
      assert (M3 : same_meta s s').
      { unfold same_meta in *. rewrite C3, C2. exact M1. }
      assert (F3 : frame (instance_locs i) s s').
      { eapply frame_weaken; [| exact Hincl].
        intros l Hl. rewrite C3, C2. apply F1, Hl. }
      split; [exact M3 |]. split; [exact F3 |].
      destruct r as [y | e].
      * destruct R3 as (S3 & D3 & _). rewrite S3, D3, D2, D1, T3, T2, T1.
        rewrite <- !app_assoc. auto.
      * split; [exact R3 |].
        eexists _, []. rewrite app_nil_r. split; [reflexivity |].
        rewrite T3, T2, T1, <- !app_assoc. reflexivity.
    + split; [unfold same_meta in *; rewrite C2; exact M1 |].
      split.
      { eapply frame_weaken; [| exact Hincl]. intros l Hl. rewrite C2. apply F1, Hl. }
      split; [exact R2 |].
      exists (ops body ++ [EvView [-1; 10]]), [EvLogSoftmax (softmax_dim i)].
      rewrite T2, T1, <- !app_assoc. auto.
  - destruct R1 as (O1 & pre & rest & E1 & T1).
    split; [exact M1 |]. split; [eapply frame_weaken; eauto |].
    split; [exact O1 |].
    exists pre, (rest ++ [EvView [-1; 10]; EvLogSoftmax (softmax_dim i)]).
    rewrite E1, <- app_assoc. auto.
Qed.

(* ===================================================================== *)
(** * Constructors                                                         *)
(* ===================================================================== *)

(** [s'] has the cells of [s] and new ones behind them. *)
Definition extends (s s' : state) : Prop :=
  exists new, cells s' = cells s ++ new.

(** Module [m] was built between [s] and [s']: its tensors were allocated
    in between, and its parameters have the default element type. *)
Definition built (s : state) (m : nn_module) (s' : state) : Prop :=
  Forall (fun l => (length (cells s) <= l < length (cells s'))%nat) (locs m)
  /\ params_dtype s' m Float32.

Lemma extends_refl s : extends s s.
Proof. exists []. rewrite app_nil_r. reflexivity. Qed.

Lemma extends_trans s1 s2 s3 : extends s1 s2 -> extends s2 s3 -> extends s1 s3.
Proof.
  intros [n1 E1] [n2 E2]. exists (n1 ++ n2). rewrite E2, E1, app_assoc. reflexivity.
Qed.

Lemma extends_length s s' : extends s s' -> (length (cells s) <= length (cells s'))%nat.
Proof. intros [n E]. rewrite E, length_app. lia. Qed.

Lemma extends_lookup s s' l :
  extends s s' -> (l < length (cells s))%nat -> cells s' !! l = cells s !! l.
Proof. intros [n E] Hl. rewrite E. apply lookup_app_l. exact Hl. Qed.

Lemma extends_lookup_total s s' l :
  extends s s' -> (l < length (cells s))%nat -> cells s' !!! l = cells s !!! l.
Proof. intros [n E] Hl. rewrite E. apply lookup_total_app_l. exact Hl. Qed.

Lemma weight_locs_locs m l : In l (weight_locs m) -> In l (locs m).
Proof.
  induction m as [cin cout k p w | c w b rm rv nbt | g c w b | | p | k st | k
                  | o | ms IH | l' IH | l' IH] using nn_module_tree_ind;
    simpl; auto; try tauto.
  rewrite !in_flat_map. intros (m & Hm & Hl). exists m. split; [exact Hm |].
  rewrite Forall_forall in IH. apply IH; auto. apply list_elem_of_In. exact Hm.
Qed.

Lemma built_mono s0 s1 m s2 s3 :
  built s1 m s2 -> extends s0 s1 -> extends s2 s3 -> built s0 m s3.
Proof.
  intros [Hr Hd] E01 E23. apply extends_length in E01. split.
  - eapply Forall_impl; [exact Hr |]. intros l Hl. simpl in Hl.
    apply extends_length in E23. lia.
  - unfold params_dtype in *. rewrite Forall_forall in *.
    intros l Hl. rewrite extends_lookup_total with (s := s2); auto.
    apply list_elem_of_In, weight_locs_locs, list_elem_of_In in Hl.
    specialize (Hr l Hl). simpl in Hr. lia.
Qed.

Lemma built_Sequential s ms s' :
  Forall (fun m => built s m s') ms -> built s (Sequential ms) s'.
Proof.
  unfold built, params_dtype. induction 1 as [| m ms [H1 H2] _ [IH1 IH2]]; simpl.
  - split; constructor.
  - split; apply Forall_app; auto.
Qed.

Lemma built_ConvLayer s m s' : built s m s' -> built s (ConvLayer m) s'.
Proof. exact (fun H => H). Qed.

Lemma built_TransBlock s m s' : built s m s' -> built s (TransBlock m) s'.
Proof. exact (fun H => H). Qed.

Lemma built_no_params s m s' : locs m = [] -> built s m s'.
Proof.
  intros E. split; [rewrite E; constructor |].
  unfold params_dtype. destruct (weight_locs m) as [| l ls] eqn:W; [constructor |].
  assert (In l (locs m)) by (apply weight_locs_locs; rewrite W; left; reflexivity).
  rewrite E in *. contradiction.
Qed.

(** What a constructor that should build architecture [A] does from [s]:
    the store grows, a result is a freshly built module of that
    architecture, and an exception is the library's. *)
Definition ctor_post (A : nn_module) (s : state) (r : result nn_module)
    (s' : state) : Prop :=
  extends s s' /\
  match r with
  | Ok m => arch m = A /\ built s m s' /\ NoDup (locs m)
  | Raise e => exn_origin e = Library
  end.

Lemma lookup_total_fresh (c : list Tensor) (new : list Tensor) k :
  (c ++ new) !!! (length c + k)%nat = new !!! k.
Proof.
  rewrite lookup_total_app_r by lia. f_equal. lia.
Qed.

Ltac distinct_locs :=
  rewrite ?length_app; simpl;
  apply NoDup_ListNoDup;
  repeat (apply List.NoDup_cons; [simpl; lia |]);
  apply List.NoDup_nil.

Ltac fresh_cells :=
  rewrite <- ?app_assoc; simpl;
  rewrite ?length_app; simpl;
  repeat match goal with
         | |- context [(?c ++ ?new) !!! length ?c] =>
             replace ((c ++ new) !!! length c) with (new !!! O)
               by (rewrite <- (lookup_total_fresh c new O); f_equal; lia)
         end;
  rewrite ?lookup_total_fresh.

Section Constructors.
Context `{K : Kernels}.

(** What the check of a new tensor's shape decides. *)
Lemma check_size_inv shape s r s' :
  check_size shape s = (r, s') ->
  s' = s
  /\ match r with
     | Ok _ =>
         forallb fits_int64 shape = true
         /\ forallb (fun d => 0 <=? d) shape = true
         /\ can_allocate shape = true
     | Raise e =>
         exn_origin e = Library
         /\ (forallb fits_int64 shape = false
             \/ forallb (fun d => 0 <=? d) shape = false
             \/ can_allocate shape = false)
     end.
Proof.
  unfold check_size. intros H.
  destruct (forallb fits_int64 shape); simpl in H;
    [| inversion H; subst; simpl; auto].
  destruct (forallb (fun d => 0 <=? d) shape); simpl in H;
    [| inversion H; subst; simpl; auto].
  destruct (can_allocate shape); simpl in H; inversion H; subst; simpl; auto.
Qed.

Lemma check_size_Ok shape s :
  forallb fits_int64 shape = true ->
  forallb (fun d => 0 <=? d) shape = true ->
  can_allocate shape = true ->
  check_size shape s = (Ok tt, s).
Proof. unfold check_size. intros -> -> ->. reflexivity. Qed.

Lemma nn_Conv2d_post cin cout k p s r s' :
  nn_Conv2d cin cout k p s = (r, s') ->
  ctor_post (Conv2d cin cout k p O) s r s'.
Proof.
  unfold nn_Conv2d. intros H.
  apply bind_inv in H as [([] & s1 & Hc & H) | (e & Hc & ->)];
    apply check_size_inv in Hc as [-> Hc].
  - destruct (numel _ =? 0);
      cbv [bind ret alloc get_rng set_rng] in H;
      simpl in H; inversion H; subst; clear H;
      (split; [eexists; reflexivity |]; split; [reflexivity |];
       split; [split |]; simpl;
       [ repeat constructor; rewrite ?length_app; simpl; lia
       | unfold params_dtype; simpl; repeat constructor; fresh_cells; reflexivity
       | distinct_locs ]).
  - split; [apply extends_refl | apply Hc].
Qed.

Lemma nn_BatchNorm2d_post c s r s' :
  nn_BatchNorm2d c s = (r, s') ->
  ctor_post (BatchNorm2d c O O O O O) s r s'.
Proof.
  unfold nn_BatchNorm2d. intros H.
  apply bind_inv in H as [([] & s1 & Hc & H) | (e & Hc & ->)];
    apply check_size_inv in Hc as [-> Hc].
  - cbv [bind ret alloc get_rng set_rng] in H.
    simpl in H; inversion H; subst; clear H.
    split; [rewrite <- !app_assoc; eexists; reflexivity |]. split; [reflexivity |].
    split; [split |]; simpl.
    + repeat constructor; rewrite ?length_app; simpl; lia.
    + unfold params_dtype. simpl. repeat constructor. fresh_cells. reflexivity.
    + distinct_locs.
  - split; [apply extends_refl | apply Hc].
Qed.

Lemma nn_GroupNorm_post g c s r s' :
  nn_GroupNorm g c s = (r, s') ->
  ctor_post (GroupNorm g c O O) s r s'.
Proof.
  unfold nn_GroupNorm. intros H.
  destruct (negb _).
  { inversion H; subst. split; [apply extends_refl | reflexivity]. }
  apply bind_inv in H as [([] & s1 & Hc & H) | (e & Hc & ->)];
    apply check_size_inv in Hc as [-> Hc].
  - cbv [bind ret alloc get_rng set_rng] in H.
    simpl in H; inversion H; subst; clear H.
    split; [rewrite <- !app_assoc; eexists; reflexivity |]. split; [reflexivity |].
    split; [split |]; simpl.
    + repeat constructor; rewrite ?length_app; simpl; lia.
    + unfold params_dtype. simpl. repeat constructor. fresh_cells. reflexivity.
    + distinct_locs.
  - split; [apply extends_refl | apply Hc].
Qed.


(** A constructor without parameters. *)
Lemma ret_post m s r s' :
  locs m = [] -> ret m s = (r, s') -> ctor_post (arch m) s r s'.
Proof.
  intros E H. inversion H; subst.
  split; [apply extends_refl |]. split; [reflexivity |].
  split; [apply built_no_params; exact E | rewrite E; constructor].
Qed.

Lemma nn_Dropout_post q s r s' :
  nn_Dropout (VFloat q) s = (r, s') -> ctor_post (Dropout q) s r s'.
Proof.
  unfold nn_Dropout. destruct (_ && _); intros H.
  - apply (ret_post (Dropout q)); [reflexivity | exact H].
  - inversion H; subst. split; [apply extends_refl | reflexivity].
Qed.

(** On a member of the enumeration [normalizer] is the constructor call of
    the matching branch. *)
Lemma normalizer_enum nm c s :
  normalizer (VMethod nm) c s =
  match nm with
  | BATCH => nn_BatchNorm2d c s
  | LAYER => nn_GroupNorm 1 c s
  | GROUP => nn_GroupNorm NUM_GROUPS c s
  end.
Proof. destruct nm; reflexivity. Qed.

Definition norm_arch (nm : NormalizationMethod) (c : Z) : nn_module :=
  match nm with
  | BATCH => BatchNorm2d c O O O O O
  | LAYER => GroupNorm 1 c O O
  | GROUP => GroupNorm NUM_GROUPS c O O
  end.

Lemma normalizer_post nm c s r s' :
  normalizer (VMethod nm) c s = (r, s') -> ctor_post (norm_arch nm c) s r s'.
Proof.
  rewrite normalizer_enum.
  destruct nm; [apply nn_BatchNorm2d_post | apply nn_GroupNorm_post ..].
Qed.

(** Run constructors one after the other and collect the modules. *)
Fixpoint build_all (cs : list (M nn_module)) : M (list nn_module) :=
  match cs with
  | [] => ret []
  | c :: cs' => m <- c ;; ms <- build_all cs' ;; ret (m :: ms)
  end.

Definition ctor_ok (c : M nn_module) (A : nn_module) : Prop :=
  forall s r s', c s = (r, s') -> ctor_post A s r s'.

Lemma build_all_post cs As :
  Forall2 ctor_ok cs As ->
  forall s r s',
    build_all cs s = (r, s') ->
    extends s s' /\
    match r with
    | Ok ms =>
        map arch ms = As /\ Forall (fun m => built s m s') ms
        /\ NoDup (flat_map locs ms)
    | Raise e => exn_origin e = Library
    end.
Proof.
  induction 1 as [| c A cs As Hc _ IH]; intros s r s' H; simpl in H.
  - inversion H; subst. split; [apply extends_refl |]. repeat split; constructor.
  - apply bind_inv in H as [(m & s1 & Hm & H) | (e & Hm & ->)];
      apply Hc in Hm as [E1 R1].
    + destruct R1 as (A1 & B1 & N1).
      apply bind_inv in H as [(ms & s2 & Hms & H) | (e & Hms & ->)];
        apply IH in Hms as [E2 R2].
      * inversion H; subst. destruct R2 as (A2 & B2 & N2).
        split; [eapply extends_trans; eauto |].
        split; [simpl; congruence |].
        split.
        -- constructor.
           ++ apply (built_mono s s m s1 s'); [exact B1 | apply extends_refl | exact E2].
           ++ eapply Forall_impl; [exact B2 |]. intros m' Hm'.
              apply (built_mono s s1 m' s' s'); [exact Hm' | exact E1 | apply extends_refl].
        -- simpl. apply NoDup_app. split; [exact N1 |]. split; [| exact N2].
           intros l Hl Hl'. destruct B1 as [R1 _].
           rewrite Forall_forall in R1. specialize (R1 l Hl). simpl in R1.
           apply list_elem_of_In, in_flat_map in Hl' as (m' & Hm' & Hl').
           rewrite Forall_forall in B2.
           apply list_elem_of_In in Hm'. destruct (B2 m' Hm') as [R2 _].
           rewrite Forall_forall in R2.
           apply list_elem_of_In in Hl'. specialize (R2 l Hl'). simpl in R2. lia.
      * split; [eapply extends_trans; eauto | exact R2].
    + split; assumption.
Qed.

Lemma seq_ctor_ok cs As (wrap : nn_module -> nn_module) :
  Forall2 ctor_ok cs As ->
  (forall m, arch (wrap m) = wrap (arch m)) ->
  (forall m, locs (wrap m) = locs m) ->
  (forall m, weight_locs (wrap m) = weight_locs m) ->
  ctor_ok (ms <- build_all cs ;; ret (wrap (Sequential ms)))
          (wrap (Sequential As)).
Proof.
  intros Hcs Harch Hlocs Hw s r s' H.
  apply bind_inv in H as [(ms & s1 & Hms & H) | (e & Hms & ->)];
    apply (build_all_post _ _ Hcs) in Hms as [E1 R1].
  - inversion H; subst. destruct R1 as (A1 & B1 & N1).
    split; [exact E1 |]. split; [| split].
    + rewrite Harch. simpl. rewrite A1. reflexivity.
    + apply built_Sequential in B1. unfold built, params_dtype in *.
      rewrite Hlocs, Hw. exact B1.
    + rewrite Hlocs. exact N1.
  - split; assumption.
Qed.


(** ** The architectures model.py builds *)

Definition ConvLayer_arch (cin cout p : Z) (nm : NormalizationMethod) : nn_module :=
  ConvLayer (Sequential [Conv2d cin cout (3, 3) p O; norm_arch nm cout; ReLU;
                         Dropout (5 # 100)]).

Definition TransBlock_arch (cin cout : Z) : nn_module :=
  TransBlock (Sequential [Conv2d cin cout (1, 1) 0 O; MaxPool2d 2 2]).

Definition Model_arch (nm : NormalizationMethod) : list nn_module :=
  [ Sequential [ConvLayer_arch 3 16 1 nm; ConvLayer_arch 16 32 1 nm];
    TransBlock_arch 32 16;
    Sequential [ConvLayer_arch 16 16 1 nm; ConvLayer_arch 16 16 1 nm;
                ConvLayer_arch 16 32 1 nm];
    TransBlock_arch 32 16;
    Sequential [ConvLayer_arch 16 16 1 nm; ConvLayer_arch 16 16 1 nm;
                ConvLayer_arch 16 32 1 nm];
    TransBlock_arch 32 16;
    AdaptiveAvgPool2d 1;
    Conv2d 16 10 (1, 1) 0 O ].

Definition conv_relu_bn_arch (cin cout : Z) (k : Z * Z) (p : Z) : nn_module :=
  Sequential [Conv2d cin cout k p O; ReLU; BatchNorm2d cout O O O O O].

Definition conv_only_arch (cin cout : Z) (k : Z * Z) (p : Z) : nn_module :=
  Sequential [Conv2d cin cout k p O].

(** Session_7_Model_2 and Session_7_Model_3 build this one architecture. *)
Definition Session_7_arch : list nn_module :=
  [ conv_relu_bn_arch 1 8 (3, 3) 0;
    conv_relu_bn_arch 8 16 (3, 3) 0;
    conv_only_arch 16 10 (1, 1) 0;
    MaxPool2d 2 2;
    conv_relu_bn_arch 10 10 (3, 3) 0;
    conv_relu_bn_arch 10 16 (3, 3) 0;
    conv_relu_bn_arch 16 10 (3, 3) 0;
    conv_relu_bn_arch 10 10 (3, 3) 0;
    conv_relu_bn_arch 10 10 (3, 3) 0;
    conv_only_arch 10 10 (2, 2) 0 ].

Ltac each_ctor :=
  repeat (apply List.Forall2_cons; [intros ? ? ? |]);
  [.. | apply List.Forall2_nil].

Ltac same_steps :=
  repeat (repeat (rewrite bind_assoc || rewrite bind_ret_l);
          apply bind_ext; intros ? ?);
  reflexivity.

Lemma ConvLayer_init_ok cin cout p nm :
  ctor_ok (ConvLayer_init cin cout p (VMethod nm)) (ConvLayer_arch cin cout p nm).
Proof.
  intros s r s' H. unfold ConvLayer_arch.
  apply (seq_ctor_ok
           [nn_Conv2d cin cout (3, 3) p; normalizer (VMethod nm) cout;
            nn_ReLU; nn_Dropout (VFloat (5 # 100))] _ ConvLayer); auto.
  - each_ctor.
    + apply nn_Conv2d_post.
    + apply normalizer_post.
    + apply (ret_post ReLU). reflexivity.
    + apply nn_Dropout_post.
  - rewrite <- H. unfold ConvLayer_init, nn_Sequential. simpl build_all.
    symmetry. same_steps.
Qed.

Lemma TransBlock_init_ok cin cout :
  ctor_ok (TransBlock_init cin cout) (TransBlock_arch cin cout).
Proof.
  intros s r s' H. unfold TransBlock_arch.
  apply (seq_ctor_ok [nn_Conv2d cin cout (1, 1) 0; nn_MaxPool2d 2 2] _ TransBlock);
    auto.
  - each_ctor.
    + apply nn_Conv2d_post.
    + apply (ret_post (MaxPool2d 2 2)). reflexivity.
  - rewrite <- H. unfold TransBlock_init, nn_Sequential. simpl build_all.
    symmetry. same_steps.
Qed.

Lemma conv_relu_bn_ok cin cout k p :
  ctor_ok (conv_relu_bn cin cout k p) (conv_relu_bn_arch cin cout k p).
Proof.
  intros s r s' H. unfold conv_relu_bn_arch.
  apply (seq_ctor_ok [nn_Conv2d cin cout k p; nn_ReLU; nn_BatchNorm2d cout] _
           (fun m => m)); auto.
  - each_ctor.
    + apply nn_Conv2d_post.
    + apply (ret_post ReLU). reflexivity.
    + apply nn_BatchNorm2d_post.
  - rewrite <- H. unfold conv_relu_bn, nn_Sequential. simpl build_all.
    symmetry. same_steps.
Qed.

Lemma conv_only_ok cin cout k p :
  ctor_ok (conv_only cin cout k p) (conv_only_arch cin cout k p).
Proof.
  intros s r s' H. unfold conv_only_arch.
  apply (seq_ctor_ok [nn_Conv2d cin cout k p] _ (fun m => m)); auto.
  - each_ctor. apply nn_Conv2d_post.
  - rewrite <- H. unfold conv_only, nn_Sequential. simpl build_all.
    symmetry. same_steps.
Qed.


(** What the constructor of a class leaves behind: the store grew, and the
    attributes are freshly built modules of the given architectures. *)
Definition init_post (As : list nn_module) (s : state)
    (r : result (list nn_module)) (s' : state) : Prop :=
  extends s s' /\
  match r with
  | Ok ms =>
      map arch ms = As /\ Forall (fun m => built s m s') ms
      /\ NoDup (flat_map locs ms)
  | Raise e => exn_origin e = Library
  end.

Definition fmap_result {A B} (f : A -> B) (r : result A) : result B :=
  match r with Ok a => Ok (f a) | Raise e => Raise e end.

Definition plain_seq (cs : list (M nn_module)) : M nn_module :=
  ms <- build_all cs ;; ret ((fun m => m) (Sequential ms)).

Lemma plain_seq_ok cs As :
  Forall2 ctor_ok cs As -> ctor_ok (plain_seq cs) (Sequential As).
Proof.
  intros H. apply (seq_ctor_ok cs As (fun m => m)); auto.
Qed.

Definition Model_blocks (nm : NormalizationMethod) : list (M nn_module) :=
  [ plain_seq [ConvLayer_init 3 16 1 (VMethod nm); ConvLayer_init 16 32 1 (VMethod nm)];
    TransBlock_init 32 16;
    plain_seq [ConvLayer_init 16 16 1 (VMethod nm); ConvLayer_init 16 16 1 (VMethod nm);
               ConvLayer_init 16 32 1 (VMethod nm)];
    TransBlock_init 32 16;
    plain_seq [ConvLayer_init 16 16 1 (VMethod nm); ConvLayer_init 16 16 1 (VMethod nm);
               ConvLayer_init 16 32 1 (VMethod nm)];
    TransBlock_init 32 16;
    nn_AdaptiveAvgPool2d 1;
    nn_Conv2d 16 10 (1, 1) 0 ].

Lemma Model_blocks_ok nm : Forall2 ctor_ok (Model_blocks nm) (Model_arch nm).
Proof.
  unfold Model_blocks, Model_arch. each_ctor;
    first [ apply TransBlock_init_ok
          | apply nn_Conv2d_post
          | apply (ret_post (AdaptiveAvgPool2d 1)); reflexivity
          | apply plain_seq_ok; each_ctor; apply ConvLayer_init_ok ].
Qed.

Lemma Model_init_blocks nm s :
  Model.init (VMethod nm) s =
  (ms <- build_all (Model_blocks nm) ;;
   match ms with
   | [a; b; c; d; e; f; g; h] => ret (Model.mk a b c d e f g h)
   | _ => lib_error RuntimeError
   end) s.
Proof.
  unfold Model.init, Model_blocks, plain_seq, nn_Sequential. simpl build_all.
  symmetry. same_steps.
Qed.

Lemma Model_init_post nm s r s' :
  Model.init (VMethod nm) s = (r, s') ->
  init_post (Model_arch nm) s (fmap_result Model.children r) s'.
Proof.
  rewrite Model_init_blocks. intros H.
  apply bind_inv in H as [(ms & s1 & Hms & H) | (e & Hms & ->)];
    apply (build_all_post _ _ (Model_blocks_ok nm)) in Hms as [E1 R1].
  - destruct R1 as (A1 & B1 & N1).
    assert (Hlen : length ms = 8%nat)
      by (rewrite <- (length_map arch), A1; reflexivity).
    do 9 (destruct ms as [| ? ms]; try discriminate Hlen).
    inversion H; subst. split; [exact E1 |]. repeat split; assumption.
  - split; assumption.
Qed.


Definition Session_7_blocks : list (M nn_module) :=
  [ conv_relu_bn 1 8 (3, 3) 0;
    conv_relu_bn 8 16 (3, 3) 0;
    conv_only 16 10 (1, 1) 0;
    nn_MaxPool2d 2 2;
    conv_relu_bn 10 10 (3, 3) 0;
    conv_relu_bn 10 16 (3, 3) 0;
    conv_relu_bn 16 10 (3, 3) 0;
    conv_relu_bn 10 10 (3, 3) 0;
    conv_relu_bn 10 10 (3, 3) 0;
    conv_only 10 10 (2, 2) 0 ].

Lemma Session_7_blocks_ok : Forall2 ctor_ok Session_7_blocks Session_7_arch.
Proof.
  unfold Session_7_blocks, Session_7_arch. each_ctor;
    first [ apply conv_relu_bn_ok
          | apply conv_only_ok
          | apply (ret_post (MaxPool2d 2 2)); reflexivity ].
Qed.

Lemma Session_7_Model_2_init_blocks s :
  Session_7_Model_2.init s =
  (ms <- build_all Session_7_blocks ;;
   match ms with
   | [a; b; c; d; e; f; g; h; i; j] => ret (Session_7_Model_2.mk a b c d e f g h i j)
   | _ => lib_error RuntimeError
   end) s.
Proof.
  unfold Session_7_Model_2.init, Session_7_blocks. simpl build_all.
  symmetry. same_steps.
Qed.

Lemma Session_7_Model_3_init_blocks s :
  Session_7_Model_3.init s =
  (ms <- build_all Session_7_blocks ;;
   match ms with
   | [a; b; c; d; e; f; g; h; i; j] => ret (Session_7_Model_3.mk a b c d e f g h i j)
   | _ => lib_error RuntimeError
   end) s.
Proof.
  unfold Session_7_Model_3.init, Session_7_blocks. simpl build_all.
  symmetry. same_steps.
Qed.

Lemma Session_7_Model_2_init_post s r s' :
  Session_7_Model_2.init s = (r, s') ->
  init_post Session_7_arch s (fmap_result Session_7_Model_2.children r) s'.
Proof.
  rewrite Session_7_Model_2_init_blocks. intros H.
  apply bind_inv in H as [(ms & s1 & Hms & H) | (e & Hms & ->)];
    apply (build_all_post _ _ Session_7_blocks_ok) in Hms as [E1 R1].
  - destruct R1 as (A1 & B1 & N1).
    assert (Hlen : length ms = 10%nat)
      by (rewrite <- (length_map arch), A1; reflexivity).
    do 11 (destruct ms as [| ? ms]; try discriminate Hlen).
    inversion H; subst. split; [exact E1 |]. repeat split; assumption.
  - split; assumption.
Qed.

Lemma Session_7_Model_3_init_post s r s' :
  Session_7_Model_3.init s = (r, s') ->
  init_post Session_7_arch s (fmap_result Session_7_Model_3.children r) s'.
Proof.
  rewrite Session_7_Model_3_init_blocks. intros H.
  apply bind_inv in H as [(ms & s1 & Hms & H) | (e & Hms & ->)];
    apply (build_all_post _ _ Session_7_blocks_ok) in Hms as [E1 R1].
  - destruct R1 as (A1 & B1 & N1).
    assert (Hlen : length ms = 10%nat)
      by (rewrite <- (length_map arch), A1; reflexivity).
    do 11 (destruct ms as [| ? ms]; try discriminate Hlen).
    inversion H; subst. split; [exact E1 |]. repeat split; assumption.
  - split; assumption.
Qed.

(** The first block of session_6_Model and of Session_7_Model_1 stops at
    the name [dropout_value]. *)
Lemma conv_relu_bn_drop_NameError line cin cout k p s :
  (forall s1, check_size [cout; cin; k.1; k.2] s1 = (Ok tt, s1)) ->
  (forall s1, check_size [cout] s1 = (Ok tt, s1)) ->
  exists s',
    conv_relu_bn_drop line cin cout k p s
    = (Raise (mkExn NameError (ThisFile line) "dropout_value"), s')
    /\ extends s s'.
Proof.
  intros H1 H2. unfold conv_relu_bn_drop, nn_Conv2d, nn_BatchNorm2d, bind.
  rewrite H1. cbv beta iota.
  destruct (numel _ =? 0); simpl; rewrite H2;
    (eexists; split; [reflexivity |]);
    simpl; rewrite <- !app_assoc; eexists; reflexivity.
Qed.

Lemma session_6_Model_init_NameError s :
  exists s',
    session_6_Model.init s
    = (Raise (mkExn NameError (ThisFile 158) "dropout_value"), s')
    /\ extends s s'.
Proof.
  destruct (conv_relu_bn_drop_NameError 158 1 16 (3, 3) 0 s
              (fun _ => eq_refl) (fun _ => eq_refl)) as (s' & H & E).
  exists s'. split; [| exact E].
  unfold session_6_Model.init. erewrite bind_fail; eauto.
Qed.

Lemma Session_7_Model_1_init_NameError s :
  exists s',
    Session_7_Model_1.init s
    = (Raise (mkExn NameError (ThisFile 246) "dropout_value"), s')
    /\ extends s s'.
Proof.
  destruct (conv_relu_bn_drop_NameError 246 1 8 (3, 3) 0 s
              (fun _ => eq_refl) (fun _ => eq_refl)) as (s' & H & E).
  exists s'. split; [| exact E].
  unfold Session_7_Model_1.init. erewrite bind_fail; eauto.
Qed.

End Constructors.

(* ===================================================================== *)
(** * Shape arithmetic                                                     *)
(* ===================================================================== *)

Lemma out_shape_cons m ms training s :
  out_shape (Sequential (m :: ms)) training s =
  match out_shape m training s with
  | Some s' => out_shape (Sequential ms) training s'
  | None => None
  end.
Proof. reflexivity. Qed.

Lemma out_shape_nil training s : out_shape (Sequential []) training s = Some s.
Proof. reflexivity. Qed.

(** The shape rules do not look at the store locations. *)
Lemma out_shape_arch training m : forall s, out_shape (arch m) training s = out_shape m training s.
Proof.
  induction m as [cin cout k p w | c w b rm rv nbt | g c w b | | p | k st | k
                  | o | ms IH | l IH | l IH] using nn_module_tree_ind;
    intros s; try reflexivity; try (simpl; apply IH).
  revert s. induction IH as [| m ms Hm _ IH]; intros s; [reflexivity |].
  change (arch (Sequential (m :: ms))) with (Sequential (arch m :: map arch ms)).
  rewrite !out_shape_cons, Hm. destruct (out_shape m training s); [| reflexivity].
  apply IH.
Qed.

Lemma out_shape_same_arch training m m' s :
  arch m = arch m' -> out_shape m training s = out_shape m' training s.
Proof. intros E. rewrite <- (out_shape_arch _ m), E. apply out_shape_arch. Qed.

Lemma ops_arch m : ops (arch m) = ops m.
Proof.
  induction m as [cin cout k p w | c w b rm rv nbt | g c w b | | p | k st | k
                  | o | ms IH | l IH | l IH] using nn_module_tree_ind;
    try reflexivity; try (simpl; apply IH).
  simpl. induction IH as [| m ms Hm _ IH]; [reflexivity |].
  simpl. rewrite Hm, IH. reflexivity.
Qed.

(** The training flag decides whether a shape is accepted, never which
    shape comes out. *)
Lemma out_shape_det m : forall tr1 tr2 s a b,
  out_shape m tr1 s = Some a -> out_shape m tr2 s = Some b -> a = b.
Proof.
  induction m as [cin cout k p w | c w b rm rv nbt | g c w b | | p | k st | k
                  | o | ms IH | l IH | l IH] using nn_module_tree_ind;
    intros tr1 tr2 s a' b' Ha Hb; simpl in *; try congruence;
    try (eapply IH; eassumption).
  - apply batch_norm2d_shape_Some in Ha as [-> _].
    apply batch_norm2d_shape_Some in Hb as [-> _]. reflexivity.
  - revert s Ha Hb. induction IH as [| m ms Hm _ IH]; intros s Ha Hb; simpl in *.
    + congruence.
    + destruct (out_shape m tr1 s) as [s1 |] eqn:E1; [| discriminate].
      destruct (out_shape m tr2 s) as [s2 |] eqn:E2; [| discriminate].
      rewrite (Hm _ _ _ _ _ E1 E2) in Ha. eapply IH; eassumption.
Qed.

(** [view(-1, 10)] of [n] elements. *)
Lemma infer_size_view n :
  infer_size [-1; 10] n = if n mod 10 =? 0 then Some [n / 10; 10] else None.
Proof. reflexivity. Qed.

Lemma forward_shape_det i tr1 tr2 s a b :
  forward_shape i tr1 s = Some a -> forward_shape i tr2 s = Some b -> a = b.
Proof.
  unfold forward_shape. intros Ha Hb.
  destruct (out_shape _ tr1 s) as [s1 |] eqn:E1; [| discriminate].
  destruct (out_shape _ tr2 s) as [s2 |] eqn:E2; [| discriminate].
  rewrite (out_shape_det _ _ _ _ _ _ E1 E2) in Ha. congruence.
Qed.

Lemma forward_shape_columns_aux n a :
  infer_size [-1; 10] n = Some a -> exists rows, a = [rows; 10].
Proof.
  rewrite infer_size_view. destruct (_ =? _); [| discriminate].
  intros [= <-]. eauto.
Qed.

(** A result of [forward] has ten columns. *)
Lemma forward_shape_columns i tr s a :
  forward_shape i tr s = Some a -> exists rows, a = [rows; 10].
Proof.
  unfold forward_shape. destruct (out_shape _ tr s) as [s1 |]; [| discriminate].
  rewrite infer_size_view. destruct (_ =? _); [| discriminate].
  intros [= <-]. eauto.
Qed.

Ltac zlia := Z.to_euclidean_division_equations; lia.

Lemma conv2d_shape_ok cin cout k1 k2 p n h w h' w' :
  cin <> 0 -> 0 < cout -> 0 < h -> 0 < w ->
  0 <= p -> k1 <= h + 2 * p -> k2 <= w + 2 * p ->
  h' = h + 2 * p - k1 + 1 -> w' = w + 2 * p - k2 + 1 ->
  conv2d_shape cin cout (k1, k2) p [n; cin; h; w] = Some [n; cout; h'; w'].
Proof.
  intros Hi Ho Hh Hw Hp H1 H2 -> ->. unfold conv2d_shape. simpl fst. simpl snd.
  rewrite Z.eqb_refl.
  apply Z.leb_le in Hp, H1, H2. apply Z.ltb_lt in Ho, Hh, Hw.
  rewrite Hp, H1, H2, Ho, Hh, Hw.
  replace (cin =? 0) with false by (symmetry; apply Z.eqb_neq; exact Hi).
  rewrite orb_true_r. reflexivity.
Qed.

Lemma pool2d_shape_ok k st n c h w h' w' :
  0 < k -> 0 < st -> 0 < c -> k <= h -> k <= w ->
  h' = (h - k) / st + 1 -> w' = (w - k) / st + 1 ->
  pool2d_shape k st [n; c; h; w] = Some [n; c; h'; w'].
Proof.
  intros Hk Hst Hc H1 H2 -> ->. unfold pool2d_shape.
  apply Z.ltb_lt in Hk, Hst, Hc. apply Z.leb_le in H1, H2.
  rewrite Hk, Hst, Hc, H1, H2. reflexivity.
Qed.

Lemma adaptive_pool2d_shape_ok o n c h w :
  0 <= o -> 0 < c -> 0 < h -> 0 < w ->
  adaptive_pool2d_shape o [n; c; h; w] = Some [n; c; o; o].
Proof.
  intros Ho Hc Hh Hw. unfold adaptive_pool2d_shape.
  apply Z.leb_le in Ho. apply Z.ltb_lt in Hc, Hh, Hw.
  rewrite Ho, Hc, Hh, Hw. reflexivity.
Qed.

Lemma verify_batch_size_4d a c h w :
  1 <= a -> 2 <= h -> 1 <= w -> verify_batch_size [a; c; h; w] = true.
Proof.
  intros Ha Hh Hw. unfold verify_batch_size, numel. simpl.
  apply negb_true_iff, Z.eqb_neq. nia.
Qed.

(** The normalisation of a [ConvLayer] of the file (16 or 32 channels)
    accepts every batch of at least one image of at least 2x1 pixels, in
    training mode too. *)
Lemma norm_shape nm c training n h w :
  c = 16 \/ c = 32 -> 1 <= n -> 2 <= h -> 1 <= w ->
  out_shape (norm_arch nm c) training [n; c; h; w] = Some [n; c; h; w].
Proof.
  intros Hc Hn Hh Hw. destruct nm; simpl.
  - unfold batch_norm2d_shape. simpl bn_check_input_dim. simpl bn_check_channels.
    rewrite verify_batch_size_4d, Z.eqb_refl by lia. rewrite orb_true_r. reflexivity.
  - unfold group_norm_shape, gn_grouped. simpl gn_check_dim. simpl bn_check_channels.
    rewrite verify_batch_size_4d, Z.eqb_refl; auto; try lia.
    rewrite Z.div_1_r. nia.
  - unfold group_norm_shape, gn_grouped. simpl gn_check_dim. simpl bn_check_channels.
    rewrite verify_batch_size_4d, Z.eqb_refl; auto; try lia.
    unfold NUM_GROUPS. apply Z.div_le_lower_bound; lia.
Qed.

(** A 3x3 convolution with padding 1 keeps the spatial size. *)
Lemma ConvLayer_shape nm cin cout training n h w :
  1 <= cin -> cout = 16 \/ cout = 32 -> 1 <= n -> 2 <= h -> 2 <= w ->
  out_shape (ConvLayer_arch cin cout 1 nm) training [n; cin; h; w]
  = Some [n; cout; h; w].
Proof.
  intros Hi Hc Hn Hh Hw. unfold ConvLayer_arch.
  change (out_shape (ConvLayer ?l) training ?s) with (out_shape l training s).
  rewrite out_shape_cons.
  change (out_shape (Conv2d cin cout (3, 3) 1 O) training [n; cin; h; w])
    with (conv2d_shape cin cout (3, 3) 1 [n; cin; h; w]).
  rewrite (conv2d_shape_ok _ _ _ _ _ _ _ _ h w) by lia.
  rewrite out_shape_cons, norm_shape by lia.
  reflexivity.
Qed.

(** The max-pool of a [TransBlock] halves the spatial size. *)
Lemma TransBlock_shape training n h w :
  2 <= h -> 2 <= w ->
  out_shape (TransBlock_arch 32 16) training [n; 32; h; w]
  = Some [n; 16; h / 2; w / 2].
Proof.
  intros Hh Hw. unfold TransBlock_arch.
  change (out_shape (TransBlock ?l) training ?s) with (out_shape l training s).
  rewrite out_shape_cons.
  change (out_shape (Conv2d 32 16 (1, 1) 0 O) training [n; 32; h; w])
    with (conv2d_shape 32 16 (1, 1) 0 [n; 32; h; w]).
  rewrite (conv2d_shape_ok _ _ _ _ _ _ _ _ h w) by lia.
  rewrite out_shape_cons.
  change (out_shape (MaxPool2d 2 2) training [n; 16; h; w])
    with (pool2d_shape 2 2 [n; 16; h; w]).
  rewrite (pool2d_shape_ok _ _ _ _ _ _ (h / 2) (w / 2)) by zlia.
  reflexivity.
Qed.

Lemma gap_shape training n h w :
  1 <= h -> 1 <= w ->
  out_shape (AdaptiveAvgPool2d 1) training [n; 16; h; w] = Some [n; 16; 1; 1].
Proof.
  intros.
  change (adaptive_pool2d_shape 1 [n; 16; h; w] = Some [n; 16; 1; 1]).
  apply adaptive_pool2d_shape_ok; lia.
Qed.

Lemma out_conv_shape training n :
  out_shape (Conv2d 16 10 (1, 1) 0 O) training [n; 16; 1; 1] = Some [n; 10; 1; 1].
Proof.
  change (conv2d_shape 16 10 (1, 1) 0 [n; 16; 1; 1] = Some [n; 10; 1; 1]).
  apply conv2d_shape_ok; lia.
Qed.

(** The shape after each block of a list, as far as the rules accept. *)
Fixpoint scan_shapes (ms : list nn_module) (training : bool) (s : list Z)
  : list (option (list Z)) :=
  match ms with
  | [] => []
  | m :: ms' =>
      out_shape m training s ::
      match out_shape m training s with
      | Some s' => scan_shapes ms' training s'
      | None => []
      end
  end.

Lemma scan_shapes_arch training ms ms' :
  map arch ms = map arch ms' ->
  forall s, scan_shapes ms training s = scan_shapes ms' training s.
Proof.
  revert ms'. induction ms as [| m ms IH]; intros [| m' ms'] E s;
    try discriminate; [reflexivity |].
  simpl in E. injection E as E1 E2. simpl.
  rewrite (out_shape_same_arch training m m' s E1).
  destruct (out_shape m' training s); [| reflexivity].
  f_equal. apply IH. exact E2.
Qed.

Lemma out_shape_Sequential_arch training ms ms' s :
  map arch ms = map arch ms' ->
  out_shape (Sequential ms) training s = out_shape (Sequential ms') training s.
Proof.
  intros E. apply out_shape_same_arch. simpl. rewrite E. reflexivity.
Qed.

Ltac shape_steps :=
  repeat (first [ rewrite out_shape_cons
                | rewrite out_shape_nil
                | rewrite ConvLayer_shape by zlia
                | rewrite TransBlock_shape by zlia
                | rewrite gap_shape by zlia
                | rewrite out_conv_shape ];
          cbv beta iota).

(** The shapes along [Model]: the convolution blocks keep the spatial
    size, each transition halves it, the pooling leaves 1x1. *)
Lemma Model_scan_shapes nm training n h w :
  1 <= n -> 8 <= h -> 8 <= w ->
  scan_shapes (Model_arch nm) training [n; 3; h; w] =
  [ Some [n; 32; h; w];
    Some [n; 16; h / 2; w / 2];
    Some [n; 32; h / 2; w / 2];
    Some [n; 16; h / 2 / 2; w / 2 / 2];
    Some [n; 32; h / 2 / 2; w / 2 / 2];
    Some [n; 16; h / 2 / 2 / 2; w / 2 / 2 / 2];
    Some [n; 16; 1; 1];
    Some [n; 10; 1; 1] ].
Proof.
  intros Hn Hh Hw. unfold Model_arch. cbn [scan_shapes]. shape_steps.
  reflexivity.
Qed.

Lemma Model_shape nm training n h w :
  1 <= n -> 8 <= h -> 8 <= w ->
  out_shape (Sequential (Model_arch nm)) training [n; 3; h; w] = Some [n; 10; 1; 1].
Proof.
  intros Hn Hh Hw. unfold Model_arch. shape_steps. reflexivity.
Qed.

(* ===================================================================== *)
(** * When [forward] succeeds                                              *)
(* ===================================================================== *)

Lemma softmax_dim_cases i : softmax_dim i = 1 \/ softmax_dim i = -1.
Proof. destruct i; simpl; auto. Qed.

Lemma normalize_dim_columns dim :
  dim = 1 \/ dim = -1 -> normalize_dim dim 2 = Some 1%nat.
Proof. intros [-> | ->]; reflexivity. Qed.

(** [forward] succeeds when the shape rules accept the input, the
    parameters have the element type of the input, and that type is a
    floating-point type. *)
Lemma forward_succeeds `{K : Kernels} i training x s shp :
  forward_shape i training (t_shape x) = Some shp ->
  params_dtype s (Sequential (forward_path i)) (t_dtype x) ->
  is_floating (t_dtype x) = true ->
  exists y s', forward i training x s = (Ok y, s') /\ t_shape y = shp.
Proof.
  unfold forward_shape. intros Hs Hd Hf.
  destruct (out_shape _ training (t_shape x)) as [s1 |] eqn:E1; [| discriminate].
  destruct (call_succeeds training _ x s s1 E1 Hd) as (a & sa & Ha).
  pose proof (call_post_holds training _ _ _ _ _ Ha) as (_ & _ & S1 & D1 & _).
  rewrite E1 in S1. injection S1 as ->.
  assert (Hv : Tensor_view a [-1; 10] sa
               = (Ok (mkTensor shp (t_dtype a)
                        (fun idx => t_at a (unravel (t_shape a) (ravel shp idx)))),
                  mkState (cells sa) (rng sa) (trace sa ++ [EvView [-1; 10]]))).
  { unfold Tensor_view. run. rewrite Hs. reflexivity. }
  apply forward_shape_columns_aux in Hs as [rows ->].
  assert (Hn : normalize_dim (softmax_dim i) 2 = Some 1%nat)
    by apply normalize_dim_columns, softmax_dim_cases.
  eexists _, _. rewrite forward_unfold.
  erewrite bind_step by exact Ha. erewrite bind_step by exact Hv.
  unfold F_log_softmax. run. simpl. rewrite Hn. simpl. rewrite D1, Hf.
  split; reflexivity.
Qed.

(* ===================================================================== *)
(** * Constructors that always return                                      *)
(* ===================================================================== *)

Definition ctor_total {A} (c : M A) : Prop :=
  forall s, exists a s', c s = (Ok a, s').

Lemma ret_total {A} (a : A) : ctor_total (ret a).
Proof. intros s. eexists _, _. reflexivity. Qed.

Lemma bind_total {A B} (c : M A) (f : A -> M B) :
  ctor_total c -> (forall a, ctor_total (f a)) -> ctor_total (bind c f).
Proof.
  intros Hc Hf s. destruct (Hc s) as (a & s1 & Ha).
  destruct (Hf a s1) as (b & s2 & Hb). exists b, s2.
  rewrite (bind_step _ _ _ _ _ Ha). exact Hb.
Qed.

Section Totality.
Context `{K : Kernels}.

(** A shape the constructors accept on every machine. *)
Definition always_fits (shape : list Z) : bool :=
  forallb fits_int64 shape && forallb (fun d => 0 <=? d) shape
  && (numel shape <=? 2 ^ 16).

Lemma always_fits_can_allocate shape :
  always_fits shape = true -> can_allocate shape = true.
Proof.
  unfold always_fits, can_allocate. intros H.
  apply andb_prop in H as [_ ->]. reflexivity.
Qed.

Lemma check_size_always_fits shape s :
  always_fits shape = true -> check_size shape s = (Ok tt, s).
Proof.
  intros H. apply check_size_Ok; [| | apply always_fits_can_allocate; exact H];
    unfold always_fits in H; apply andb_prop in H as [H _];
    apply andb_prop in H as [H1 H2]; assumption.
Qed.

Lemma nn_Conv2d_total cin cout k p :
  always_fits [cout; cin; k.1; k.2] = true ->
  ctor_total (nn_Conv2d cin cout k p).
Proof.
  intros H s. unfold nn_Conv2d.
  rewrite (bind_step _ _ _ _ _ (check_size_always_fits _ s H)).
  destruct (numel _ =? 0); eexists _, _; reflexivity.
Qed.

Lemma nn_BatchNorm2d_total c :
  always_fits [c] = true -> ctor_total (nn_BatchNorm2d c).
Proof.
  intros H s. unfold nn_BatchNorm2d.
  rewrite (bind_step _ _ _ _ _ (check_size_always_fits _ s H)).
  eexists _, _. reflexivity.
Qed.

Lemma nn_GroupNorm_total g c :
  always_fits [c] = true -> c mod g = 0 -> ctor_total (nn_GroupNorm g c).
Proof.
  intros H Hm s. unfold nn_GroupNorm.
  apply Z.eqb_eq in Hm. rewrite Hm. cbn [negb].
  rewrite (bind_step _ _ _ _ _ (check_size_always_fits _ s H)).
  eexists _, _. reflexivity.
Qed.

(** On a member of the enumeration [normalizer] returns whenever the
    library accepts the channel count: one the tensors can have, and for
    [GROUP] a multiple of [NUM_GROUPS]. *)
Lemma normalizer_total nm c :
  always_fits [c] = true -> (nm = GROUP -> c mod NUM_GROUPS = 0) ->
  ctor_total (normalizer (VMethod nm) c).
Proof.
  intros Hc Hg s. rewrite normalizer_enum. destruct nm.
  - apply nn_BatchNorm2d_total; exact Hc.
  - apply nn_GroupNorm_total; [exact Hc | apply Z.mod_1_r].
  - apply nn_GroupNorm_total; auto.
Qed.

Lemma build_all_total cs : Forall ctor_total cs -> ctor_total (build_all cs).
Proof.
  induction 1 as [| c cs Hc _ IH]; simpl.
  - apply ret_total.
  - apply bind_total; [exact Hc |]. intros m.
    apply bind_total; [exact IH |]. intros ms. apply ret_total.
Qed.

Lemma ConvLayer_init_total cin cout p nm :
  always_fits [cout; cin; 3; 3] = true -> always_fits [cout] = true ->
  (nm = GROUP -> cout mod NUM_GROUPS = 0) ->
  ctor_total (ConvLayer_init cin cout p (VMethod nm)).
Proof.
  intros H1 H2 H3. unfold ConvLayer_init.
  apply bind_total; [apply nn_Conv2d_total; exact H1 |]. intros conv.
  apply bind_total; [apply normalizer_total; assumption |].
  intros norm. repeat (apply bind_total; [apply ret_total |]; intros ?).
  apply ret_total.
Qed.

Lemma TransBlock_init_total cin cout :
  always_fits [cout; cin; 1; 1] = true -> ctor_total (TransBlock_init cin cout).
Proof.
  intros H1. unfold TransBlock_init.
  apply bind_total; [apply nn_Conv2d_total; exact H1 |]. intros conv.
  repeat (apply bind_total; [apply ret_total |]; intros ?).
  apply ret_total.
Qed.

Lemma conv_relu_bn_total cin cout k p :
  always_fits [cout; cin; k.1; k.2] = true -> always_fits [cout] = true ->
  ctor_total (conv_relu_bn cin cout k p).
Proof.
  intros H1 H2. unfold conv_relu_bn.
  apply bind_total; [apply nn_Conv2d_total; assumption |]. intros conv.
  apply bind_total; [apply ret_total |]. intros relu.
  apply bind_total; [apply nn_BatchNorm2d_total; assumption |]. intros bn.
  apply ret_total.
Qed.

Lemma conv_only_total cin cout k p :
  always_fits [cout; cin; k.1; k.2] = true ->
  ctor_total (conv_only cin cout k p).
Proof.
  intros H1. unfold conv_only.
  apply bind_total; [apply nn_Conv2d_total; assumption |]. intros conv.
  apply ret_total.
Qed.

Ltac total_steps :=
  repeat lazymatch goal with
    | |- ctor_total (bind _ _) => apply bind_total; [| intros ?]
    | |- ctor_total (ret _) => apply ret_total
    | |- ctor_total (ConvLayer_init _ _ _ _) =>
        apply ConvLayer_init_total; [reflexivity | reflexivity | reflexivity]
    | |- ctor_total (TransBlock_init _ _) =>
        apply TransBlock_init_total; reflexivity
    | |- ctor_total (conv_relu_bn _ _ _ _) =>
        apply conv_relu_bn_total; reflexivity
    | |- ctor_total (conv_only _ _ _ _) => apply conv_only_total; reflexivity
    | |- ctor_total (nn_Conv2d _ _ _ _) => apply nn_Conv2d_total; reflexivity
    | |- ctor_total (nn_Sequential _) => apply ret_total
    | |- ctor_total (nn_MaxPool2d _ _) => apply ret_total
    | |- ctor_total (nn_AdaptiveAvgPool2d _) => apply ret_total
    end.

Lemma Model_init_total nm : ctor_total (Model.init (VMethod nm)).
Proof. unfold Model.init. total_steps. Qed.

Lemma Session_7_Model_2_init_total : ctor_total Session_7_Model_2.init.
Proof. unfold Session_7_Model_2.init. total_steps. Qed.

Lemma Session_7_Model_3_init_total : ctor_total Session_7_Model_3.init.
Proof. unfold Session_7_Model_3.init. total_steps. Qed.

End Totality.

(* ===================================================================== *)
(** * Constructing an instance                                             *)
(* ===================================================================== *)

(** The architecture of an instance of each class that can be built. *)
Definition variant_arch (v : variant) : list nn_module :=
  match v with
  | VModel nm => Model_arch nm
  | VSession_7_Model_2 | VSession_7_Model_3 => Session_7_arch
  | Vsession_6_Model | VSession_7_Model_1 => []
  end.

Definition instance_of (v : variant) (i : instance) : Prop :=
  match v, i with
  | VModel _, IModel _
  | Vsession_6_Model, Isession_6_Model _
  | VSession_7_Model_1, ISession_7_Model_1 _
  | VSession_7_Model_2, ISession_7_Model_2 _
  | VSession_7_Model_3, ISession_7_Model_3 _ => True
  | _, _ => False
  end.

(** What [construct] leaves behind.  The two classes that read
    [dropout_value] stop with the [NameError] of their first block; the
    other three return an instance whose attributes were freshly built. *)
Definition construct_post (v : variant) (s : state) (r : result instance)
    (s' : state) : Prop :=
  extends s s' /\
  match r with
  | Ok i =>
      instance_of v i
      /\ map arch (children i) = variant_arch v
      /\ Forall (fun m => built s m s') (children i)
      /\ NoDup (instance_locs i)
  | Raise e =>
      (v = Vsession_6_Model /\ e = mkExn NameError (ThisFile 158) "dropout_value")
      \/ (v = VSession_7_Model_1 /\ e = mkExn NameError (ThisFile 246) "dropout_value")
  end.

Lemma construct_post_holds `{K : Kernels} v s r s' :
  construct v s = (r, s') -> construct_post v s r s'.
Proof.
  destruct v as [nm | | | |]; unfold construct; intros H.
  - destruct (Model_init_total nm s) as (self & s1 & Hi).
    rewrite (bind_step _ _ _ _ _ Hi) in H. inversion H; subst.
    apply Model_init_post in Hi as (E & A & B & N). repeat split; assumption.
  - destruct (session_6_Model_init_NameError s) as (s1 & Hi & E).
    rewrite (bind_fail _ _ _ _ _ Hi) in H. inversion H; subst.
    split; [exact E |]. left. split; reflexivity.
  - destruct (Session_7_Model_1_init_NameError s) as (s1 & Hi & E).
    rewrite (bind_fail _ _ _ _ _ Hi) in H. inversion H; subst.
    split; [exact E |]. right. split; reflexivity.
  - destruct (Session_7_Model_2_init_total s) as (self & s1 & Hi).
    rewrite (bind_step _ _ _ _ _ Hi) in H. inversion H; subst.
    apply Session_7_Model_2_init_post in Hi as (E & A & B & N). repeat split; assumption.
  - destruct (Session_7_Model_3_init_total s) as (self & s1 & Hi).
    rewrite (bind_step _ _ _ _ _ Hi) in H. inversion H; subst.
    apply Session_7_Model_3_init_post in Hi as (E & A & B & N). repeat split; assumption.
Qed.

(** The parameters of a built module keep the default element type in
    every store of the same layout. *)
Lemma built_params_dtype s0 m s1 s :
  built s0 m s1 -> same_meta s1 s -> params_dtype s m Float32.
Proof.
  intros [_ Hd] M. eapply params_dtype_same_meta; eauto.
Qed.

Lemma params_dtype_Sequential s ms d :
  Forall (fun m => params_dtype s m d) ms -> params_dtype s (Sequential ms) d.
Proof.
  unfold params_dtype. induction 1 as [| m ms Hm _ IH]; simpl.
  - constructor.
  - apply Forall_app. auto.
Qed.

Lemma Forall_In_impl {A} (P Q : A -> Prop) l :
  Forall P l -> (forall x, In x l -> P x -> Q x) -> Forall Q l.
Proof.
  intros H HPQ. rewrite Forall_forall in *. intros x Hx.
  apply HPQ; [apply list_elem_of_In; exact Hx | apply H; exact Hx].
Qed.

Lemma constructed_params_dtype `{K : Kernels} v s0 i s1 s :
  construct v s0 = (Ok i, s1) -> same_meta s1 s ->
  params_dtype s (Sequential (forward_path i)) Float32.
Proof.
  intros Hc M. apply construct_post_holds in Hc as (_ & _ & _ & B & _).
  apply params_dtype_Sequential.
  assert (Hall : Forall (fun m => params_dtype s m Float32) (children i)).
  { eapply Forall_impl; [exact B |]. intros m Hm. simpl in Hm.
    apply (built_params_dtype s0 m s1 s Hm M). }
  rewrite Forall_forall in *. intros m Hm. apply Hall.
  apply list_elem_of_In, forward_path_children, list_elem_of_In. exact Hm.
Qed.

(** An instance that a constructor returned calls every block it owns. *)
Lemma constructed_forward_path `{K : Kernels} v s0 i s1 :
  construct v s0 = (Ok i, s1) -> forward_path i = children i.
Proof.
  intros Hc. apply construct_post_holds in Hc as (_ & Hof & A & _).
  destruct v as [nm | | | |]; destruct i as [self | self | self | self | self];
    try contradiction; try reflexivity; destruct self; discriminate A.
Qed.

(* ===================================================================== *)
(** * Concrete instances and inputs                                        *)
(* ===================================================================== *)

Definition fallback_instance : instance :=
  IModel (Model.mk ReLU ReLU ReLU ReLU ReLU ReLU ReLU ReLU).

Definition built_instance (v : variant) : instance :=
  match (@construct zero_kernels v state0).1 with
  | Ok i => i
  | Raise _ => fallback_instance
  end.

Definition built_state (v : variant) : state :=
  (@construct zero_kernels v state0).2.

(** [Model()] with batch normalisation, in the empty store. *)
Definition Model_0 : instance := Eval vm_compute in built_instance (VModel BATCH).
Definition state_Model_0 : state := Eval vm_compute in built_state (VModel BATCH).

(** [Session_7_Model_2()] and [Session_7_Model_3()], each in the empty
    store. *)
Definition S7M2_0 : instance := Eval vm_compute in built_instance VSession_7_Model_2.
Definition state_S7M2_0 : state := Eval vm_compute in built_state VSession_7_Model_2.
Definition S7M3_0 : instance := Eval vm_compute in built_instance VSession_7_Model_3.
Definition state_S7M3_0 : state := Eval vm_compute in built_state VSession_7_Model_3.

Lemma construct_Model_0 :
  @construct zero_kernels (VModel BATCH) state0 = (Ok Model_0, state_Model_0).
Proof. vm_compute. reflexivity. Qed.

Lemma construct_S7M2_0 :
  @construct zero_kernels VSession_7_Model_2 state0 = (Ok S7M2_0, state_S7M2_0).
Proof. vm_compute. reflexivity. Qed.

Lemma construct_S7M3_0 :
  @construct zero_kernels VSession_7_Model_3 state0 = (Ok S7M3_0, state_S7M3_0).
Proof. vm_compute. reflexivity. Qed.

(** An image batch with every pixel equal to [v]. *)
Definition constant_image (shape : list Z) (v : R) : Tensor :=
  mkTensor shape Float32 (fun _ => v).

(** The tensor a run returned. *)
Definition output_of (r : result Tensor * state) : Tensor :=
  match r.1 with Ok y => y | Raise _ => empty_tensor end.

(* ===================================================================== *)
(** * The claims                                                           *)
(* ===================================================================== *)

(** ** C8 *)

(** C8.  Constructing [session_6_Model()] or [Session_7_Model_1()] raises
    a [NameError] from every state: their first block evaluates the name
    [dropout_value] (lines 158 and 246), which the module namespace does not
    bind.  [Model(norm_method)] for every member of the enumeration,
    [Session_7_Model_2()] and [Session_7_Model_3()] return an instance from
    every state. *)
Theorem construction_NameError_or_instance `{K : Kernels} (s : state) :
  lookup_name "dropout_value" module_globals = None
  /\ (exists s', session_6_Model.init s
                 = (Raise (mkExn NameError (ThisFile 158) "dropout_value"), s'))
  /\ (exists s', Session_7_Model_1.init s
                 = (Raise (mkExn NameError (ThisFile 246) "dropout_value"), s'))
  /\ (forall nm, exists self s', Model.init (VMethod nm) s = (Ok self, s'))
  /\ (exists self s', Session_7_Model_2.init s = (Ok self, s'))
  /\ (exists self s', Session_7_Model_3.init s = (Ok self, s')).
Proof.
  split; [reflexivity |].
  split.
  { destruct (session_6_Model_init_NameError s) as (s' & H & _). eauto. }
  split.
  { destruct (Session_7_Model_1_init_NameError s) as (s' & H & _). eauto. }
  split; [intros nm; apply Model_init_total |].
  split; [apply Session_7_Model_2_init_total | apply Session_7_Model_3_init_total].
Qed.

(** ** C1 *)

(** Every exception of a [forward], of any instance, is the library's. *)
Lemma forward_raises_only_library `{K : Kernels} i training x s e s' :
  forward i training x s = (Raise e, s') -> exn_origin e = Library.
Proof.
  intros H. apply forward_post_holds in H as (_ & _ & O & _). exact O.
Qed.

(** Outside the enumeration the first [ConvLayer] of [Model] stops at the
    [raise] of [normalizer]. *)
Lemma ConvLayer_init_not_a_method `{K : Kernels} cin cout p v s :
  (forall nm, v <> VMethod nm) ->
  always_fits [cout; cin; 3; 3] = true ->
  exists s',
    ConvLayer_init cin cout p v s
    = (Raise (mkExn ValueError (ThisFile 27) "Invalid NormalizationMethod"), s').
Proof.
  intros Hv H1.
  destruct (nn_Conv2d_total cin cout (3, 3) p H1 s) as (conv & s1 & Hconv).
  exists s1. unfold ConvLayer_init. rewrite (bind_step _ _ _ _ _ Hconv).
  apply bind_fail.
  destruct v as [z | q | nm | | name]; try reflexivity.
  exfalso. apply (Hv nm). reflexivity.
Qed.

Lemma Model_init_not_a_method `{K : Kernels} v s :
  (forall nm, v <> VMethod nm) ->
  exists s',
    Model.init v s
    = (Raise (mkExn ValueError (ThisFile 27) "Invalid NormalizationMethod"), s').
Proof.
  intros Hv.
  destruct (ConvLayer_init_not_a_method 3 16 1 v s Hv eq_refl) as (s' & H).
  exists s'. unfold Model.init. apply bind_fail. apply bind_fail. exact H.
Qed.

(** C1 as stated fails: [Model(norm_method=None)] fails with the
    [ValueError] that line 27 of model.py raises, not with an exception of
    the library. *)
Lemma Model_None_raises_own_ValueError :
  exists e s',
    @Model.init zero_kernels VNone state0 = (Raise e, s')
    /\ exn_cls e = ValueError
    /\ exn_origin e = ThisFile 27
    /\ exn_origin e <> Library.
Proof.
  destruct (@Model_init_not_a_method zero_kernels VNone state0) as (s' & H);
    [discriminate |].
  eexists _, s'. split; [exact H |]. repeat split. discriminate.
Qed.

(** C1, amended.  Every exception of a [forward], of any instance on any
    input, is the library's.  [Model(norm_method)] with a member of the
    enumeration, [Session_7_Model_2()] and [Session_7_Model_3()] return from
    every state, so they raise nothing.  The file raises one exception by a
    statement of its own, the [ValueError] of line 27, and [normalizer]
    reaches it exactly when the method is no member of the enumeration: for
    every such value it raises that exception, and for a member whatever
    it raises is the library's.  [Model(norm_method)] fails for every value
    outside the enumeration, with that exception, and for no other value.
    (Nothing is said here of [session_6_Model()] and
    [Session_7_Model_1()].) *)
Theorem failures_library_or_own_ValueError `{K : Kernels} :
  (forall i training x s e s',
      forward i training x s = (Raise e, s') -> exn_origin e = Library)
  /\ (forall v c s,
         (forall nm, v <> VMethod nm) ->
         normalizer v c s
         = (Raise (mkExn ValueError (ThisFile 27) "Invalid NormalizationMethod"), s))
  /\ (forall nm c s e s',
         normalizer (VMethod nm) c s = (Raise e, s') -> exn_origin e = Library)
  /\ (forall v s,
         (forall nm, v <> VMethod nm) ->
         exists s',
           Model.init v s
           = (Raise (mkExn ValueError (ThisFile 27) "Invalid NormalizationMethod"),
              s'))
  /\ (forall nm s, exists self s', Model.init (VMethod nm) s = (Ok self, s'))
  /\ (forall s, exists self s', Session_7_Model_2.init s = (Ok self, s'))
  /\ (forall s, exists self s', Session_7_Model_3.init s = (Ok self, s')).
Proof.
  split; [intros i training x s e s'; apply forward_raises_only_library |].
  split.
  { intros v c s Hv. destruct v as [z | q | nm | | name]; try reflexivity.
    exfalso. apply (Hv nm). reflexivity. }
  split.
  { intros nm c s e s' H. apply normalizer_post in H as [_ H]. exact H. }
  split; [intros v s Hv; apply Model_init_not_a_method; exact Hv |].
  split; [intros nm; apply Model_init_total |].
  split; [apply Session_7_Model_2_init_total | apply Session_7_Model_3_init_total].
Qed.

(** A 7x8 image is too small for the third max-pool of [Model]. *)
Definition failed_forward : result Tensor * state :=
  Eval vm_compute in
    @forward zero_kernels Model_0 true (constant_image [1; 3; 7; 8] 0) state_Model_0.

Definition failed_forward_exn : exn :=
  Eval vm_compute in
    match failed_forward.1 with Raise e => e | Ok _ => mkExn TypeError Library "" end.

Lemma failures_library_or_own_ValueError_witness :
  exn_origin failed_forward_exn = Library.
Proof.
  apply (proj1 (@failures_library_or_own_ValueError zero_kernels)
           Model_0 true (constant_image [1; 3; 7; 8] 0) state_Model_0
           failed_forward_exn failed_forward.2).
  vm_compute. reflexivity.
Defined.

(** ** C7 *)

(** A value that is no member of the enumeration reaches the [raise] of
    line 27. *)
Lemma normalizer_not_a_method `{K : Kernels} c s :
  normalizer VNone c s
  = (Raise (mkExn ValueError (ThisFile 27) "Invalid NormalizationMethod"), s).
Proof. reflexivity. Qed.

(** C7 as stated fails: [normalizer(NormalizationMethod.GROUP, 12)] raises,
    because the library's [GroupNorm(8, 12)] rejects a channel count that 8
    does not divide; the [ValueError] is the library's. *)
Lemma normalizer_GROUP_12_raises :
  exists e,
    @normalizer zero_kernels (VMethod GROUP) 12 state0 = (Raise e, state0)
    /\ exn_cls e = ValueError
    /\ exn_origin e = Library.
Proof. eexists. split; [reflexivity |]. split; reflexivity. Qed.

(** A channel count the library cannot take: at [2 ** 63] the extent is no
    64-bit integer, at [2 ** 62] no tensor of that many entries can be
    stored. *)
Lemma normalizer_too_many_channels `{K : Kernels} nm s :
  (exists e, normalizer (VMethod nm) (2 ^ 63) s = (Raise e, s)
             /\ exn_cls e = TypeError /\ exn_origin e = Library)
  /\ (exists e, normalizer (VMethod nm) (2 ^ 62) s = (Raise e, s)
                /\ exn_cls e = RuntimeError /\ exn_origin e = Library).
Proof.
  split;
    [exists (mkExn TypeError Library "") | exists (mkExn RuntimeError Library "")];
    (split; [rewrite normalizer_enum; destruct nm; reflexivity
            | split; reflexivity]).
Qed.

(** One extent that is not negative and can be stored passes the check of
    the constructors. *)
Lemma check_size_channels `{K : Kernels} c s :
  0 <= c -> can_allocate [c] = true -> check_size [c] s = (Ok tt, s).
Proof.
  intros Hc Ha. apply check_size_Ok; [| | exact Ha].
  - unfold can_allocate, numel in Ha. simpl in Ha. rewrite Z.mul_1_r in Ha.
    simpl. unfold fits_int64. rewrite andb_true_r.
    apply andb_true_intro. split; [apply Z.leb_le; lia |].
    apply Z.ltb_lt. apply orb_prop in Ha as [Ha | Ha].
    + apply Z.leb_le in Ha. lia.
    + apply andb_prop in Ha as [Ha _]. apply Z.ltb_lt in Ha. lia.
  - simpl. rewrite andb_true_r. apply Z.leb_le. exact Hc.
Qed.

(** C7, amended.  On every member of the enumeration and every
    [out_channels], [normalizer] is the constructor call of the matching
    branch ([BatchNorm2d(out_channels)], [GroupNorm(1, out_channels)],
    [GroupNorm(NUM_GROUPS = 8, out_channels)]); it never reaches its own
    [raise ValueError], so whatever it raises is the library's; and it
    returns that module whenever the library accepts the channel count:
    [out_channels >= 0], a tensor of [out_channels] entries can be stored,
    and for [GROUP] [out_channels] is a multiple of 8. *)
Theorem normalizer_on_enumeration `{K : Kernels}
    (nm : NormalizationMethod) (out_channels : Z) (s : state) :
  normalizer (VMethod nm) out_channels s
  = match nm with
    | BATCH => nn_BatchNorm2d out_channels s
    | LAYER => nn_GroupNorm 1 out_channels s
    | GROUP => nn_GroupNorm 8 out_channels s
    end
  /\ (forall e s', normalizer (VMethod nm) out_channels s = (Raise e, s') ->
                   exn_origin e = Library)
  /\ (0 <= out_channels -> can_allocate [out_channels] = true ->
      (nm = GROUP -> out_channels mod 8 = 0) ->
      exists m s',
        normalizer (VMethod nm) out_channels s = (Ok m, s')
        /\ arch m = match nm with
                    | BATCH => BatchNorm2d out_channels O O O O O
                    | LAYER => GroupNorm 1 out_channels O O
                    | GROUP => GroupNorm 8 out_channels O O
                    end).
Proof.
  split; [apply normalizer_enum |].
  split.
  - intros e s' H. apply normalizer_post in H as [_ H]. exact H.
  - intros Hc Ha Hg.
    assert (H : exists m s', normalizer (VMethod nm) out_channels s = (Ok m, s')).
    { rewrite normalizer_enum.
      pose proof (check_size_channels out_channels s Hc Ha) as Hs.
      destruct nm; unfold nn_BatchNorm2d, nn_GroupNorm.
      - rewrite (bind_step _ _ _ _ _ Hs). eexists _, _. reflexivity.
      - rewrite Z.mod_1_r. cbn [Z.eqb negb].
        rewrite (bind_step _ _ _ _ _ Hs). eexists _, _. reflexivity.
      - unfold NUM_GROUPS. rewrite (Hg eq_refl). cbn [Z.eqb negb].
        rewrite (bind_step _ _ _ _ _ Hs). eexists _, _. reflexivity. }
    destruct H as (m & s' & H). exists m, s'. split; [exact H |].
    apply normalizer_post in H as (_ & A & _). destruct nm; exact A.
Qed.

Lemma normalizer_on_enumeration_witness :
  exists m s',
    @normalizer zero_kernels (VMethod GROUP) 16 state0 = (Ok m, s')
    /\ arch m = GroupNorm 8 16 O O.
Proof.
  apply (proj2 (proj2 (@normalizer_on_enumeration zero_kernels GROUP 16 state0)));
    [lia | reflexivity | reflexivity].
Defined.

(** ** C4 *)

Lemma arch_Model_arch nm : map arch (Model_arch nm) = Model_arch nm.
Proof. destruct nm; reflexivity. Qed.

Lemma view_columns n : infer_size [-1; 10] (numel [n; 10; 1; 1]) = Some [n; 10].
Proof.
  rewrite infer_size_view. replace (numel [n; 10; 1; 1]) with (n * 10).
  - rewrite Z.mod_mul, Z.div_mul by lia. reflexivity.
  - unfold numel. simpl. lia.
Qed.

Lemma construct_Model `{K : Kernels} nm s0 self s1 :
  Model.init (VMethod nm) s0 = (Ok self, s1) ->
  construct (VModel nm) s0 = (Ok (IModel self), s1).
Proof. intros H. unfold construct. rewrite (bind_step _ _ _ _ _ H). reflexivity. Qed.

Definition Model_0_self : Model.t :=
  Eval vm_compute in
    match Model_0 with
    | IModel self => self
    | _ => Model.mk ReLU ReLU ReLU ReLU ReLU ReLU ReLU ReLU
    end.

(** C4 as stated fails: it speaks of every input tensor of the shape, and
    on a float64 tensor of shape [(1, 3, 8, 8)] [Model.forward] raises, in
    either mode: the first convolution finds an input of another element
    type than its float32 weight. *)
Lemma Model_forward_float64_raises :
  let x := mkTensor [1; 3; 8; 8] Float64 (fun _ => 0%R) in
  @Model.init zero_kernels (VMethod BATCH) state0 = (Ok Model_0_self, state_Model_0)
  /\ t_shape x = [1; 3; 8; 8]
  /\ forall training,
       exists e s',
         @Model.forward zero_kernels Model_0_self training x state_Model_0
         = (Raise e, s')
         /\ exn_cls e = RuntimeError /\ exn_origin e = Library.
Proof.
  cbv zeta. split; [vm_compute; reflexivity |]. split; [reflexivity |].
  intros training. eexists _, _.
  split; [destruct training; vm_compute; reflexivity |].
  split; reflexivity.
Qed.

(** C4, amended.  Take an instance [Model(norm_method)], any store with the
    layout the constructor left (the one it left, or one reached from it by
    calls and by updates of parameter values), and a float32 input of shape
    [(n, 3, h, w)] with [n >= 1], [h >= 8], [w >= 8].  Then the shape rules
    accept the input of every block: the convolution blocks keep the
    spatial size, each [TransBlock] halves it, the three halvings stay at
    least 1, and the shape of the result is [(n, 10)].  The float32 input
    (the element type of the parameters) makes [forward] return a tensor of
    that shape, in training and in evaluation mode.  (The shape rules and
    the shape of a result are the same for an input of another element
    type; a call that raises had such an input.) *)
Theorem Model_forward_shape_safe `{K : Kernels}
    nm s0 self s1 s training x n h w :
  Model.init (VMethod nm) s0 = (Ok self, s1) ->
  same_meta s1 s ->
  t_shape x = [n; 3; h; w] ->
  1 <= n -> 8 <= h -> 8 <= w ->
  scan_shapes (Model.children self) training [n; 3; h; w] =
    [ Some [n; 32; h; w];
      Some [n; 16; h / 2; w / 2];
      Some [n; 32; h / 2; w / 2];
      Some [n; 16; h / 2 / 2; w / 2 / 2];
      Some [n; 32; h / 2 / 2; w / 2 / 2];
      Some [n; 16; h / 2 / 2 / 2; w / 2 / 2 / 2];
      Some [n; 16; 1; 1];
      Some [n; 10; 1; 1] ]
  /\ 1 <= h / 2 / 2 / 2 /\ 1 <= w / 2 / 2 / 2
  /\ forward_shape (IModel self) training [n; 3; h; w] = Some [n; 10]
  /\ (forall y s', Model.forward self training x s = (Ok y, s') ->
                   t_shape y = [n; 10])
  /\ (forall e s', Model.forward self training x s = (Raise e, s') ->
                   t_dtype x <> Float32)
  /\ (t_dtype x = Float32 ->
      exists y s',
        Model.forward self training x s = (Ok y, s') /\ t_shape y = [n; 10]).
Proof.
  intros Hinit Hmeta Hshape Hn Hh Hw.
  pose proof (construct_Model _ _ _ _ Hinit) as Hc.
  apply Model_init_post in Hinit as (_ & A & _). cbn [fmap_result] in A.
  assert (Hfs : forward_shape (IModel self) training [n; 3; h; w] = Some [n; 10]).
  { unfold forward_shape.
    change (forward_path (IModel self)) with (Model.children self).
    rewrite (out_shape_Sequential_arch training _ (Model_arch nm))
      by (rewrite arch_Model_arch; exact A).
    rewrite Model_shape by assumption. apply view_columns. }
  assert (Hok : t_dtype x = Float32 ->
                exists y s',
                  Model.forward self training x s = (Ok y, s') /\ t_shape y = [n; 10]).
  { intros Hdtype. apply (forward_succeeds (IModel self) training x s [n; 10]).
    - rewrite Hshape. exact Hfs.
    - rewrite Hdtype. eapply constructed_params_dtype; eauto.
    - rewrite Hdtype. reflexivity. }
  split.
  { rewrite (scan_shapes_arch training _ (Model_arch nm)).
    - apply Model_scan_shapes; assumption.
    - rewrite arch_Model_arch. exact A. }
  split; [zlia |]. split; [zlia |]. split; [exact Hfs |].
  split; [| split; [| exact Hok]].
  - intros y s' H.
    apply (forward_post_holds (IModel self)) in H as (_ & _ & S & _).
    rewrite Hshape, Hfs in S. injection S as S. symmetry. exact S.
  - intros e s' H Hdtype. destruct (Hok Hdtype) as (y & s2 & H2 & _).
    rewrite H2 in H. discriminate H.
Qed.

Lemma Model_forward_shape_safe_witness :
  exists y s',
    @Model.forward zero_kernels Model_0_self true
      (constant_image [1; 3; 8; 8] 0) state_Model_0 = (Ok y, s')
    /\ t_shape y = [1; 10].
Proof.
  apply (@Model_forward_shape_safe zero_kernels BATCH state0 Model_0_self
           state_Model_0 state_Model_0 true (constant_image [1; 3; 8; 8] 0) 1 8 8).
  - vm_compute. reflexivity.
  - apply same_meta_refl.
  - reflexivity.
  - lia.
  - lia.
  - lia.
  - reflexivity.
Defined.

(** ** C5 *)

(** C5.  For every instance of every variant: two inputs of the same shape
    and element type on which [forward] succeeds (whatever their values,
    the states of the two calls and the training flags) give outputs of the
    same shape and the same element type. *)
Theorem forward_shape_dtype_from_input_shape_dtype `{K : Kernels}
    i tr1 tr2 x1 x2 s1 s2 y1 y2 s1' s2' :
  forward i tr1 x1 s1 = (Ok y1, s1') ->
  forward i tr2 x2 s2 = (Ok y2, s2') ->
  t_shape x1 = t_shape x2 -> t_dtype x1 = t_dtype x2 ->
  t_shape y1 = t_shape y2 /\ t_dtype y1 = t_dtype y2.
Proof.
  intros H1 H2 Hs Hd.
  apply forward_post_holds in H1 as (_ & _ & S1 & D1 & _).
  apply forward_post_holds in H2 as (_ & _ & S2 & D2 & _).
  rewrite Hs in S1. split.
  - eapply forward_shape_det; eassumption.
  - congruence.
Qed.

Definition run_zeros : result Tensor * state :=
  Eval vm_compute in
    @forward zero_kernels S7M3_0 true (constant_image [2; 1; 28; 28] 0) state_S7M3_0.

Definition run_ones : result Tensor * state :=
  Eval vm_compute in
    @forward zero_kernels S7M3_0 false (constant_image [2; 1; 28; 28] 1) run_zeros.2.

Lemma forward_shape_dtype_from_input_shape_dtype_witness :
  t_shape (output_of run_zeros) = t_shape (output_of run_ones)
  /\ t_dtype (output_of run_zeros) = t_dtype (output_of run_ones).
Proof.
  apply (@forward_shape_dtype_from_input_shape_dtype zero_kernels S7M3_0 true false
           (constant_image [2; 1; 28; 28] 0) (constant_image [2; 1; 28; 28] 1)
           state_S7M3_0 run_zeros.2 _ _ run_zeros.2 run_ones.2).
  - vm_compute. reflexivity.
  - vm_compute. reflexivity.
  - reflexivity.
  - reflexivity.
Defined.

(** ** Shapes of results, read off a successful call *)

Lemma conv2d_shape_inv cin cout k p n c h w s' :
  conv2d_shape cin cout k p [n; c; h; w] = Some s' ->
  c = cin /\ 0 < cout
  /\ s' = [n; if cin =? 0 then 0 else cout;
           h + 2 * p - k.1 + 1; w + 2 * p - k.2 + 1].
Proof.
  unfold conv2d_shape. destruct (_ && _) eqn:E; [| discriminate]. intros [= <-].
  repeat (apply andb_prop in E as [E ?]).
  assert (c = cin) as -> by (apply Z.eqb_eq; assumption).
  split; [reflexivity |]. split; [apply Z.ltb_lt; assumption | reflexivity].
Qed.

(** A convolution with input channels gives its output channels. *)
Lemma conv2d_shape_channels cin cout k p n c h w s' :
  cin <> 0 ->
  conv2d_shape cin cout k p [n; c; h; w] = Some s' ->
  s' = [n; cout; h + 2 * p - k.1 + 1; w + 2 * p - k.2 + 1].
Proof.
  intros Hi H. apply conv2d_shape_inv in H as (_ & _ & ->).
  apply Z.eqb_neq in Hi. rewrite Hi. reflexivity.
Qed.

Lemma pool2d_shape_inv k st n c h w s' :
  pool2d_shape k st [n; c; h; w] = Some s' ->
  s' = [n; c; (h - k) / st + 1; (w - k) / st + 1].
Proof.
  unfold pool2d_shape. destruct (_ && _); [| discriminate]. intros [= <-]. reflexivity.
Qed.

Lemma adaptive_pool2d_shape_inv o n c h w s' :
  adaptive_pool2d_shape o [n; c; h; w] = Some s' -> s' = [n; c; o; o].
Proof.
  unfold adaptive_pool2d_shape. destruct (_ && _); [| discriminate].
  intros [= <-]. reflexivity.
Qed.

(** Every layer of the file maps a batch of [n] images to a batch of [n]
    images. *)
Lemma out_shape_4d training m :
  forall n c h w s',
    out_shape m training [n; c; h; w] = Some s' ->
    exists c' h' w', s' = [n; c'; h'; w'].
Proof.
  induction m as [cin cout k p wt | cf wt b rm rv nbt | g cf wt b | | p | k st | k
                  | o | ms IH | l IH | l IH] using nn_module_tree_ind;
    intros n c h w s' H; simpl in H; try (eapply IH; eassumption).
  - apply conv2d_shape_inv in H as (_ & _ & ->). eauto.
  - apply batch_norm2d_shape_Some in H as [-> _]. eauto.
  - apply group_norm_shape_Some in H as [-> _]. eauto.
  - injection H as <-. eauto.
  - injection H as <-. eauto.
  - apply pool2d_shape_inv in H as ->. eauto.
  - apply pool2d_shape_inv in H as ->. eauto.
  - apply adaptive_pool2d_shape_inv in H as ->. eauto.
  - revert c h w H. induction IH as [| m ms Hm _ IH]; intros c h w H; simpl in H.
    + injection H as <-. eauto.
    + destruct (out_shape m training [n; c; h; w]) as [s1 |] eqn:E1; [| discriminate].
      apply Hm in E1 as (c1 & h1 & w1 & ->). eapply IH; eassumption.
Qed.

Lemma out_shape_app training ms1 ms2 s :
  out_shape (Sequential (ms1 ++ ms2)) training s =
  match out_shape (Sequential ms1) training s with
  | Some s' => out_shape (Sequential ms2) training s'
  | None => None
  end.
Proof.
  revert s. induction ms1 as [| m ms1 IH]; intros s; [reflexivity |].
  change ((m :: ms1) ++ ms2) with (m :: (ms1 ++ ms2)).
  rewrite !out_shape_cons. destruct (out_shape m training s); [apply IH | reflexivity].
Qed.

Tactic Notation "case_shape" ident(E) :=
  match goal with
  | |- match ?o with Some _ => _ | None => _ end = _ -> _ =>
      destruct o as [? |] eqn:E; [| discriminate]
  end.

(** [Model] ends in the global pooling and the 1x1 convolution to 10
    channels: whatever the image size, a result has one row per image. *)
Lemma Model_shape_inv nm training n c h w s' :
  out_shape (Sequential (Model_arch nm)) training [n; c; h; w] = Some s' ->
  s' = [n; 10; 1; 1].
Proof.
  unfold Model_arch.
  match goal with
  | |- out_shape (Sequential [?a; ?b; ?c0; ?d; ?e; ?f; ?g; ?o]) _ _ = _ -> _ =>
      change [a; b; c0; d; e; f; g; o] with ([a; b; c0; d; e; f] ++ [g; o])
  end.
  rewrite out_shape_app. case_shape E1.
  apply out_shape_4d in E1 as (c1 & h1 & w1 & ->).
  rewrite out_shape_cons. case_shape E2.
  apply adaptive_pool2d_shape_inv in E2 as ->.
  rewrite out_shape_cons. case_shape E3.
  apply conv2d_shape_channels in E3 as ->; [| lia]. intros [= <-]. reflexivity.
Qed.

Lemma conv_relu_bn_shape_inv cin cout k1 k2 training n c h w s' :
  cin <> 0 ->
  out_shape (conv_relu_bn_arch cin cout (k1, k2) 0) training [n; c; h; w] = Some s' ->
  s' = [n; cout; h - k1 + 1; w - k2 + 1].
Proof.
  intros Hi. unfold conv_relu_bn_arch. rewrite out_shape_cons. case_shape E1.
  apply conv2d_shape_channels in E1 as ->; [| exact Hi].
  rewrite out_shape_cons.
  change (out_shape ReLU training ?s) with (Some s). cbv beta iota.
  rewrite out_shape_cons. case_shape E2.
  apply batch_norm2d_shape_Some in E2 as [-> _].
  rewrite out_shape_nil. intros [= <-].
  simpl. repeat f_equal; lia.
Qed.

Lemma conv_only_shape_inv cin cout k1 k2 training n c h w s' :
  cin <> 0 ->
  out_shape (conv_only_arch cin cout (k1, k2) 0) training [n; c; h; w] = Some s' ->
  s' = [n; cout; h - k1 + 1; w - k2 + 1].
Proof.
  intros Hi. unfold conv_only_arch. rewrite out_shape_cons. case_shape E1.
  apply conv2d_shape_channels in E1 as ->; [| exact Hi]. intros [= <-].
  simpl. repeat f_equal; lia.
Qed.

(** The spatial size Session_7_Model_2 and _3 reach before [view]: two 3x3
    convolutions, the max-pool, five more 3x3 convolutions, and the 2x2
    convolution. *)
Definition Session_7_last (h : Z) : Z := (h - 4) / 2 - 11.

Lemma Session_7_shape_inv training n c h w s' :
  out_shape (Sequential Session_7_arch) training [n; c; h; w] = Some s' ->
  s' = [n; 10; Session_7_last h; Session_7_last w].
Proof.
  unfold Session_7_arch.
  repeat (rewrite out_shape_cons;
          let E := fresh "E" in
          case_shape E;
          first [ apply conv_relu_bn_shape_inv in E; [| lia]
                | apply conv_only_shape_inv in E; [| lia]
                | apply pool2d_shape_inv in E ];
          subst).
  rewrite out_shape_nil. intros [= <-]. unfold Session_7_last.
  repeat f_equal; zlia.
Qed.

Lemma view_rows n a b rows :
  infer_size [-1; 10] (numel [n; 10; a; b]) = Some [rows; 10] -> rows = n * a * b.
Proof.
  assert (E : numel [n; 10; a; b] = n * a * b * 10) by (unfold numel; simpl; lia).
  rewrite E, infer_size_view. destruct (_ =? _); [| discriminate].
  intros [= <-]. apply Z.div_mul. lia.
Qed.

(* ===================================================================== *)
(** * Log-probabilities                                                    *)
(* ===================================================================== *)

Definition sum_list (l : list R) : R := fold_right Rplus 0%R l.

(** Row [r] of a tensor with ten columns. *)
Definition row (t : Tensor) (r : Z) : list R :=
  map (fun k => t_at t [r; Z.of_nat k]) (seq 0 10).

Lemma normalize_dim_columns_inv dim d :
  dim = 1 \/ dim = -1 -> normalize_dim dim 2 = Some d -> d = 1%nat.
Proof. intros [-> | ->] [= <-]; reflexivity. Qed.

(** The rows of [log_softmax] of a tensor with ten columns. *)
Lemma log_softmax_rows `{K : Kernels} x dim s y s' rows :
  F_log_softmax x dim s = (Ok y, s') ->
  t_shape x = [rows; 10] -> dim = 1 \/ dim = -1 ->
  forall r,
    row y r = map (fun v => (v - ln (sum_list (map exp (row x r))))%R) (row x r).
Proof.
  intros H Hs Hdim r.
  apply F_log_softmax_inv in H as (_ & _ & _ & _ & _ & _ & d & Hd & Hat).
  rewrite Hs in Hd. simpl in Hd.
  apply (normalize_dim_columns_inv dim d Hdim) in Hd as ->.
  unfold row. rewrite Hat, Hs. reflexivity.
Qed.

(** ** C2 *)

Definition run_30x30 : result Tensor * state :=
  Eval vm_compute in
    @forward zero_kernels S7M2_0 true (constant_image [1; 1; 30; 30] 0) state_S7M2_0.

(** C2 as stated fails: on one 30x30 image (batch size 1)
    [Session_7_Model_2.forward] succeeds and returns a tensor of shape
    [(4, 10)], not [(1, 10)]: the last convolution leaves 2x2 positions and
    [view(-1, 10)] makes a row of each. *)
Lemma Session_7_Model_2_30x30_gives_4_rows :
  @forward zero_kernels S7M2_0 true (constant_image [1; 1; 30; 30] 0) state_S7M2_0
  = (Ok (output_of run_30x30), run_30x30.2)
  /\ t_shape (constant_image [1; 1; 30; 30] 0) = [1; 1; 30; 30]
  /\ t_shape (output_of run_30x30) = [4; 10]
  /\ t_shape (output_of run_30x30) <> [1; 10].
Proof.
  split; [vm_compute; reflexivity |].
  split; [reflexivity |]. split; [reflexivity | discriminate].
Qed.

(** C2, amended.  A result of [forward], of any instance on any input, is
    a tensor of class log-probabilities with ten columns: it is what
    [log_softmax] returns, taken along the ten columns, on a tensor of shape
    [(rows, 10)]; it has that shape and the element type of the input,
    which is a floating-point type.  For an input of shape [(n, c, h, w)]
    the number of rows is [n] for a constructed [Model], and
    [n * last h * last w] with [last h = (h - 4) / 2 - 11] for a
    constructed Session_7_Model_2 or Session_7_Model_3: [n] for 28x28
    images.  (The other two classes construct no instance.) *)
Theorem forward_returns_log_probabilities `{K : Kernels}
    i training x s y s' :
  forward i training x s = (Ok y, s') ->
  exists rows b sb,
    t_shape b = [rows; 10]
    /\ F_log_softmax b (softmax_dim i) sb = (Ok y, s')
    /\ normalize_dim (softmax_dim i) (length (t_shape b)) = Some 1%nat
    /\ t_shape y = [rows; 10]
    /\ t_dtype y = t_dtype x
    /\ is_floating (t_dtype y) = true
    /\ (forall v s0 s1 n c h w,
           construct v s0 = (Ok i, s1) -> t_shape x = [n; c; h; w] ->
           match v with
           | VModel _ => rows = n
           | VSession_7_Model_2 | VSession_7_Model_3 =>
               rows = n * Session_7_last h * Session_7_last w
               /\ (h = 28 -> w = 28 -> rows = n)
           | Vsession_6_Model | VSession_7_Model_1 => False
           end).
Proof.
  intros H.
  pose proof (forward_post_holds _ _ _ _ _ _ H) as (_ & _ & Hshape & Hdtype & _).
  rewrite forward_unfold in H.
  apply bind_Ok in H as (a & sa & Ha & H).
  apply bind_Ok in H as (b & sb & Hb & H).
  apply Tensor_view_inv in Hb as (_ & _ & _ & Sb & _ & _).
  destruct (forward_shape_columns_aux _ _ Sb) as [rows Hrows].
  pose proof (F_log_softmax_inv _ _ _ _ _ H) as (_ & _ & _ & Sy & Dy & Fy & _).
  exists rows, b, sb.
  split; [exact Hrows |]. split; [exact H |].
  split; [rewrite Hrows; apply normalize_dim_columns, softmax_dim_cases |].
  split; [congruence |]. split; [exact Hdtype |].
  split; [rewrite Dy; exact Fy |].
  intros v s0 s1 n c h w Hc Hx.
  apply construct_post_holds in Hc as (_ & Hof & A & _).
  unfold forward_shape in Hshape. rewrite Hx in Hshape.
  rewrite Sy, Hrows in Hshape.
  destruct v as [nm | | | |]; destruct i as [self | self | self | self | self];
    try contradiction; simpl in A;
    try (destruct self; discriminate A).
  + change (forward_path (IModel self)) with (Model.children self) in Hshape.
    rewrite (out_shape_Sequential_arch training _ (Model_arch nm)) in Hshape
      by (rewrite arch_Model_arch; exact A).
    destruct (out_shape _ training [n; c; h; w]) as [s2 |] eqn:E; [| discriminate].
    apply Model_shape_inv in E as ->.
    apply view_rows in Hshape. lia.
  + change (forward_path (ISession_7_Model_2 self))
      with (Session_7_Model_2.children self) in Hshape.
    rewrite (out_shape_Sequential_arch training _ Session_7_arch) in Hshape
      by exact A.
    destruct (out_shape _ training [n; c; h; w]) as [s2 |] eqn:E; [| discriminate].
    apply Session_7_shape_inv in E as ->.
    apply view_rows in Hshape. split; [exact Hshape |].
    intros -> ->. rewrite Hshape. change (Session_7_last 28) with 1. lia.
  + change (forward_path (ISession_7_Model_3 self))
      with (Session_7_Model_3.children self) in Hshape.
    rewrite (out_shape_Sequential_arch training _ Session_7_arch) in Hshape
      by exact A.
    destruct (out_shape _ training [n; c; h; w]) as [s2 |] eqn:E; [| discriminate].
    apply Session_7_shape_inv in E as ->.
    apply view_rows in Hshape. split; [exact Hshape |].
    intros -> ->. rewrite Hshape. change (Session_7_last 28) with 1. lia.
Qed.

Definition run_28x28 : result Tensor * state :=
  Eval vm_compute in
    @forward zero_kernels S7M2_0 true (constant_image [3; 1; 28; 28] 0) state_S7M2_0.

Lemma forward_returns_log_probabilities_witness :
  exists rows,
    t_shape (output_of run_28x28) = [rows; 10]
    /\ is_floating (t_dtype (output_of run_28x28)) = true
    /\ rows = 3.
Proof.
  destruct (@forward_returns_log_probabilities zero_kernels S7M2_0 true
              (constant_image [3; 1; 28; 28] 0) state_S7M2_0
              (output_of run_28x28) run_28x28.2)
    as (rows & b & sb & _ & _ & _ & Hs & _ & Hf & Hn).
  - vm_compute. reflexivity.
  - exists rows. split; [exact Hs |]. split; [exact Hf |].
    destruct (Hn VSession_7_Model_2 state0 state_S7M2_0 3 1 28 28
                construct_S7M2_0 eq_refl) as [_ H28].
    apply H28; reflexivity.
Defined.

(** ** C3 *)

(** The composition of all the child modules of an instance, in the order
    of declaration, followed by [view] and [log_softmax]. *)
Definition compose_children `{Kernels} (i : instance) (training : bool)
    (x : Tensor) : M Tensor :=
  x <- run_seq (fun c => call c training) (children i) x ;;
  x <- Tensor_view x [-1; 10] ;;
  F_log_softmax x (softmax_dim i).

Lemma children_forward_path i :
  match i with
  | Isession_6_Model self => children i = forward_path i ++ [session_6_Model.dropout self]
  | ISession_7_Model_1 self => children i = forward_path i ++ [Session_7_Model_1.dropout self]
  | _ => children i = forward_path i
  end.
Proof. destruct i as [self | self | self | self | self]; destruct self; reflexivity. Qed.

(** [compose_children] is [forward] whenever [forward] calls every child
    module. *)
Lemma forward_compose_children `{K : Kernels} i training x s :
  forward_path i = children i ->
  forward i training x s = compose_children i training x s.
Proof.
  intros E. rewrite forward_unfold. unfold compose_children. rewrite <- E.
  reflexivity.
Qed.

(** The example of the claim, spelled out: [Model.forward(x)] is
    [log_softmax(view(out(gap(trans3(conv3(trans2(conv2(trans1(conv1(x)))))))),
    (-1, 10)), dim=1)]. *)
Lemma Model_forward_composition `{K : Kernels} self training x s :
  Model.forward self training x s
  = (x <- call (Model.conv_block1 self) training x ;;
     x <- call (Model.trans_block1 self) training x ;;
     x <- call (Model.conv_block2 self) training x ;;
     x <- call (Model.trans_block2 self) training x ;;
     x <- call (Model.conv_block3 self) training x ;;
     x <- call (Model.trans_block3 self) training x ;;
     x <- call (Model.gap self) training x ;;
     x <- call (Model.out self) training x ;;
     x <- Tensor_view x [-1; 10] ;;
     F_log_softmax x 1) s
  /\ forward_path (IModel self) = Model.children self.
Proof. split; reflexivity. Qed.

(** C3.  [forward] of every variant is the straight-line composition of
    its layer blocks in the order of declaration, followed by
    [view(-1, 10)] and [log_softmax]: for every instance a constructor
    returns, [forward] calls every child module that [__init__] assigned,
    in that order ([compose_children]); for [Model] this is the chain of
    the claim, [conv_block1] to [out].  For an object of any class
    [forward] is the composition of the blocks of [forward_path], which
    are in the order of declaration (session_6_Model and Session_7_Model_1,
    which construct no instance, assign after them a [dropout] that
    [forward] does not call).  There is no control flow that depends on
    data: the sequence of library operations a successful call runs is
    [forward_ops i], which depends on the instance alone, not on the input,
    the state or the training flag; a failing call ran an initial part of
    it. *)
Theorem forward_is_straight_line `{K : Kernels} i training x s :
  forward i training x s
  = (x <- run_seq (fun c => call c training) (forward_path i) x ;;
     x <- Tensor_view x [-1; 10] ;;
     F_log_softmax x (softmax_dim i)) s
  /\ (forall v s0 s1,
         construct v s0 = (Ok i, s1) ->
         forward_path i = children i
         /\ forward i training x s = compose_children i training x s)
  /\ (forall self,
         i = IModel self ->
         forward i training x s
         = (x <- call (Model.conv_block1 self) training x ;;
            x <- call (Model.trans_block1 self) training x ;;
            x <- call (Model.conv_block2 self) training x ;;
            x <- call (Model.trans_block2 self) training x ;;
            x <- call (Model.conv_block3 self) training x ;;
            x <- call (Model.trans_block3 self) training x ;;
            x <- call (Model.gap self) training x ;;
            x <- call (Model.out self) training x ;;
            x <- Tensor_view x [-1; 10] ;;
            F_log_softmax x 1) s)
  /\ match i with
     | Isession_6_Model self =>
         children i = forward_path i ++ [session_6_Model.dropout self]
     | ISession_7_Model_1 self =>
         children i = forward_path i ++ [Session_7_Model_1.dropout self]
     | _ => children i = forward_path i
     end
  /\ (forall y s', forward i training x s = (Ok y, s') ->
                   trace s' = trace s ++ forward_ops i)
  /\ (forall e s', forward i training x s = (Raise e, s') ->
                   exists pre rest,
                     forward_ops i = pre ++ rest /\ trace s' = trace s ++ pre).
Proof.
  split; [apply forward_unfold |].
  split.
  { intros v s0 s1 Hc. pose proof (constructed_forward_path _ _ _ _ Hc) as E.
    split; [exact E | apply forward_compose_children; exact E]. }
  split.
  { intros self ->. apply Model_forward_composition. }
  split; [apply children_forward_path |].
  split.
  - intros y s' H. apply forward_post_holds in H as (_ & _ & _ & _ & T). exact T.
  - intros e s' H. apply forward_post_holds in H as (_ & _ & _ & T). exact T.
Qed.

Definition run_8x8 : result Tensor * state :=
  Eval vm_compute in
    @forward zero_kernels Model_0 true (constant_image [1; 3; 8; 8] 1) state_Model_0.

Lemma forward_is_straight_line_witness :
  trace run_8x8.2 = trace state_Model_0 ++ forward_ops Model_0.
Proof.
  apply (proj1 (proj2 (proj2 (proj2 (proj2
           (@forward_is_straight_line zero_kernels Model_0 true
              (constant_image [1; 3; 8; 8] 1) state_Model_0)))))
           (output_of run_8x8)).
  vm_compute. reflexivity.
Defined.

(** ** C6 *)

(** What can be done with an instance once it exists: call it, or assign a
    tensor to one of its parameters or buffers. *)
Inductive use_of `{K : Kernels} (i : instance) : state -> state -> Prop :=
| use_done s : use_of i s s
| use_forward training x r s s1 s2 :
    forward i training x s = (r, s1) -> use_of i s1 s2 -> use_of i s s2
| use_assign l t s s1 s2 :
    In l (instance_locs i) -> write l t s = (Ok tt, s1) -> use_of i s1 s2 ->
    use_of i s s2.

Lemma use_of_frame `{K : Kernels} i s s' :
  use_of i s s' ->
  length (cells s') = length (cells s) /\ frame (instance_locs i) s s'.
Proof.
  induction 1 as [s | training x r s s1 s2 Hf _ [IHl IHf]
                  | l t s s1 s2 Hl Hw _ [IHl IHf]].
  - split; [reflexivity | apply frame_refl].
  - apply forward_post_holds in Hf as (M & F & _).
    apply same_meta_length in M. split; [congruence |].
    eapply frame_trans; eauto.
  - inversion Hw; subst. simpl in *. rewrite length_insert in IHl.
    split; [exact IHl |].
    intros l' Hl'. rewrite IHf by exact Hl'. simpl.
    apply list_lookup_insert_ne. intros ->. contradiction.
Qed.

(** The tensors of a constructed instance lie between the store sizes
    before and after its construction. *)
Lemma constructed_locs `{K : Kernels} v s i s' l :
  construct v s = (Ok i, s') -> In l (instance_locs i) ->
  (length (cells s) <= l < length (cells s'))%nat.
Proof.
  intros Hc Hl. apply construct_post_holds in Hc as (_ & _ & _ & B & _).
  apply built_Sequential in B as [Hr _].
  rewrite Forall_forall in Hr. apply Hr, list_elem_of_In. exact Hl.
Qed.

(** C6.  Build an instance, use it, build a second instance (of any
    class), and use the second in any way: calls in either mode on any
    inputs, assignments to its parameters and buffers.  Then no tensor is
    shared by the two instances, and every parameter and buffer of the first
    holds what it held before the second was built. *)
Theorem instances_share_no_state `{K : Kernels}
    v1 v2 s0 i1 s1 s1' i2 s2 s3 :
  construct v1 s0 = (Ok i1, s1) ->
  use_of i1 s1 s1' ->
  construct v2 s1' = (Ok i2, s2) ->
  use_of i2 s2 s3 ->
  forall l, In l (instance_locs i1) ->
    ~ In l (instance_locs i2)
    /\ cells s2 !! l = cells s1' !! l
    /\ cells s3 !! l = cells s1' !! l.
Proof.
  intros Hc1 Hu1 Hc2 Hu2 l Hl.
  pose proof (constructed_locs _ _ _ _ _ Hc1 Hl) as [_ Hlt].
  apply use_of_frame in Hu1 as [Hlen1 _]. rewrite <- Hlen1 in Hlt.
  assert (Hnot : ~ In l (instance_locs i2)).
  { intros Hl2. pose proof (constructed_locs _ _ _ _ _ Hc2 Hl2) as [Hge _]. lia. }
  apply construct_post_holds in Hc2 as (E2 & _).
  apply use_of_frame in Hu2 as [_ F2].
  split; [exact Hnot |].
  split; [apply extends_lookup; assumption |].
  rewrite (F2 l Hnot). apply extends_lookup; assumption.
Qed.

(** A second instance, built next to [Model_0], then trained on one batch
    and given a new first weight. *)
Definition second_instance : instance :=
  Eval vm_compute in
    match (@construct zero_kernels VSession_7_Model_2 state_Model_0).1 with
    | Ok i => i
    | Raise _ => fallback_instance
    end.

Definition state_second_built : state :=
  Eval vm_compute in (@construct zero_kernels VSession_7_Model_2 state_Model_0).2.

Definition state_second_called : state :=
  Eval vm_compute in
    (@forward zero_kernels second_instance true
       (constant_image [2; 1; 28; 28] 1) state_second_built).2.

Definition state_second_assigned : state :=
  Eval vm_compute in
    (write 52 (mkTensor [8; 1; 3; 3] Float32 (fun _ => 1%R)) state_second_called).2.

Lemma instances_share_no_state_witness :
  ~ In 0%nat (instance_locs second_instance)
  /\ cells state_second_built !! 0%nat = cells state_Model_0 !! 0%nat
  /\ cells state_second_assigned !! 0%nat = cells state_Model_0 !! 0%nat.
Proof.
  apply (@instances_share_no_state zero_kernels (VModel BATCH) VSession_7_Model_2
           state0 Model_0 state_Model_0 state_Model_0
           second_instance state_second_built state_second_assigned).
  - vm_compute. reflexivity.
  - apply use_done.
  - vm_compute. reflexivity.
  - apply (use_forward _ true (constant_image [2; 1; 28; 28] 1)
             (@forward zero_kernels second_instance true
                (constant_image [2; 1; 28; 28] 1) state_second_built).1
             _ state_second_called).
    + vm_compute. reflexivity.
    + apply (use_assign _ 52%nat (mkTensor [8; 1; 3; 3] Float32 (fun _ => 1%R))
               _ state_second_assigned).
      * vm_compute. tauto.
      * vm_compute. reflexivity.
      * apply use_done.
  - vm_compute. tauto.
Defined.

(* ===================================================================== *)
(** * Two module trees with equal parameters                               *)
(* ===================================================================== *)

(** The tensors a module tree refers to, in tree order. *)
Definition params (s : state) (m : nn_module) : list Tensor :=
  map (fun l => cells s !!! l) (locs m).

Definition allocated (s : state) (m : nn_module) : Prop :=
  Forall (fun l => (l < length (cells s))%nat) (locs m).

Lemma arch_locs_length m : forall m', arch m = arch m' -> length (locs m) = length (locs m').
Proof.
  induction m as [cin cout k p w | c w b rm rv nbt | g c w b | | p | k st | k
                  | o | ms IH | l IH | l IH] using nn_module_tree_ind;
    intros m' E; destruct m' as [| | | | | | | | ms' | |];
    simpl in E; try discriminate; try reflexivity;
    try (injection E as E; simpl; apply IH; exact E).
  injection E as E. simpl. revert ms' E.
  induction IH as [| m ms Hm _ IH]; intros [| m' ms'] E; try discriminate; [reflexivity |].
  simpl in E. injection E as E1 E2. simpl. rewrite !length_app.
  f_equal; [apply Hm; exact E1 | apply IH; exact E2].
Qed.

Lemma params_frame L s s' m :
  frame L s s' -> (forall l, In l (locs m) -> ~ In l L) -> params s' m = params s m.
Proof.
  intros F Hd. unfold params. apply map_ext_in. intros l Hl.
  rewrite !list_lookup_total_alt, (F l); auto.
Qed.

Lemma allocated_same_meta s s' m : same_meta s s' -> allocated s m -> allocated s' m.
Proof.
  intros M. unfold allocated. apply same_meta_length in M. rewrite M. auto.
Qed.

Lemma NoDup5 (a b c d e : nat) :
  NoDup [a; b; c; d; e] ->
  a <> b /\ a <> c /\ a <> d /\ a <> e /\ b <> c /\ b <> d /\ b <> e
  /\ c <> d /\ c <> e /\ d <> e.
Proof.
  intros N. apply NoDup_ListNoDup in N.
  repeat match goal with
         | H : List.NoDup (_ :: _) |- _ => apply List.NoDup_cons_iff in H as [? H]
         end.
  simpl in *. repeat split; intros ->; tauto.
Qed.

Ltac norm_lookups :=
  repeat first
    [ rewrite list_lookup_total_insert_ne
        by first [assumption | apply not_eq_sym; assumption]
    | rewrite list_lookup_total_insert_eq by (rewrite ?length_insert; assumption) ].

Ltac next_cond :=
  match goal with
  | |- context [if ?b then _ else _] => destruct b; simpl
  | |- context [match ?o with Some _ => _ | None => _ end] => destruct o; simpl
  end.

(** Whether a call of the module draws from the random generator. *)
Fixpoint uses_rng (m : nn_module) : bool :=
  match m with
  | Dropout _ => true
  | Sequential children => existsb uses_rng children
  | ConvLayer layer => uses_rng layer
  | TransBlock layer => uses_rng layer
  | _ => false
  end.

Lemma uses_rng_arch m : uses_rng (arch m) = uses_rng m.
Proof.
  induction m as [cin cout k p w | c w b rm rv nbt | g c w b | | p | k st | k
                  | o | ms IH | l IH | l IH] using nn_module_tree_ind;
    try reflexivity; try (simpl; exact IH).
  simpl. induction IH as [| m ms Hm _ IH]; [reflexivity |].
  simpl. rewrite Hm, IH. reflexivity.
Qed.

Section SameParams.
Context `{K : Kernels}.

Definition same_outcome (m m' : nn_module) (training : bool) (x : Tensor)
    (s s' : state) : Prop :=
  (call m training x s).1 = (call m' training x s').1
  /\ (rng s = rng s' -> rng (call m training x s).2 = rng (call m' training x s').2)
  /\ params (call m training x s).2 m = params (call m' training x s').2 m'.


Lemma BN_same c w b rm rv nbt w' b' rm' rv' nbt' training x s s' :
  NoDup [w; b; rm; rv; nbt] -> NoDup [w'; b'; rm'; rv'; nbt'] ->
  allocated s (BatchNorm2d c w b rm rv nbt) ->
  allocated s' (BatchNorm2d c w' b' rm' rv' nbt') ->
  params s (BatchNorm2d c w b rm rv nbt) = params s' (BatchNorm2d c w' b' rm' rv' nbt') ->
  same_outcome (BatchNorm2d c w b rm rv nbt) (BatchNorm2d c w' b' rm' rv' nbt') training x s s'.
Proof.
  intros N N' A A' P.
  apply NoDup5 in N as (? & ? & ? & ? & ? & ? & ? & ? & ? & ?).
  apply NoDup5 in N' as (? & ? & ? & ? & ? & ? & ? & ? & ? & ?).
  unfold allocated in A, A'. simpl in A, A'.
  repeat match goal with
         | H : Forall _ (_ :: _) |- _ => apply Forall_cons in H as [? H]
         end.
  unfold params in P. simpl in P. injection P as Pw Pb Prm Prv Pnbt.
  unfold same_outcome, params. simpl.
  unfold BatchNorm2d_forward. cbv [bind log read write ret get_rng set_rng raise lib_error].
  simpl.
  destruct training; simpl;
    repeat (norm_lookups; rewrite <- ?Pw, <- ?Pb, <- ?Prm, <- ?Prv, <- ?Pnbt; next_cond);
    norm_lookups; rewrite <- ?Pw, <- ?Pb, <- ?Prm, <- ?Prv, <- ?Pnbt;
    repeat split; congruence.
Qed.

Lemma leaf_same m m' training x s s' :
  match m with Sequential _ | ConvLayer _ | TransBlock _ => False | _ => True end ->
  arch m = arch m' ->
  NoDup (locs m) -> NoDup (locs m') -> allocated s m -> allocated s' m' ->
  params s m = params s' m' -> (uses_rng m = true -> rng s = rng s') ->
  same_outcome m m' training x s s'.
Proof.
  intros Hleaf E N N' A A' P R.
  destruct m as [cin cout k p w | c w b rm rv nbt | g c w b | | p | k st | k
                 | o | ms | l | l]; try contradiction;
    destruct m'; simpl in E; try discriminate E; inversion E; subst; clear E.
  - unfold params in P. simpl in P. injection P as Pw.
    unfold same_outcome, params. simpl. unfold F_conv2d.
    cbv [bind log read write ret get_rng set_rng raise lib_error]. simpl.
    rewrite <- Pw. repeat next_cond; repeat split; congruence.
  - apply BN_same; assumption.
  - unfold params in P. simpl in P. injection P as Pw Pb.
    unfold same_outcome, params. simpl. unfold F_group_norm.
    cbv [bind log read write ret get_rng set_rng raise lib_error]. simpl.
    repeat (rewrite <- ?Pw, <- ?Pb; next_cond); rewrite <- ?Pw, <- ?Pb;
      repeat split; congruence.
  - unfold same_outcome, params. simpl. unfold F_relu.
    cbv [bind log read write ret get_rng set_rng raise lib_error]. simpl. auto.
  - unfold same_outcome, params. simpl. unfold F_dropout.
    cbv [bind log read write ret get_rng set_rng raise lib_error]. simpl.
    specialize (R eq_refl). repeat next_cond; simpl; rewrite ?R; auto.
  - unfold same_outcome, params. simpl. unfold F_max_pool2d.
    cbv [bind log read write ret get_rng set_rng raise lib_error]. simpl.
    repeat next_cond; auto.
  - unfold same_outcome, params. simpl. unfold F_avg_pool2d.
    cbv [bind log read write ret get_rng set_rng raise lib_error]. simpl.
    repeat next_cond; auto.
  - unfold same_outcome, params. simpl. unfold F_adaptive_avg_pool2d.
    cbv [bind log read write ret get_rng set_rng raise lib_error]. simpl.
    repeat next_cond; auto.
Qed.

Lemma params_app_inv s s' (l1 l2 l1' l2' : list nat) :
  length l1 = length l1' ->
  map (fun l => cells s !!! l) (l1 ++ l2) = map (fun l => cells s' !!! l) (l1' ++ l2') ->
  map (fun l => cells s !!! l) l1 = map (fun l => cells s' !!! l) l1'
  /\ map (fun l => cells s !!! l) l2 = map (fun l => cells s' !!! l) l2'.
Proof.
  intros Hlen H. rewrite !map_app in H.
  apply app_inj_1 in H; [exact H |]. rewrite !length_map. exact Hlen.
Qed.

Definition same_call (m : nn_module) (training : bool) : Prop :=
  forall m' x s s',
    arch m = arch m' ->
    NoDup (locs m) -> NoDup (locs m') -> allocated s m -> allocated s' m' ->
    params s m = params s' m' -> (uses_rng m = true -> rng s = rng s') ->
    same_outcome m m' training x s s'.

Lemma seq_same training ms :
  Forall (fun m => same_call m training) ms -> same_call (Sequential ms) training.
Proof.
  induction 1 as [| m ms Hm _ IH]; intros m' x s s' E N N' A A' P R;
    destruct m' as [| | | | | | | | ms' | |]; simpl in E; try discriminate E;
    injection E as E; destruct ms' as [| m' ms']; try discriminate E.
  - unfold same_outcome. simpl. auto.
  - simpl in E. injection E as E1 E2.
    simpl in N, N'. apply NoDup_app in N as (N1 & D & N2).
    apply NoDup_app in N' as (N1' & D' & N2').
    unfold allocated in A, A'. simpl in A, A'.
    apply Forall_app in A as [A1 A2]. apply Forall_app in A' as [A1' A2'].
    unfold params in P. simpl in P.
    apply params_app_inv in P as [P1 P2]; [| apply arch_locs_length; exact E1].
    simpl in R.
    assert (R1 : uses_rng m = true -> rng s = rng s')
      by (intros U; apply R; rewrite U; reflexivity).
    destruct (Hm m' x s s' E1 N1 N1' A1 A1' P1 R1) as (Hr & Hrng & Hp).
    destruct (call m training x s) as [ra sa] eqn:Ca.
    destruct (call m' training x s') as [ra' sa'] eqn:Ca'.
    simpl in Hr, Hrng, Hp. subst ra'.
    pose proof (call_post_holds training m _ _ _ _ Ca) as (Ma & Fa & _).
    pose proof (call_post_holds training m' _ _ _ _ Ca') as (Ma' & Fa' & _).
    assert (P2a : params sa (Sequential ms) = params sa' (Sequential ms')).
    { rewrite (params_frame (locs m) s sa), (params_frame (locs m') s' sa'); auto.
      - intros l Hl Hl'. apply (D' l); apply list_elem_of_In; assumption.
      - intros l Hl Hl'. apply (D l); apply list_elem_of_In; assumption. }
    unfold same_outcome.
    change (call (Sequential (m :: ms)) training x s)
      with (bind (call m training x) (fun a => call (Sequential ms) training a) s).
    change (call (Sequential (m' :: ms')) training x s')
      with (bind (call m' training x) (fun a => call (Sequential ms') training a) s').
    unfold bind. rewrite Ca, Ca'.
    destruct ra as [a | e].
    + assert (E2' : arch (Sequential ms) = arch (Sequential ms'))
        by (simpl; rewrite E2; reflexivity).
      assert (R2 : uses_rng (Sequential ms) = true -> rng sa = rng sa').
      { intros U. apply Hrng, R. simpl in U. rewrite U. apply orb_true_r. }
      destruct (IH (Sequential ms') a sa sa' E2' N2 N2'
                  (allocated_same_meta _ _ (Sequential ms) Ma A2)
                  (allocated_same_meta _ _ (Sequential ms') Ma' A2') P2a R2)
        as (Hr2 & Hrng2 & Hp2).
      destruct (call (Sequential ms) training a sa) as [r2 s2] eqn:C2.
      destruct (call (Sequential ms') training a sa') as [r2' s2'] eqn:C2'.
      simpl in Hr2, Hrng2, Hp2. simpl.
      pose proof (call_post_holds training _ _ _ _ _ C2) as (_ & F2 & _).
      pose proof (call_post_holds training _ _ _ _ _ C2') as (_ & F2' & _).
      split; [exact Hr2 |]. split; [auto |].
      unfold params. simpl. rewrite !map_app. f_equal; [| exact Hp2].
      change (params s2 m = params s2' m').
      rewrite (params_frame _ sa s2 m F2), (params_frame _ sa' s2' m' F2'); auto.
      * intros l Hl Hl'. apply (D' l); apply list_elem_of_In; assumption.
      * intros l Hl Hl'. apply (D l); apply list_elem_of_In; assumption.
    + simpl. split; [reflexivity |]. split; [exact Hrng |].
      unfold params. simpl. rewrite !map_app. f_equal; [exact Hp | exact P2a].
Qed.

Lemma call_same_params training m : same_call m training.
Proof.
  induction m as [cin cout k p w | c w b rm rv nbt | g c w b | | p | k st | k
                  | o | ms IH | l IH | l IH] using nn_module_tree_ind;
    try (intros m' x s s' E N N' A A' P R; apply leaf_same; auto; exact I).
  - apply seq_same. exact IH.
  - intros m' x s s' E N N' A A' P R.
    destruct m'; simpl in E; try discriminate E. injection E as E.
    destruct (IH _ x s s' E N N' A A' P R) as (Hr & Hrng & Hp).
    unfold same_outcome. simpl. rewrite !bind_ret_r. auto.
  - intros m' x s s' E N N' A A' P R.
    destruct m'; simpl in E; try discriminate E. injection E as E.
    destruct (IH _ x s s' E N N' A A' P R) as (Hr & Hrng & Hp).
    unfold same_outcome. simpl. rewrite !bind_ret_r. auto.
Qed.

End SameParams.

(** After the blocks, [view] and [log_softmax] look at their argument
    alone. *)
Lemma view_log_softmax_pure `{K : Kernels} a d st st' :
  let tail := fun st => (b <- Tensor_view a [-1; 10] ;; F_log_softmax b d) st in
  (tail st).1 = (tail st').1
  /\ cells (tail st).2 = cells st /\ cells (tail st').2 = cells st'.
Proof.
  cbv zeta. unfold Tensor_view, F_log_softmax.
  cbv [bind log read write ret get_rng set_rng raise lib_error]. simpl.
  repeat next_cond; auto.
Qed.

(** Two instances of the same architecture whose parameters and buffers
    hold equal tensors (and whose generators agree, if the architecture has
    a dropout) return the same result on the same input, and their
    parameters and buffers agree afterwards. *)
Lemma forward_same_params `{K : Kernels} i i' training x s s' :
  let m := Sequential (forward_path i) in
  let m' := Sequential (forward_path i') in
  arch m = arch m' -> softmax_dim i = softmax_dim i' ->
  NoDup (locs m) -> NoDup (locs m') -> allocated s m -> allocated s' m' ->
  params s m = params s' m' ->
  (uses_rng m = true -> rng s = rng s') ->
  (forward i training x s).1 = (forward i' training x s').1
  /\ params (forward i training x s).2 m = params (forward i' training x s').2 m'.
Proof.
  intros m m' E Hd N N' A A' P R.
  destruct (call_same_params training m m' x s s' E N N' A A' P R) as (Hr & _ & Hp).
  rewrite !forward_unfold. fold m m'.
  destruct (call m training x s) as [ra sa] eqn:Ca.
  destruct (call m' training x s') as [ra' sa'] eqn:Ca'.
  simpl in Hr, Hp. subst ra'. destruct ra as [a | e].
  - rewrite (bind_step _ _ _ _ _ Ca), (bind_step _ _ _ _ _ Ca'). rewrite <- Hd.
    destruct (view_log_softmax_pure a (softmax_dim i) sa sa') as (T1 & T2 & T3).
    cbv zeta in T1, T2, T3. split; [exact T1 |].
    unfold params. rewrite T2, T3. exact Hp.
  - rewrite (bind_fail _ _ _ _ _ Ca), (bind_fail _ _ _ _ _ Ca').
    split; [reflexivity | exact Hp].
Qed.

(** ** C9 *)





Lemma allocated_later s s0 s1 m :
  built s0 m s1 -> (length (cells s1) <= length (cells s))%nat -> allocated s m.
Proof.
  intros [B _] L. unfold allocated. apply (Forall_impl _ _ _ B).
  intros l Hl. simpl in Hl. lia.
Qed.

(** The trainable tensors ([nn.Module.parameters()]): weights and biases. *)
Fixpoint parameter_locs (m : nn_module) : list loc :=
  match m with
  | Conv2d _ _ _ _ w => [w]
  | BatchNorm2d _ w b _ _ _ => [w; b]
  | GroupNorm _ _ w b => [w; b]
  | ReLU | Dropout _ | MaxPool2d _ _ | AvgPool2d _ | AdaptiveAvgPool2d _ => []
  | Sequential children => flat_map parameter_locs children
  | ConvLayer layer => parameter_locs layer
  | TransBlock layer => parameter_locs layer
  end.
















(* ===================================================================== *)
(** * Further properties of model.py                                       *)
(* ===================================================================== *)

(* ===================================================================== *)
(** * What a call does to the store                                        *)
(* ===================================================================== *)

(** Whether the tree holds a [BatchNorm2d], the one layer with buffers. *)
Fixpoint has_batch_norm (m : nn_module) : bool :=
  match m with
  | BatchNorm2d _ _ _ _ _ _ => true
  | Sequential children => existsb has_batch_norm children
  | ConvLayer layer => has_batch_norm layer
  | TransBlock layer => has_batch_norm layer
  | _ => false
  end.

Lemma has_batch_norm_arch m : has_batch_norm (arch m) = has_batch_norm m.
Proof.
  induction m as [cin cout k p w | c w b rm rv nbt | g c w b | | p | k st | k
                  | o | ms IH | l IH | l IH] using nn_module_tree_ind;
    try reflexivity; try (simpl; exact IH).
  simpl. induction IH as [| m ms Hm _ IH]; [reflexivity |].
  simpl. rewrite Hm, IH. reflexivity.
Qed.

Section StoreEffects.
Context `{K : Kernels}.

Lemma run_seq_cons training m ms x s :
  run_seq (fun c => call c training) (m :: ms) x s
  = match call m training x s with
    | (Ok a, s1) => run_seq (fun c => call c training) ms a s1
    | (Raise e, s1) => (Raise e, s1)
    end.
Proof. simpl. unfold bind. destruct (call m training x s) as [[a | e] s1]; reflexivity. Qed.

(** Only a [BatchNorm2d] in training mode writes to the store. *)
Lemma call_keeps_cells training m :
  forall x s,
    training = false \/ has_batch_norm m = false ->
    cells (call m training x s).2 = cells s.
Proof.
  induction m as [cin cout k p w | c w b rm rv nbt | g c w b | | p | k st | k
                  | o | ms IH | l IH | l IH] using nn_module_tree_ind;
    intros x s H.
  - simpl. unfold F_conv2d. run. simpl. repeat next_cond; reflexivity.
  - destruct H as [-> | H]; [| discriminate H].
    simpl. unfold BatchNorm2d_forward. run. simpl. repeat next_cond; reflexivity.
  - simpl. unfold F_group_norm. run. simpl. repeat next_cond; reflexivity.
  - reflexivity.
  - simpl. unfold F_dropout. run. simpl. repeat next_cond; reflexivity.
  - simpl. unfold F_max_pool2d. run. simpl. repeat next_cond; reflexivity.
  - simpl. unfold F_avg_pool2d. run. simpl. repeat next_cond; reflexivity.
  - simpl. unfold F_adaptive_avg_pool2d. run. simpl. repeat next_cond; reflexivity.
  - change (call (Sequential ms) training x s)
      with (run_seq (fun c => call c training) ms x s).
    revert x s. induction IH as [| m ms Hm _ IHms]; intros x s; [reflexivity |].
    assert (H1 : training = false \/ has_batch_norm m = false).
    { destruct H as [H | H]; [left; exact H | right].
      simpl in H. apply orb_false_elim in H as [H _]. exact H. }
    assert (H2 : training = false \/ has_batch_norm (Sequential ms) = false).
    { destruct H as [H | H]; [left; exact H | right].
      simpl in H. apply orb_false_elim in H as [_ H]. exact H. }
    rewrite run_seq_cons. specialize (Hm x s H1).
    destruct (call m training x s) as [[a | e] s1]; simpl in Hm.
    + rewrite (IHms H2). exact Hm.
    + exact Hm.
  - simpl. rewrite bind_ret_r. apply IH. exact H.
  - simpl. rewrite bind_ret_r. apply IH. exact H.
Qed.

(** Only a [Dropout] in training mode draws from the generator. *)
Lemma call_keeps_rng training m :
  forall x s,
    training = false \/ uses_rng m = false ->
    rng (call m training x s).2 = rng s.
Proof.
  induction m as [cin cout k p w | c w b rm rv nbt | g c w b | | p | k st | k
                  | o | ms IH | l IH | l IH] using nn_module_tree_ind;
    intros x s H.
  - simpl. unfold F_conv2d. run. simpl. repeat next_cond; reflexivity.
  - simpl. unfold BatchNorm2d_forward. run. simpl. repeat next_cond; reflexivity.
  - simpl. unfold F_group_norm. run. simpl. repeat next_cond; reflexivity.
  - reflexivity.
  - destruct H as [-> | H]; [reflexivity | discriminate H].
  - simpl. unfold F_max_pool2d. run. simpl. repeat next_cond; reflexivity.
  - simpl. unfold F_avg_pool2d. run. simpl. repeat next_cond; reflexivity.
  - simpl. unfold F_adaptive_avg_pool2d. run. simpl. repeat next_cond; reflexivity.
  - change (call (Sequential ms) training x s)
      with (run_seq (fun c => call c training) ms x s).
    revert x s. induction IH as [| m ms Hm _ IHms]; intros x s; [reflexivity |].
    assert (H1 : training = false \/ uses_rng m = false).
    { destruct H as [H | H]; [left; exact H | right].
      simpl in H. apply orb_false_elim in H as [H _]. exact H. }
    assert (H2 : training = false \/ uses_rng (Sequential ms) = false).
    { destruct H as [H | H]; [left; exact H | right].
      simpl in H. apply orb_false_elim in H as [_ H]. exact H. }
    rewrite run_seq_cons. specialize (Hm x s H1).
    destruct (call m training x s) as [[a | e] s1]; simpl in Hm.
    + rewrite (IHms H2). exact Hm.
    + exact Hm.
  - simpl. rewrite bind_ret_r. apply IH. exact H.
  - simpl. rewrite bind_ret_r. apply IH. exact H.
Qed.

(** The result of a call and the store it leaves depend on the tensors and
    the generator, not on the log of operations. *)
Lemma call_store_only training m :
  forall x s s',
    cells s = cells s' -> rng s = rng s' ->
    (call m training x s).1 = (call m training x s').1
    /\ cells (call m training x s).2 = cells (call m training x s').2
    /\ rng (call m training x s).2 = rng (call m training x s').2.
Proof.
  induction m as [cin cout k p w | c w b rm rv nbt | g c w b | | p | k st | k
                  | o | ms IH | l IH | l IH] using nn_module_tree_ind;
    intros x s s' C R.
  - simpl. unfold F_conv2d. run. simpl. rewrite <- C.
    repeat next_cond; auto.
  - simpl. unfold BatchNorm2d_forward. run. simpl. rewrite <- C, <- R.
    repeat next_cond; auto.
  - simpl. unfold F_group_norm. run. simpl. rewrite <- C.
    repeat next_cond; auto.
  - simpl. unfold F_relu. run. simpl. auto.
  - simpl. unfold F_dropout. run. simpl. rewrite <- R.
    repeat next_cond; auto.
  - simpl. unfold F_max_pool2d. run. simpl. repeat next_cond; auto.
  - simpl. unfold F_avg_pool2d. run. simpl. repeat next_cond; auto.
  - simpl. unfold F_adaptive_avg_pool2d. run. simpl. repeat next_cond; auto.
  - change (call (Sequential ms) training x)
      with (run_seq (fun c => call c training) ms x).
    revert x s s' C R. induction IH as [| m ms Hm _ IHms]; intros x s s' C R.
    + simpl. auto.
    + rewrite !run_seq_cons. destruct (Hm x s s' C R) as (E1 & E2 & E3).
      destruct (call m training x s) as [[a | e] s1];
        destruct (call m training x s') as [[a' | e'] s1'];
        simpl in E1, E2, E3; try discriminate E1.
      * injection E1 as <-. apply IHms; assumption.
      * simpl. auto.
  - simpl. rewrite !bind_ret_r. apply IH; assumption.
  - simpl. rewrite !bind_ret_r. apply IH; assumption.
Qed.

Lemma tail_store_only a d s s' :
  let tail := fun st => (b <- Tensor_view a [-1; 10] ;; F_log_softmax b d) st in
  (tail s).1 = (tail s').1
  /\ cells (tail s).2 = cells s /\ rng (tail s).2 = rng s.
Proof.
  cbv zeta. unfold Tensor_view, F_log_softmax. run. simpl.
  repeat next_cond; auto.
Qed.

Lemma forward_keeps_cells i training x s :
  training = false \/ has_batch_norm (Sequential (forward_path i)) = false ->
  cells (forward i training x s).2 = cells s.
Proof.
  intros H. rewrite forward_unfold.
  pose proof (call_keeps_cells training _ x s H) as C.
  destruct (call (Sequential (forward_path i)) training x s) as [[a | e] s1] eqn:E.
  - rewrite (bind_step _ _ _ _ _ E).
    destruct (tail_store_only a (softmax_dim i) s1 s1) as (_ & T & _).
    cbv zeta in T. rewrite T. exact C.
  - rewrite (bind_fail _ _ _ _ _ E). exact C.
Qed.

Lemma forward_keeps_rng i training x s :
  training = false \/ uses_rng (Sequential (forward_path i)) = false ->
  rng (forward i training x s).2 = rng s.
Proof.
  intros H. rewrite forward_unfold.
  pose proof (call_keeps_rng training _ x s H) as C.
  destruct (call (Sequential (forward_path i)) training x s) as [[a | e] s1] eqn:E.
  - rewrite (bind_step _ _ _ _ _ E).
    destruct (tail_store_only a (softmax_dim i) s1 s1) as (_ & _ & T).
    cbv zeta in T. rewrite T. exact C.
  - rewrite (bind_fail _ _ _ _ _ E). exact C.
Qed.

Lemma forward_store_only i training x s s' :
  cells s = cells s' -> rng s = rng s' ->
  (forward i training x s).1 = (forward i training x s').1.
Proof.
  intros C R. rewrite !forward_unfold.
  destruct (call_store_only training (Sequential (forward_path i)) x s s' C R)
    as (E1 & _ & _).
  destruct (call (Sequential (forward_path i)) training x s) as [[a | e] s1] eqn:E;
    destruct (call (Sequential (forward_path i)) training x s') as [[a' | e'] s1'] eqn:E';
    simpl in E1; try discriminate E1.
  - injection E1 as <-.
    rewrite (bind_step _ _ _ _ _ E), (bind_step _ _ _ _ _ E').
    apply (tail_store_only a (softmax_dim i) s1 s1').
  - rewrite (bind_fail _ _ _ _ _ E), (bind_fail _ _ _ _ _ E'). exact E1.
Qed.

End StoreEffects.

(** X1.  In evaluation mode [forward], of every instance on every input,
    changes no tensor of the store and leaves the generator where it was,
    whether it returns or raises; and calling it again on the same input
    gives the same result. *)
Theorem forward_eval_is_pure `{K : Kernels} i x s :
  cells (forward i false x s).2 = cells s
  /\ rng (forward i false x s).2 = rng s
  /\ (forward i false x (forward i false x s).2).1 = (forward i false x s).1.
Proof.
  assert (C : cells (forward i false x s).2 = cells s)
    by (apply forward_keeps_cells; left; reflexivity).
  assert (R : rng (forward i false x s).2 = rng s)
    by (apply forward_keeps_rng; left; reflexivity).
  split; [exact C |]. split; [exact R |].
  apply forward_store_only; assumption.
Qed.

(** ** Parameters and buffers *)

(** The buffers ([nn.Module.buffers()]): the running statistics and the
    batch counter of every [BatchNorm2d]. *)
Fixpoint buffer_locs (m : nn_module) : list loc :=
  match m with
  | BatchNorm2d _ _ _ rm rv nbt => [rm; rv; nbt]
  | Sequential children => flat_map buffer_locs children
  | ConvLayer layer => buffer_locs layer
  | TransBlock layer => buffer_locs layer
  | _ => []
  end.

(** The batch counters alone. *)
Fixpoint counter_locs (m : nn_module) : list loc :=
  match m with
  | BatchNorm2d _ _ _ _ _ nbt => [nbt]
  | Sequential children => flat_map counter_locs children
  | ConvLayer layer => counter_locs layer
  | TransBlock layer => counter_locs layer
  | _ => []
  end.

(** The number of [Dropout] layers in the tree. *)
Fixpoint dropouts (m : nn_module) : nat :=
  match m with
  | Dropout _ => 1
  | Sequential children => list_sum (map dropouts children)
  | ConvLayer layer => dropouts layer
  | TransBlock layer => dropouts layer
  | _ => 0
  end.

Lemma dropouts_arch m : dropouts (arch m) = dropouts m.
Proof.
  induction m as [cin cout k p w | c w b rm rv nbt | g c w b | | p | k st | k
                  | o | ms IH | l IH | l IH] using nn_module_tree_ind;
    try reflexivity; try (simpl; exact IH).
  simpl. induction IH as [| m ms Hm _ IH]; [reflexivity |].
  simpl. rewrite Hm. f_equal. exact IH.
Qed.

(** The number of masks a call in training mode draws on an input of shape
    [s]: one for every [Dropout] with a probability other than 0 and 1 that
    receives a tensor with elements. *)
Definition seq_draws {A} (f : A -> list Z -> nat)
    (g : A -> list Z -> option (list Z)) : list A -> list Z -> nat :=
  fix go (ms : list A) (s : list Z) : nat :=
    match ms with
    | [] => O
    | m :: ms' =>
        (f m s + match g m s with Some s' => go ms' s' | None => O end)%nat
    end.

Fixpoint draws (m : nn_module) (s : list Z) : nat :=
  match m with
  | Dropout p =>
      if Qeq_bool p 0 || (numel s =? 0) || Qeq_bool p 1 then O else 1%nat
  | Sequential children =>
      seq_draws (fun c => draws c) (fun c => out_shape c true) children s
  | ConvLayer layer => draws layer s
  | TransBlock layer => draws layer s
  | _ => O
  end.

Lemma draws_cons m ms s :
  draws (Sequential (m :: ms)) s
  = (draws m s
     + match out_shape m true s with
       | Some s' => draws (Sequential ms) s'
       | None => O
       end)%nat.
Proof. reflexivity. Qed.

Lemma draws_nil s : draws (Sequential []) s = 0%nat.
Proof. reflexivity. Qed.

Lemma draws_arch m : forall s, draws (arch m) s = draws m s.
Proof.
  induction m as [cin cout k p w | c w b rm rv nbt | g c w b | | p | k st | k
                  | o | ms IH | l IH | l IH] using nn_module_tree_ind;
    intros s; try reflexivity; try (simpl; apply IH).
  revert s. induction IH as [| m ms Hm _ IH]; intros s; [reflexivity |].
  change (arch (Sequential (m :: ms))) with (Sequential (arch m :: map arch ms)).
  rewrite !draws_cons, Hm, out_shape_arch.
  destruct (out_shape m true s); [| reflexivity].
  f_equal. apply IH.
Qed.

(** A tree without [Dropout] draws nothing. *)
Lemma draws_no_rng m : forall s, uses_rng m = false -> draws m s = 0%nat.
Proof.
  induction m as [cin cout k p w | c w b rm rv nbt | g c w b | | p | k st | k
                  | o | ms IH | l IH | l IH] using nn_module_tree_ind;
    intros s U; try reflexivity; try discriminate U; try (simpl; apply IH; exact U).
  revert s. induction IH as [| m ms Hm _ IH]; intros s; [reflexivity |].
  simpl in U. apply orb_false_elim in U as [U1 U2].
  rewrite draws_cons, (Hm s U1).
  destruct (out_shape m true s); [| reflexivity]. apply IH. exact U2.
Qed.

Lemma sub_locs (f : nn_module -> list nat) :
  (forall m, match m with
             | Sequential ms => f m = flat_map f ms
             | ConvLayer l | TransBlock l => f m = f l
             | _ => forall l, In l (f m) -> In l (locs m)
             end) ->
  forall m l, In l (f m) -> In l (locs m).
Proof.
  intros Hf m.
  induction m as [cin cout k p w | c w b rm rv nbt | g c w b | | p | k st | k
                  | o | ms IH | l' IH | l' IH] using nn_module_tree_ind;
    intros l Hl;
    try (apply (Hf (Conv2d cin cout k p w)); exact Hl);
    try (apply (Hf (BatchNorm2d c w b rm rv nbt)); exact Hl);
    try (apply (Hf (GroupNorm g c w b)); exact Hl);
    try (apply (Hf ReLU); exact Hl);
    try (apply (Hf (Dropout p)); exact Hl);
    try (apply (Hf (MaxPool2d k st)); exact Hl);
    try (apply (Hf (AvgPool2d k)); exact Hl);
    try (apply (Hf (AdaptiveAvgPool2d o)); exact Hl).
  - rewrite (Hf (Sequential ms)) in Hl. simpl.
    apply in_flat_map in Hl as (m & Hm & Hl). apply in_flat_map. exists m.
    split; [exact Hm |]. rewrite Forall_forall in IH. apply IH; [| exact Hl].
    apply list_elem_of_In. exact Hm.
  - rewrite (Hf (ConvLayer l')) in Hl. simpl. apply IH. exact Hl.
  - rewrite (Hf (TransBlock l')) in Hl. simpl. apply IH. exact Hl.
Qed.

Lemma parameter_locs_locs m l : In l (parameter_locs m) -> In l (locs m).
Proof.
  apply sub_locs. intros []; try reflexivity; simpl; tauto.
Qed.

Lemma buffer_locs_locs m l : In l (buffer_locs m) -> In l (locs m).
Proof.
  apply sub_locs. intros []; try reflexivity; simpl; tauto.
Qed.

Lemma counter_locs_locs m l : In l (counter_locs m) -> In l (locs m).
Proof.
  apply sub_locs. intros []; try reflexivity; simpl; tauto.
Qed.

(** In a tree without shared tensors no parameter is a buffer. *)
Lemma parameter_not_buffer m :
  NoDup (locs m) -> forall l, In l (parameter_locs m) -> ~ In l (buffer_locs m).
Proof.
  induction m as [cin cout k p w | c w b rm rv nbt | g c w b | | p | k st | k
                  | o | ms IH | l' IH | l' IH] using nn_module_tree_ind;
    intros N l Hp Hb; simpl in *; try contradiction; try (eapply IH; eassumption).
  - apply NoDup5 in N as (? & ? & ? & ? & ? & ? & ? & ? & ? & ?).
    destruct Hp as [<- | [<- | []]]; destruct Hb as [E | [E | [E | []]]];
      congruence.
  - induction IH as [| m ms Hm _ IHms]; simpl in *; [contradiction |].
    apply NoDup_app in N as (N1 & D & N2).
    apply in_app_or in Hp as [Hp | Hp]; apply in_app_or in Hb as [Hb | Hb].
    + exact (Hm N1 l Hp Hb).
    + apply (D l).
      * apply list_elem_of_In, parameter_locs_locs. exact Hp.
      * apply list_elem_of_In.
        apply (buffer_locs_locs (Sequential ms)). exact Hb.
    + apply (D l).
      * apply list_elem_of_In, buffer_locs_locs. exact Hb.
      * apply list_elem_of_In.
        apply (parameter_locs_locs (Sequential ms)). exact Hp.
    + exact (IHms N2 Hp Hb).
Qed.

Section TrainingEffects.
Context `{K : Kernels}.

(** A call writes to buffers only. *)
Lemma call_frame_buffers training m :
  forall x s, frame (buffer_locs m) s (call m training x s).2.
Proof.
  induction m as [cin cout k p w | c w b rm rv nbt | g c w b | | p | k st | k
                  | o | ms IH | l IH | l IH] using nn_module_tree_ind;
    intros x s;
    try (intros l' _; rewrite call_keeps_cells by (right; reflexivity);
         reflexivity).
  - simpl. unfold BatchNorm2d_forward. run. simpl.
    repeat next_cond; solve_frame.
  - change (call (Sequential ms) training x s)
      with (run_seq (fun c => call c training) ms x s).
    revert x s. induction IH as [| m ms Hm _ IHms]; intros x s.
    + apply frame_refl.
    + rewrite run_seq_cons. specialize (Hm x s).
      destruct (call m training x s) as [[a | e] s1]; simpl in Hm.
      * apply (frame_trans (buffer_locs m) (buffer_locs (Sequential ms)) _ s s1);
          [exact Hm | apply IHms | |]; simpl; intros l Hl; apply in_or_app; auto.
      * eapply frame_weaken; [exact Hm |].
        simpl. intros l Hl. apply in_or_app. auto.
  - simpl. rewrite bind_ret_r. apply IH.
  - simpl. rewrite bind_ret_r. apply IH.
Qed.

Lemma forward_frame_buffers i training x s :
  frame (buffer_locs (Sequential (forward_path i))) s (forward i training x s).2.
Proof.
  rewrite forward_unfold.
  pose proof (call_frame_buffers training (Sequential (forward_path i)) x s) as F.
  destruct (call (Sequential (forward_path i)) training x s) as [[a | e] s1] eqn:E.
  - rewrite (bind_step _ _ _ _ _ E).
    destruct (tail_store_only a (softmax_dim i) s1 s1) as (_ & T & _).
    cbv zeta in T. intros l Hl. rewrite T. apply F. exact Hl.
  - rewrite (bind_fail _ _ _ _ _ E). exact F.
Qed.

Lemma iter_next (f : Z -> Z) a b r :
  Nat.iter b f (Nat.iter a f r) = Nat.iter (a + b) f r.
Proof. rewrite Nat.add_comm. symmetry. apply Nat.iter_add. Qed.

(** A successful call in training mode draws [draws m] times. *)
Lemma call_draws m :
  forall x s y s',
    call m true x s = (Ok y, s') ->
    rng s' = Nat.iter (draws m (t_shape x)) k_next_rng (rng s).
Proof.
  induction m as [cin cout k p w | c w b rm rv nbt | g c w b | | p | k st | k
                  | o | ms IH | l IH | l IH] using nn_module_tree_ind;
    intros x s y s' H;
    try (change (rng s' = rng s);
         change s' with (Ok y, s').2; rewrite <- H;
         apply call_keeps_rng; right; reflexivity).
  - simpl in H. unfold F_dropout in H. run_in H. simpl in H. simpl.
    destruct (Qeq_bool p 0); simpl in *; [inversion H; subst; reflexivity |].
    destruct (numel (t_shape x) =? 0); simpl in *;
      [inversion H; subst; reflexivity |].
    destruct (Qeq_bool p 1); inversion H; subst; reflexivity.
  - change (call (Sequential ms) true x s)
      with (run_seq (fun c => call c true) ms x s) in H.
    revert x s H. induction IH as [| m ms Hm _ IHms]; intros x s H.
    + inversion H; subst. reflexivity.
    + rewrite run_seq_cons in H.
      destruct (call m true x s) as [[a | e] s1] eqn:E; [| discriminate H].
      pose proof (call_post_holds true m _ _ _ _ E) as (_ & _ & S & _).
      apply IHms in H. apply Hm in E. rewrite H, E, draws_cons, S.
      apply iter_next.
  - simpl in H. rewrite bind_ret_r in H. apply IH in H. exact H.
  - simpl in H. rewrite bind_ret_r in H. apply IH in H. exact H.
Qed.

Lemma forward_draws i x s y s' :
  forward i true x s = (Ok y, s') ->
  rng s' = Nat.iter (draws (Sequential (forward_path i)) (t_shape x))
             k_next_rng (rng s).
Proof.
  rewrite forward_unfold. intros H.
  apply bind_Ok in H as (a & sa & Ha & H).
  apply bind_Ok in H as (b & sb & Hb & H).
  apply Tensor_view_inv in Hb as (_ & Rb & _).
  apply F_log_softmax_inv in H as (_ & Ry & _).
  rewrite Ry, Rb. apply (call_draws _ _ _ _ _ Ha).
Qed.

(** A successful call in training mode adds one to every batch counter. *)
Lemma call_counts m :
  forall x s y s',
    call m true x s = (Ok y, s') ->
    NoDup (locs m) -> allocated s m ->
    forall l, In l (counter_locs m) ->
      forall idx, t_at (cells s' !!! l) idx = (t_at (cells s !!! l) idx + 1)%R.
Proof.
  induction m as [cin cout k p w | c w b rm rv nbt | g c w b | | p | k st | k
                  | o | ms IH | l' IH | l' IH] using nn_module_tree_ind;
    intros x s y s' H N A l Hl idx; simpl in Hl; try contradiction.
  - destruct Hl as [<- | []].
    apply NoDup5 in N as (? & ? & ? & ? & ? & ? & ? & ? & ? & ?).
    unfold allocated in A. simpl in A.
    repeat match goal with
           | H : Forall _ (_ :: _) |- _ => apply Forall_cons in H as [? H]
           end.
    simpl in H. unfold BatchNorm2d_forward in H. run_in H. simpl in H.
    repeat split_cond H; inversion H; subst; clear H. simpl.
    norm_lookups. reflexivity.
  - change (call (Sequential ms) true x s)
      with (run_seq (fun c => call c true) ms x s) in H.
    revert x s H A. induction IH as [| m ms Hm _ IHms]; intros x s H A;
      [contradiction |].
    rewrite run_seq_cons in H.
    destruct (call m true x s) as [[a | e] s1] eqn:E; [| discriminate H].
    simpl in N. apply NoDup_app in N as (N1 & D & N2).
    unfold allocated in A. simpl in A. apply Forall_app in A as [A1 A2].
    pose proof (call_post_holds true m _ _ _ _ E) as (M1 & F1 & _).
    change (run_seq (fun c => call c true) ms a s1)
      with (call (Sequential ms) true a s1) in H.
    pose proof (call_post_holds true _ _ _ _ _ H) as (_ & F2 & _).
    simpl in Hl. apply in_app_or in Hl as [Hl | Hl].
    + rewrite <- (Hm x s a s1 E N1 A1 l Hl idx).
      rewrite !list_lookup_total_alt, (F2 l); [reflexivity |].
      intros Hl2. apply (D l); apply list_elem_of_In; [| exact Hl2].
      apply counter_locs_locs. exact Hl.
    + assert (Hnot : ~ In l (locs m)).
      { intros Hl1. apply (D l); apply list_elem_of_In; [exact Hl1 |].
        apply (counter_locs_locs (Sequential ms)). exact Hl. }
      rewrite (IHms N2 Hl a s1 H (allocated_same_meta _ _ (Sequential ms) M1 A2)).
      rewrite !list_lookup_total_alt, (F1 l Hnot). reflexivity.
  - simpl in H. rewrite bind_ret_r in H. eapply IH; eauto.
  - simpl in H. rewrite bind_ret_r in H. eapply IH; eauto.
Qed.

End TrainingEffects.

Lemma constructed_NoDup `{K : Kernels} v s0 i s1 :
  construct v s0 = (Ok i, s1) -> NoDup (locs (Sequential (forward_path i))).
Proof.
  intros Hc. rewrite (constructed_forward_path _ _ _ _ Hc).
  apply construct_post_holds in Hc as (_ & _ & _ & _ & N). exact N.
Qed.

Lemma constructed_allocated `{K : Kernels} v s0 i s1 s :
  construct v s0 = (Ok i, s1) -> same_meta s1 s ->
  allocated s (Sequential (forward_path i)).
Proof.
  intros Hc M. rewrite (constructed_forward_path _ _ _ _ Hc).
  apply construct_post_holds in Hc as (_ & _ & _ & B & _).
  apply built_Sequential in B. apply (allocated_later _ _ _ _ B).
  apply same_meta_length in M. lia.
Qed.

Lemma constructed_arch `{K : Kernels} v s0 i s1 :
  construct v s0 = (Ok i, s1) ->
  arch (Sequential (forward_path i)) = Sequential (variant_arch v).
Proof.
  intros Hc. rewrite (constructed_forward_path _ _ _ _ Hc).
  apply construct_post_holds in Hc as (_ & _ & A & _).
  simpl. rewrite A. reflexivity.
Qed.

(** X2.  [forward] never changes a trainable parameter: for an instance a
    constructor returned, in training or evaluation mode, on any input and
    from any store, whether the call returns or raises, every weight and
    bias holds afterwards what it held before. *)
Theorem forward_keeps_parameters `{K : Kernels} v s0 i s1 training x s :
  construct v s0 = (Ok i, s1) ->
  forall l, In l (parameter_locs (Sequential (children i))) ->
    cells (forward i training x s).2 !! l = cells s !! l.
Proof.
  intros Hc l Hl.
  pose proof (constructed_NoDup _ _ _ _ Hc) as N.
  rewrite <- (constructed_forward_path _ _ _ _ Hc) in Hl.
  apply forward_frame_buffers.
  apply (parameter_not_buffer _ N). exact Hl.
Qed.

Lemma forward_keeps_parameters_witness :
  cells (@forward zero_kernels Model_0 true (constant_image [1; 3; 8; 8] 1)
           state_Model_0).2 !! 0%nat
  = cells state_Model_0 !! 0%nat.
Proof.
  apply (@forward_keeps_parameters zero_kernels (VModel BATCH) state0 Model_0
           state_Model_0 true (constant_image [1; 3; 8; 8] 1) state_Model_0).
  - vm_compute. reflexivity.
  - vm_compute. tauto.
Defined.

(** X3.  What training mode leaves alone.  Session_7_Model_2 and
    Session_7_Model_3 have no dropout: their [forward] never draws from the
    random generator.  [Model] with layer or group normalisation has no
    buffers: its [forward] changes no tensor at all. *)
Theorem forward_training_leaves_alone `{K : Kernels} v s0 i s1 training x s :
  construct v s0 = (Ok i, s1) ->
  (v = VSession_7_Model_2 \/ v = VSession_7_Model_3 ->
   rng (forward i training x s).2 = rng s)
  /\ (v = VModel LAYER \/ v = VModel GROUP ->
      cells (forward i training x s).2 = cells s).
Proof.
  intros Hc. pose proof (constructed_arch _ _ _ _ Hc) as A. split; intros Hv.
  - apply forward_keeps_rng. right.
    rewrite <- uses_rng_arch, A. destruct Hv as [-> | ->]; reflexivity.
  - apply forward_keeps_cells. right.
    rewrite <- has_batch_norm_arch, A. destruct Hv as [-> | ->]; reflexivity.
Qed.

Lemma forward_training_leaves_alone_witness :
  rng (@forward zero_kernels S7M2_0 true (constant_image [3; 1; 28; 28] 0)
         state_S7M2_0).2
  = rng state_S7M2_0.
Proof.
  apply (@forward_training_leaves_alone zero_kernels VSession_7_Model_2 state0
           S7M2_0 state_S7M2_0 true (constant_image [3; 1; 28; 28] 0) state_S7M2_0).
  - vm_compute. reflexivity.
  - left. reflexivity.
Defined.

(** X5.  A [forward] that returns in training mode has added one to the
    batch counter ([num_batches_tracked]) of every [BatchNorm2d] of the
    instance. *)
Theorem forward_training_counts_batch `{K : Kernels} v s0 i s1 x s y s' :
  construct v s0 = (Ok i, s1) -> same_meta s1 s ->
  forward i true x s = (Ok y, s') ->
  forall l, In l (counter_locs (Sequential (children i))) ->
    forall idx, t_at (cells s' !!! l) idx = (t_at (cells s !!! l) idx + 1)%R.
Proof.
  intros Hc M H l Hl idx.
  pose proof (constructed_NoDup _ _ _ _ Hc) as N.
  pose proof (constructed_allocated _ _ _ _ _ Hc M) as A.
  rewrite <- (constructed_forward_path _ _ _ _ Hc) in Hl.
  rewrite forward_unfold in H.
  apply bind_Ok in H as (a & sa & Ha & H).
  apply bind_Ok in H as (b & sb & Hb & H).
  apply Tensor_view_inv in Hb as (Cb & _).
  apply F_log_softmax_inv in H as (Cy & _).
  rewrite Cy, Cb. exact (call_counts _ _ _ _ _ Ha N A l Hl idx).
Qed.

Lemma forward_training_counts_batch_witness :
  t_at (cells run_28x28.2 !!! 5%nat) [] = (t_at (cells state_S7M2_0 !!! 5%nat) [] + 1)%R.
Proof.
  apply (@forward_training_counts_batch zero_kernels VSession_7_Model_2 state0
           S7M2_0 state_S7M2_0 (constant_image [3; 1; 28; 28] 0) state_S7M2_0
           (output_of run_28x28) run_28x28.2).
  - vm_compute. reflexivity.
  - apply same_meta_refl.
  - vm_compute. reflexivity.
  - vm_compute. tauto.
Defined.

(* ===================================================================== *)
(** * Which inputs [forward] accepts                                       *)
(* ===================================================================== *)

Lemma same_meta_sym s s' : same_meta s s' -> same_meta s' s.
Proof.
  intros [L H]. split; [congruence |].
  intros l. destruct (H l) as [A B]. split; congruence.
Qed.

Lemma weight_locs_arch_length m :
  length (weight_locs (arch m)) = length (weight_locs m).
Proof.
  induction m as [cin cout k p w | c w b rm rv nbt | g c w b | | p | k st | k
                  | o | ms IH | l IH | l IH] using nn_module_tree_ind;
    try reflexivity; try (simpl; exact IH).
  simpl. induction IH as [| m ms Hm _ IH]; [reflexivity |].
  simpl. rewrite !length_app, Hm. f_equal. exact IH.
Qed.

Section Accepts.
Context `{K : Kernels}.

(** A call that returns has found every weight of the element type of its
    input. *)
Lemma call_Ok_params_dtype training m :
  forall x s y s',
    call m training x s = (Ok y, s') -> params_dtype s m (t_dtype x).
Proof.
  induction m as [cin cout k p w | c w b rm rv nbt | g c w b | | p | k st | k
                  | o | ms IH | l IH | l IH] using nn_module_tree_ind;
    intros x s y s' H; unfold params_dtype; simpl;
    try (constructor; fail).
  - simpl in H. unfold F_conv2d in H. run_in H. simpl in H.
    repeat split_cond H; inversion H; subst; clear H.
    apply negb_false_iff, dtype_eqb_eq in E. repeat constructor. congruence.
  - simpl in H. unfold BatchNorm2d_forward in H. run_in H. simpl in H.
    repeat split_cond H; inversion H; subst; clear H;
      match goal with
      | E : negb (dtype_eqb _ _) = false |- _ =>
          apply negb_false_iff, dtype_eqb_eq in E
      end;
      repeat constructor; [| congruence].
    match goal with E : t_dtype x = _ |- _ => rewrite E end. symmetry.
    apply same_meta_cells_dtype, insert_same_meta;
      [apply same_meta_cells_refl | reflexivity | reflexivity].
  - simpl in H. unfold F_group_norm in H. run_in H. simpl in H.
    repeat split_cond H; inversion H; subst; clear H.
    match goal with
    | E : negb (dtype_eqb _ _) = false |- _ =>
        apply negb_false_iff, dtype_eqb_eq in E
    end.
    repeat constructor. congruence.
  - change (call (Sequential ms) training x s)
      with (run_seq (fun c => call c training) ms x s) in H.
    change (params_dtype s (Sequential ms) (t_dtype x)).
    revert x s H. induction IH as [| m ms Hm _ IHms]; intros x s H.
    + constructor.
    + rewrite run_seq_cons in H.
      destruct (call m training x s) as [[a | e] s1] eqn:E; [| discriminate H].
      pose proof (call_post_holds training m _ _ _ _ E) as (M & _ & _ & D & _).
      apply IHms in H. rewrite D in H.
      apply (params_dtype_same_meta _ _ _ _ (same_meta_sym _ _ M)) in H.
      unfold params_dtype in *. simpl. apply Forall_app. split; [| exact H].
      exact (Hm _ _ _ _ E).
  - simpl in H. rewrite bind_ret_r in H. exact (IH _ _ _ _ H).
  - simpl in H. rewrite bind_ret_r in H. exact (IH _ _ _ _ H).
Qed.

(** An instance a constructor returned has float32 weights, so its
    [forward] returns on float32 inputs only. *)
Lemma forward_Ok_float32 v s0 i s1 s training x y s' :
  construct v s0 = (Ok i, s1) -> same_meta s1 s ->
  forward i training x s = (Ok y, s') -> t_dtype x = Float32.
Proof.
  intros Hc M H.
  pose proof (constructed_params_dtype _ _ _ _ _ Hc M) as P32.
  pose proof (constructed_arch _ _ _ _ Hc) as A.
  rewrite forward_unfold in H. apply bind_Ok in H as (a & sa & Ha & _).
  apply call_Ok_params_dtype in Ha.
  assert (L : (0 < length (weight_locs (Sequential (forward_path i))))%nat).
  { rewrite <- weight_locs_arch_length, A.
    pose proof (construct_post_holds _ _ _ _ Hc) as (_ & Hof & Hch & _).
    destruct v as [[] | | | |]; simpl; try lia;
      destruct i as [self | self | self | self | self]; try contradiction;
      destruct self; discriminate Hch. }
  unfold params_dtype in *.
  destruct (weight_locs (Sequential (forward_path i))) as [| l ls];
    [simpl in L; lia |].
  apply Forall_cons in Ha as [Ha _]. apply Forall_cons in P32 as [P32 _].
  congruence.
Qed.

End Accepts.

(** ** What the shape rules demand *)

Lemma conv2d_shape_Some cin cout k p n c h w s' :
  conv2d_shape cin cout k p [n; c; h; w] = Some s' ->
  c = cin /\ 0 <= p /\ k.1 <= h + 2 * p /\ k.2 <= w + 2 * p
  /\ 0 < cout /\ (n = 0 \/ cin = 0 \/ (0 < h /\ 0 < w))
  /\ s' = [n; if cin =? 0 then 0 else cout;
           h + 2 * p - k.1 + 1; w + 2 * p - k.2 + 1].
Proof.
  unfold conv2d_shape. destruct (_ && _) eqn:E; [| discriminate].
  intros [= <-].
  apply andb_true_iff in E as [E E6]. apply andb_true_iff in E as [E E5].
  apply andb_true_iff in E as [E E4]. apply andb_true_iff in E as [E E3].
  apply andb_true_iff in E as [E1 E2].
  apply Z.eqb_eq in E3. subst c. apply Z.leb_le in E1, E4, E5.
  apply Z.ltb_lt in E2.
  repeat (split; [assumption || reflexivity |]).
  split; [| reflexivity].
  apply orb_prop in E6 as [E6 | E6]; [apply orb_prop in E6 as [E6 | E6] |].
  - left. apply Z.eqb_eq. exact E6.
  - right. left. apply Z.eqb_eq. exact E6.
  - right. right. apply andb_prop in E6 as [A B].
    split; apply Z.ltb_lt; assumption.
Qed.

Lemma pool2d_shape_Some k st n c h w s' :
  pool2d_shape k st [n; c; h; w] = Some s' ->
  0 < k /\ 0 < st /\ k <= h /\ k <= w /\ 0 < c
  /\ s' = [n; c; (h - k) / st + 1; (w - k) / st + 1].
Proof.
  unfold pool2d_shape. destruct (_ && _) eqn:E; [| discriminate].
  intros [= <-].
  apply andb_true_iff in E as [E E5].
  apply andb_true_iff in E as [E E4]. apply andb_true_iff in E as [E E3].
  apply andb_true_iff in E as [E1 E2].
  apply Z.ltb_lt in E1, E2, E3. apply Z.leb_le in E4, E5. auto 7.
Qed.

Lemma norm_shape_Some nm c training s s' :
  out_shape (norm_arch nm c) training s = Some s' -> s' = s.
Proof.
  destruct nm; simpl; intros H.
  - apply batch_norm2d_shape_Some in H as [-> _]. reflexivity.
  - apply group_norm_shape_Some in H as [-> _]. reflexivity.
  - apply group_norm_shape_Some in H as [-> _]. reflexivity.
Qed.

(** A normalisation layer wants its number of channels. *)
Lemma norm_shape_channels nm c training n c' rest s' :
  out_shape (norm_arch nm c) training (n :: c' :: rest) = Some s' -> c' = c.
Proof.
  destruct nm; simpl; intros H.
  - apply batch_norm2d_shape_Some in H as (_ & _ & _ & H).
    apply Z.eqb_eq. exact H.
  - apply group_norm_shape_Some in H as (_ & _ & _ & H).
    apply Z.eqb_eq. exact H.
  - apply group_norm_shape_Some in H as (_ & _ & _ & H).
    apply Z.eqb_eq. exact H.
Qed.

(** [ConvLayer]: there must be channels, those of the input must match,
    and the padded image must cover the 3x3 kernel. *)
Lemma ConvLayer_shape_Some nm cin cout p training n c h w s' :
  out_shape (ConvLayer_arch cin cout p nm) training [n; c; h; w] = Some s' ->
  c = cin /\ 0 <= p /\ 3 <= h + 2 * p /\ 3 <= w + 2 * p
  /\ s' = [n; cout; h + 2 * p - 2; w + 2 * p - 2]
  /\ cin <> 0 /\ 0 < cout /\ (n = 0 \/ (0 < h /\ 0 < w)).
Proof.
  unfold ConvLayer_arch.
  change (out_shape (ConvLayer ?l) training ?s) with (out_shape l training s).
  rewrite out_shape_cons. case_shape E1.
  apply conv2d_shape_Some in E1 as (-> & Hp & Hh & Hw & Ho & He & ->).
  rewrite out_shape_cons. case_shape E2.
  pose proof (norm_shape_channels _ _ _ _ _ _ _ E2) as Hc.
  apply norm_shape_Some in E2 as ->.
  intros H. injection H as <-. simpl in Hh, Hw.
  assert (Hi : cin <> 0).
  { intros ->. simpl in Hc. lia. }
  apply Z.eqb_neq in Hi. rewrite Hi. apply Z.eqb_neq in Hi.
  split; [reflexivity |]. split; [exact Hp |].
  split; [exact Hh |]. split; [exact Hw |].
  split; [simpl; repeat f_equal; lia |].
  split; [exact Hi |]. split; [exact Ho |].
  destruct He as [He | [He | He]]; [left; exact He | contradiction | right; exact He].
Qed.

(** [TransBlock]: there must be channels, those of the input must match,
    and the image must cover the 2x2 pooling window. *)
Lemma TransBlock_shape_Some cin cout training n c h w s' :
  out_shape (TransBlock_arch cin cout) training [n; c; h; w] = Some s' ->
  c = cin /\ 2 <= h /\ 2 <= w /\ s' = [n; cout; h / 2; w / 2]
  /\ cin <> 0 /\ 0 < cout.
Proof.
  unfold TransBlock_arch.
  change (out_shape (TransBlock ?l) training ?s) with (out_shape l training s).
  rewrite out_shape_cons. case_shape E1.
  apply conv2d_shape_Some in E1 as (-> & _ & _ & _ & Ho & _ & ->).
  rewrite out_shape_cons. case_shape E2.
  apply pool2d_shape_Some in E2 as (_ & _ & Hh & Hw & Hc & ->).
  intros H. injection H as <-. simpl in Hh, Hw.
  assert (Hi : cin <> 0).
  { intros ->. simpl in Hc. lia. }
  apply Z.eqb_neq in Hi. rewrite Hi. apply Z.eqb_neq in Hi.
  repeat split; try lia. simpl. repeat f_equal; zlia.
Qed.

Lemma out_shape_nested training l rest s :
  out_shape (Sequential (Sequential l :: rest)) training s
  = out_shape (Sequential (l ++ rest)) training s.
Proof. rewrite out_shape_cons, out_shape_app. reflexivity. Qed.

(** [Model] wants 3 channels and an image of at least 8x8: each of the
    three max-pools must find a 2x2 window. *)
Lemma Model_shape_Some nm training n c h w s' :
  out_shape (Sequential (Model_arch nm)) training [n; c; h; w] = Some s' ->
  c = 3 /\ 8 <= h /\ 8 <= w.
Proof.
  unfold Model_arch. rewrite out_shape_nested. cbn [app].
  do 3 (rewrite out_shape_cons;
        let E := fresh "E" in
        case_shape E;
        first [ apply ConvLayer_shape_Some in E as (? & ? & ? & ? & ? & _)
              | apply TransBlock_shape_Some in E as (? & ? & ? & ? & _) ];
        subst).
  rewrite out_shape_nested. cbn [app].
  do 4 (rewrite out_shape_cons;
        let E := fresh "E" in
        case_shape E;
        first [ apply ConvLayer_shape_Some in E as (? & ? & ? & ? & ? & _)
              | apply TransBlock_shape_Some in E as (? & ? & ? & ? & _) ];
        subst).
  rewrite out_shape_nested. cbn [app].
  do 4 (rewrite out_shape_cons;
        let E := fresh "E" in
        case_shape E;
        first [ apply ConvLayer_shape_Some in E as (? & ? & ? & ? & ? & _)
              | apply TransBlock_shape_Some in E as (? & ? & ? & ? & _) ];
        subst).
  intros _. split; [reflexivity |]. split; zlia.
Qed.

Lemma conv_relu_bn_shape_Some cin cout k1 k2 training n c h w s' :
  cin <> 0 ->
  out_shape (conv_relu_bn_arch cin cout (k1, k2) 0) training [n; c; h; w] = Some s' ->
  c = cin /\ k1 <= h /\ k2 <= w /\ s' = [n; cout; h - k1 + 1; w - k2 + 1].
Proof.
  intros Hi H. pose proof (conv_relu_bn_shape_inv _ _ _ _ _ _ _ _ _ _ Hi H) as ->.
  revert H. unfold conv_relu_bn_arch. rewrite out_shape_cons. case_shape E1.
  apply conv2d_shape_Some in E1 as (-> & _ & Hh & Hw & _). simpl in Hh, Hw.
  intros _. repeat split; lia.
Qed.

Lemma conv_only_shape_Some cin cout k1 k2 training n c h w s' :
  cin <> 0 ->
  out_shape (conv_only_arch cin cout (k1, k2) 0) training [n; c; h; w] = Some s' ->
  c = cin /\ k1 <= h /\ k2 <= w /\ s' = [n; cout; h - k1 + 1; w - k2 + 1].
Proof.
  intros Hi H. pose proof (conv_only_shape_inv _ _ _ _ _ _ _ _ _ _ Hi H) as ->.
  revert H. unfold conv_only_arch. rewrite out_shape_cons. case_shape E1.
  apply conv2d_shape_Some in E1 as (-> & _ & Hh & Hw & _). simpl in Hh, Hw.
  intros _. repeat split; lia.
Qed.

(** Session_7_Model_2 and _3 want 1 channel and an image of at least
    28x28: the last convolution must find a 2x2 window. *)
Lemma Session_7_shape_Some training n c h w s' :
  out_shape (Sequential Session_7_arch) training [n; c; h; w] = Some s' ->
  c = 1 /\ 28 <= h /\ 28 <= w.
Proof.
  unfold Session_7_arch.
  repeat (rewrite out_shape_cons;
          let E := fresh "E" in
          case_shape E;
          first [ apply conv_relu_bn_shape_Some in E as (? & ? & ? & ?); [| lia]
                | apply conv_only_shape_Some in E as (? & ? & ? & ?); [| lia]
                | apply pool2d_shape_Some in E as (? & ? & ? & ? & _ & ?) ];
          subst).
  intros _. split; [reflexivity |]. split; zlia.
Qed.

Lemma conv_relu_bn_shape cin cout training n h w :
  1 <= cin -> 1 <= cout -> 1 <= n -> 4 <= h -> 3 <= w ->
  out_shape (conv_relu_bn_arch cin cout (3, 3) 0) training [n; cin; h; w]
  = Some [n; cout; h - 2; w - 2].
Proof.
  intros Hi Ho Hn Hh Hw. unfold conv_relu_bn_arch. rewrite out_shape_cons.
  change (out_shape (Conv2d cin cout (3, 3) 0 O) training [n; cin; h; w])
    with (conv2d_shape cin cout (3, 3) 0 [n; cin; h; w]).
  rewrite (conv2d_shape_ok _ _ _ _ _ _ _ _ (h - 2) (w - 2)) by lia.
  rewrite out_shape_cons.
  change (out_shape ReLU training ?s) with (Some s). cbv beta iota.
  rewrite out_shape_cons.
  change (out_shape (BatchNorm2d cout O O O O O) training ?s)
    with (batch_norm2d_shape cout training s).
  unfold batch_norm2d_shape. simpl bn_check_input_dim. simpl bn_check_channels.
  rewrite verify_batch_size_4d, Z.eqb_refl by lia. rewrite orb_true_r.
  reflexivity.
Qed.

Lemma conv_only_shape cin cout k1 k2 training n h w :
  1 <= cin -> 1 <= cout -> 1 <= h -> 1 <= w -> k1 <= h -> k2 <= w ->
  out_shape (conv_only_arch cin cout (k1, k2) 0) training [n; cin; h; w]
  = Some [n; cout; h - k1 + 1; w - k2 + 1].
Proof.
  intros Hi Ho Hh1 Hw1 Hh Hw. unfold conv_only_arch. rewrite out_shape_cons.
  change (out_shape (Conv2d cin cout (k1, k2) 0 O) training [n; cin; h; w])
    with (conv2d_shape cin cout (k1, k2) 0 [n; cin; h; w]).
  rewrite (conv2d_shape_ok _ _ _ _ _ _ _ _ (h - k1 + 1) (w - k2 + 1)) by lia.
  reflexivity.
Qed.

Lemma Session_7_shape training n h w :
  1 <= n -> 28 <= h -> 28 <= w ->
  out_shape (Sequential Session_7_arch) training [n; 1; h; w]
  = Some [n; 10; Session_7_last h; Session_7_last w].
Proof.
  intros Hn Hh Hw. unfold Session_7_arch, Session_7_last.
  rewrite out_shape_cons, conv_relu_bn_shape by lia.
  rewrite out_shape_cons, conv_relu_bn_shape by lia.
  rewrite out_shape_cons, conv_only_shape by lia.
  rewrite out_shape_cons.
  change (out_shape (MaxPool2d 2 2) training ?s) with (pool2d_shape 2 2 s).
  rewrite (pool2d_shape_ok 2 2 _ _ _ _ ((h - 4) / 2) ((w - 4) / 2)) by zlia.
  do 5 (rewrite out_shape_cons, conv_relu_bn_shape by zlia).
  rewrite out_shape_cons, conv_only_shape by zlia.
  rewrite out_shape_nil. repeat f_equal; lia.
Qed.

(** The channels and the least image size an architecture wants. *)
Definition wanted (v : variant) (c h w : Z) : Prop :=
  match v with
  | VModel _ => c = 3 /\ 8 <= h /\ 8 <= w
  | VSession_7_Model_2 | VSession_7_Model_3 => c = 1 /\ 28 <= h /\ 28 <= w
  | Vsession_6_Model | VSession_7_Model_1 => False
  end.

Lemma forward_Ok_wanted `{K : Kernels} v s0 i s1 s training x n c h w y s' :
  construct v s0 = (Ok i, s1) -> t_shape x = [n; c; h; w] ->
  forward i training x s = (Ok y, s') -> wanted v c h w.
Proof.
  intros Hc Hx H.
  pose proof (constructed_arch _ _ _ _ Hc) as A.
  pose proof (forward_post_holds _ _ _ _ _ _ H) as (_ & _ & S & _).
  unfold forward_shape in S. rewrite Hx in S.
  destruct (out_shape _ training [n; c; h; w]) as [s2 |] eqn:E; [| discriminate S].
  rewrite <- out_shape_arch, A in E.
  pose proof (construct_post_holds _ _ _ _ Hc) as (_ & Hof & Hch & _).
  destruct v as [nm | | | |].
  - exact (Model_shape_Some _ _ _ _ _ _ _ E).
  - destruct i as [self | self | self | self | self]; try contradiction.
    destruct self; discriminate Hch.
  - destruct i as [self | self | self | self | self]; try contradiction.
    destruct self; discriminate Hch.
  - exact (Session_7_shape_Some _ _ _ _ _ _ E).
  - exact (Session_7_shape_Some _ _ _ _ _ _ E).
Qed.

(** X6.  [forward] of a constructed instance returns only on a float32
    input with the channels and the least image size its architecture
    wants: 3 channels and 8x8 for [Model], 1 channel and 28x28 for
    Session_7_Model_2 and Session_7_Model_3.  On every other 4-D input it
    raises, and the exception is the library's. *)
Theorem forward_returns_only_on `{K : Kernels}
    v s0 i s1 s training x n c h w :
  construct v s0 = (Ok i, s1) -> same_meta s1 s ->
  t_shape x = [n; c; h; w] ->
  (forall y s', forward i training x s = (Ok y, s') ->
     t_dtype x = Float32 /\ wanted v c h w)
  /\ (~ (t_dtype x = Float32 /\ wanted v c h w) ->
      exists e s', forward i training x s = (Raise e, s')
                   /\ exn_origin e = Library).
Proof.
  intros Hc M Hx.
  assert (Hok : forall y s', forward i training x s = (Ok y, s') ->
                             t_dtype x = Float32 /\ wanted v c h w).
  { intros y s' H. split.
    - exact (forward_Ok_float32 _ _ _ _ _ _ _ _ _ Hc M H).
    - exact (forward_Ok_wanted _ _ _ _ _ _ _ _ _ _ _ _ _ Hc Hx H). }
  split; [exact Hok |].
  intros Hbad.
  destruct (forward i training x s) as [[y | e] s'] eqn:H.
  - exfalso. apply Hbad. exact (Hok y s' eq_refl).
  - exists e, s'. split; [reflexivity |].
    apply forward_post_holds in H as (_ & _ & O & _). exact O.
Qed.

Lemma forward_returns_only_on_witness :
  exists e s',
    @forward zero_kernels Model_0 true (constant_image [1; 3; 7; 8] 0) state_Model_0
    = (Raise e, s')
    /\ exn_origin e = Library.
Proof.
  apply (@forward_returns_only_on zero_kernels (VModel BATCH) state0 Model_0
           state_Model_0 state_Model_0 true (constant_image [1; 3; 7; 8] 0)
           1 3 7 8).
  - vm_compute. reflexivity.
  - apply same_meta_refl.
  - reflexivity.
  - intros [_ (_ & Hh & _)]. lia.
Defined.

(** X7.  Session_7_Model_2 and Session_7_Model_3 accept every float32 batch
    of at least one single-channel image of at least 28x28 pixels, in
    training and in evaluation mode, and return
    [n * ((h - 4) / 2 - 11) * ((w - 4) / 2 - 11)] rows of ten
    log-probabilities: [n] rows for 28x28 and 29x29 images, more beyond. *)
Theorem Session_7_forward_accepts `{K : Kernels}
    v s0 i s1 s training x n h w :
  v = VSession_7_Model_2 \/ v = VSession_7_Model_3 ->
  construct v s0 = (Ok i, s1) -> same_meta s1 s ->
  t_shape x = [n; 1; h; w] -> t_dtype x = Float32 ->
  1 <= n -> 28 <= h -> 28 <= w ->
  exists y s',
    forward i training x s = (Ok y, s')
    /\ t_shape y = [n * Session_7_last h * Session_7_last w; 10]
    /\ 1 <= Session_7_last h /\ 1 <= Session_7_last w
    /\ (h <= 29 -> w <= 29 -> t_shape y = [n; 10]).
Proof.
  intros Hv Hc M Hx Hd Hn Hh Hw.
  pose proof (constructed_arch _ _ _ _ Hc) as A.
  assert (Hfs : forward_shape i training (t_shape x)
                = Some [n * Session_7_last h * Session_7_last w; 10]).
  { unfold forward_shape. rewrite Hx, <- out_shape_arch, A.
    replace (variant_arch v) with Session_7_arch by (destruct Hv as [-> | ->]; reflexivity).
    rewrite Session_7_shape by assumption.
    assert (E : numel [n; 10; Session_7_last h; Session_7_last w]
                = n * Session_7_last h * Session_7_last w * 10)
      by (unfold numel; simpl; lia).
    rewrite E, infer_size_view, Z.mod_mul, Z.div_mul by lia. reflexivity. }
  destruct (forward_succeeds i training x s _ Hfs) as (y & s' & H & Sy).
  - rewrite Hd. exact (constructed_params_dtype _ _ _ _ _ Hc M).
  - rewrite Hd. reflexivity.
  - exists y, s'. split; [exact H |]. split; [exact Sy |].
    assert (L1 : 1 <= Session_7_last h) by (unfold Session_7_last; zlia).
    assert (L2 : 1 <= Session_7_last w) by (unfold Session_7_last; zlia).
    split; [exact L1 |]. split; [exact L2 |].
    intros Hh' Hw'. rewrite Sy.
    assert (E1 : Session_7_last h = 1) by (unfold Session_7_last in *; zlia).
    assert (E2 : Session_7_last w = 1) by (unfold Session_7_last in *; zlia).
    rewrite E1, E2. repeat f_equal. lia.
Qed.

Lemma Session_7_forward_accepts_witness :
  exists y s',
    @forward zero_kernels S7M3_0 true (constant_image [2; 1; 28; 28] 0) state_S7M3_0
    = (Ok y, s')
    /\ t_shape y = [2; 10].
Proof.
  destruct (@Session_7_forward_accepts zero_kernels VSession_7_Model_3 state0
              S7M3_0 state_S7M3_0 state_S7M3_0 true
              (constant_image [2; 1; 28; 28] 0) 2 28 28)
    as (y & s' & H & _ & _ & _ & S).
  - right. reflexivity.
  - vm_compute. reflexivity.
  - apply same_meta_refl.
  - reflexivity.
  - reflexivity.
  - lia.
  - lia.
  - lia.
  - exists y, s'. split; [exact H |]. apply S; lia.
Defined.

(* ===================================================================== *)
(** * [TransBlock] and [ConvLayer]                                         *)
(* ===================================================================== *)

Lemma verify_batch_size_spatial a c h w :
  2 <= h -> 1 <= w -> verify_batch_size [a; c; h; w] = true.
Proof.
  intros Hh Hw. unfold verify_batch_size, numel. simpl.
  apply negb_true_iff, Z.eqb_neq. rewrite Z.mul_1_r.
  assert (Hhw : 2 <= h * w) by nia.
  destruct (Z_le_gt_dec a 0); nia.
Qed.

(** The normalisation of a [ConvLayer] accepts every 4-D input with its
    channels and at least 2x1 positions, in training mode too. *)
Lemma norm_shape_spatial nm c training n h w :
  2 <= h -> 1 <= w ->
  out_shape (norm_arch nm c) training [n; c; h; w] = Some [n; c; h; w].
Proof.
  intros Hh Hw. destruct nm; simpl.
  - unfold batch_norm2d_shape. simpl bn_check_input_dim. simpl bn_check_channels.
    rewrite verify_batch_size_spatial, Z.eqb_refl by lia.
    rewrite orb_true_r. reflexivity.
  - unfold group_norm_shape, gn_grouped. simpl gn_check_dim. simpl bn_check_channels.
    rewrite verify_batch_size_spatial, Z.eqb_refl by lia. reflexivity.
  - unfold group_norm_shape, gn_grouped. simpl gn_check_dim. simpl bn_check_channels.
    rewrite verify_batch_size_spatial, Z.eqb_refl by lia. reflexivity.
Qed.

Lemma ConvLayer_shape_any nm cin cout p training n h w :
  cin <> 0 -> 0 < cout -> 1 <= h -> 1 <= w ->
  0 <= p -> 4 <= h + 2 * p -> 3 <= w + 2 * p ->
  out_shape (ConvLayer_arch cin cout p nm) training [n; cin; h; w]
  = Some [n; cout; h + 2 * p - 2; w + 2 * p - 2].
Proof.
  intros Hi Ho Hh1 Hw1 Hp Hh Hw. unfold ConvLayer_arch.
  change (out_shape (ConvLayer ?l) training ?s) with (out_shape l training s).
  rewrite out_shape_cons.
  change (out_shape (Conv2d cin cout (3, 3) p O) training [n; cin; h; w])
    with (conv2d_shape cin cout (3, 3) p [n; cin; h; w]).
  rewrite (conv2d_shape_ok _ _ _ _ _ _ _ _ (h + 2 * p - 2) (w + 2 * p - 2)) by lia.
  rewrite out_shape_cons, norm_shape_spatial by lia.
  reflexivity.
Qed.

Lemma TransBlock_shape_any cin cout training n h w :
  cin <> 0 -> 0 < cout -> 2 <= h -> 2 <= w ->
  out_shape (TransBlock_arch cin cout) training [n; cin; h; w]
  = Some [n; cout; h / 2; w / 2].
Proof.
  intros Hi Ho Hh Hw. unfold TransBlock_arch.
  change (out_shape (TransBlock ?l) training ?s) with (out_shape l training s).
  rewrite out_shape_cons.
  change (out_shape (Conv2d cin cout (1, 1) 0 O) training [n; cin; h; w])
    with (conv2d_shape cin cout (1, 1) 0 [n; cin; h; w]).
  rewrite (conv2d_shape_ok _ _ _ _ _ _ _ _ h w) by lia.
  rewrite out_shape_cons.
  change (out_shape (MaxPool2d 2 2) training [n; cout; h; w])
    with (pool2d_shape 2 2 [n; cout; h; w]).
  rewrite (pool2d_shape_ok 2 2 _ _ _ _ (h / 2) (w / 2)) by zlia.
  reflexivity.
Qed.

(** A tensor with all four extents at least 1 has elements. *)
Lemma numel_4d_nonzero a b c d :
  a <> 0 -> 1 <= b -> 1 <= c -> 1 <= d -> (numel [a; b; c; d] =? 0) = false.
Proof.
  intros Ha Hb Hc Hd. apply Z.eqb_neq. unfold numel. simpl. nia.
Qed.

(** The one [Dropout] of a [ConvLayer] receives a tensor of the shape the
    layer returns, and draws when that tensor has elements. *)
Lemma ConvLayer_draws nm cin cout p s s' :
  out_shape (ConvLayer_arch cin cout p nm) true s = Some s' ->
  draws (ConvLayer_arch cin cout p nm) s
  = if numel s' =? 0 then 0%nat else 1%nat.
Proof.
  unfold ConvLayer_arch.
  change (out_shape (ConvLayer ?l) true ?s) with (out_shape l true s).
  change (draws (ConvLayer ?l) ?s) with (draws l s).
  rewrite draws_cons, out_shape_cons.
  destruct (out_shape (Conv2d cin cout (3, 3) p 0) true s) as [s1 |];
    [| discriminate].
  rewrite draws_cons, out_shape_cons.
  destruct (out_shape (norm_arch nm cout) true s1) as [s2 |] eqn:E2;
    [| discriminate].
  apply norm_shape_Some in E2 as ->.
  rewrite draws_cons, out_shape_cons.
  change (out_shape ReLU true s1) with (Some s1). cbv beta iota.
  rewrite draws_cons, out_shape_cons.
  change (out_shape (Dropout (5 # 100)) true s1) with (Some s1). cbv beta iota.
  rewrite out_shape_nil, draws_nil. intros [= <-].
  assert (Hn : draws (norm_arch nm cout) s1 = 0%nat) by (destruct nm; reflexivity).
  rewrite Hn. simpl. destruct (numel s1 =? 0); reflexivity.
Qed.

Lemma ConvLayer_shape_same nm cin cout training n h w :
  cin <> 0 -> 0 < cout -> 2 <= h -> 1 <= w ->
  out_shape (ConvLayer_arch cin cout 1 nm) training [n; cin; h; w]
  = Some [n; cout; h; w].
Proof.
  intros Hi Ho Hh Hw.
  rewrite (ConvLayer_shape_any nm cin cout 1 training n h w) by lia.
  repeat f_equal; lia.
Qed.

Lemma ConvLayer_draws_same nm cin cout n h w :
  cin <> 0 -> 0 < cout -> 2 <= h -> 1 <= w ->
  draws (ConvLayer_arch cin cout 1 nm) [n; cin; h; w]
  = if n =? 0 then 0%nat else 1%nat.
Proof.
  intros Hi Ho Hh Hw.
  rewrite (ConvLayer_draws nm cin cout 1 _ [n; cout; h; w])
    by (apply ConvLayer_shape_same; assumption).
  destruct (Z.eqb_spec n 0) as [-> | Hn]; [reflexivity |].
  rewrite numel_4d_nonzero by lia. reflexivity.
Qed.

(** [Model] on a batch of images of at least 8x8: each of its eight
    [ConvLayer]s draws once, unless the batch is empty. *)
Lemma Model_draws nm n h w :
  8 <= h -> 8 <= w ->
  draws (Sequential (Model_arch nm)) [n; 3; h; w]
  = if n =? 0 then 0%nat else 8%nat.
Proof.
  intros Hh Hw. unfold Model_arch.
  repeat (first [ rewrite draws_cons
                | rewrite draws_nil
                | rewrite out_shape_cons
                | rewrite out_shape_nil
                | rewrite ConvLayer_shape_same by zlia
                | rewrite ConvLayer_draws_same by zlia
                | rewrite TransBlock_shape by zlia
                | rewrite (draws_no_rng (TransBlock_arch 32 16)) by reflexivity
                | rewrite gap_shape by zlia
                | rewrite out_conv_shape ];
          cbv beta iota).
  change (draws (AdaptiveAvgPool2d 1) ?s) with 0%nat.
  change (draws (Conv2d 16 10 (1, 1) 0 0) ?s) with 0%nat.
  destruct (n =? 0); reflexivity.
Qed.

(** X8.  [TransBlock(in_channels, out_channels)] called on a float32
    batch of at least one image, of shape [(n, c, h, w)], returns exactly
    when neither channel count is 0, [c = in_channels] and the image is at
    least 2x2; the result has shape [(n, out_channels, h / 2, w / 2)] (an
    odd last row or column is dropped); and the call, in either mode,
    changes no tensor and does not draw from the generator. *)
Theorem TransBlock_forward_halves `{K : Kernels}
    cin cout s0 m s1 s training x n c h w :
  TransBlock_init cin cout s0 = (Ok m, s1) -> same_meta s1 s ->
  t_shape x = [n; c; h; w] -> t_dtype x = Float32 -> 1 <= n ->
  ((exists y s', call m training x s = (Ok y, s'))
   <-> cin <> 0 /\ 0 < cout /\ c = cin /\ 2 <= h /\ 2 <= w)
  /\ (forall y s', call m training x s = (Ok y, s') ->
        t_shape y = [n; cout; h / 2; w / 2] /\ t_dtype y = Float32)
  /\ cells (call m training x s).2 = cells s
  /\ rng (call m training x s).2 = rng s.
Proof.
  intros Hinit M Hx Hd Hn.
  apply TransBlock_init_ok in Hinit as (_ & A & B & _).
  assert (Hinv : forall y s', call m training x s = (Ok y, s') ->
            (cin <> 0 /\ 0 < cout /\ c = cin /\ 2 <= h /\ 2 <= w)
            /\ t_shape y = [n; cout; h / 2; w / 2] /\ t_dtype y = Float32).
  { intros y s' H. apply call_post_holds in H as (_ & _ & S & D & _).
    rewrite Hx, <- out_shape_arch, A in S.
    apply TransBlock_shape_Some in S as (? & ? & ? & ? & ? & ?).
    rewrite D. auto 8. }
  split; [split |].
  - intros (y & s' & H). apply (Hinv y s' H).
  - intros (Hi & Ho & -> & Hh & Hw).
    apply (call_succeeds training m x s [n; cout; h / 2; w / 2]).
    + rewrite Hx, <- out_shape_arch, A. apply TransBlock_shape_any; assumption.
    + rewrite Hd. exact (built_params_dtype _ _ _ _ B M).
  - split; [intros y s' H; apply (Hinv y s' H) |].
    split.
    + apply call_keeps_cells. right. rewrite <- has_batch_norm_arch, A. reflexivity.
    + apply call_keeps_rng. right. rewrite <- uses_rng_arch, A. reflexivity.
Qed.

Definition TransBlock_0 : nn_module :=
  Eval vm_compute in
    match (@TransBlock_init zero_kernels 32 16 state0).1 with
    | Ok m => m
    | Raise _ => ReLU
    end.

Definition state_TransBlock_0 : state :=
  Eval vm_compute in (@TransBlock_init zero_kernels 32 16 state0).2.

Lemma TransBlock_forward_halves_witness :
  exists y s',
    @call zero_kernels TransBlock_0 true (constant_image [2; 32; 5; 4] 1)
      state_TransBlock_0 = (Ok y, s')
    /\ t_shape y = [2; 16; 2; 2].
Proof.
  destruct (@TransBlock_forward_halves zero_kernels 32 16 state0 TransBlock_0
              state_TransBlock_0 state_TransBlock_0 true
              (constant_image [2; 32; 5; 4] 1) 2 32 5 4)
    as (Hiff & Hs & _).
  - vm_compute. reflexivity.
  - apply same_meta_refl.
  - reflexivity.
  - reflexivity.
  - lia.
  - destruct (proj2 Hiff) as (y & s' & H); [repeat split; lia |].
    exists y, s'. split; [exact H |]. apply (Hs y s' H).
Defined.

(** X9.  [ConvLayer(in_channels, out_channels, padding, norm_method)]
    with at least one input and one output channel, called on a float32
    batch of at least one image, of shape [(n, c, h, w)]: a call that
    returns had [c = in_channels], an image with pixels and a padded image
    of at least 3x3, gives shape
    [(n, out_channels, h + 2 * padding - 2, w + 2 * padding - 2)] (the same
    image size for the default padding 1), and has drawn from the generator
    once in training mode and not at all in evaluation mode.  For the
    paddings 0 and 1 the call returns whenever the channels match, the
    image has pixels and the padded image is at least 4x3. *)
Theorem ConvLayer_forward_shape `{K : Kernels}
    cin cout p nm s0 m s1 s training x n c h w :
  ConvLayer_init cin cout p (VMethod nm) s0 = (Ok m, s1) -> same_meta s1 s ->
  1 <= cin -> 1 <= cout ->
  t_shape x = [n; c; h; w] -> t_dtype x = Float32 -> 1 <= n ->
  (forall y s', call m training x s = (Ok y, s') ->
     c = cin /\ 0 <= p /\ 1 <= h /\ 1 <= w
     /\ 3 <= h + 2 * p /\ 3 <= w + 2 * p
     /\ t_shape y = [n; cout; h + 2 * p - 2; w + 2 * p - 2]
     /\ rng s' = if training then k_next_rng (rng s) else rng s)
  /\ (c = cin -> 0 <= p <= 1 -> 1 <= h -> 1 <= w ->
      4 <= h + 2 * p -> 3 <= w + 2 * p ->
      exists y s', call m training x s = (Ok y, s')).
Proof.
  intros Hinit M Hi Ho Hx Hd Hn.
  apply ConvLayer_init_ok in Hinit as (_ & A & B & _).
  split.
  - intros y s' H.
    pose proof (call_post_holds _ _ _ _ _ _ H) as (_ & _ & S & _).
    rewrite Hx, <- out_shape_arch, A in S.
    pose proof (ConvLayer_shape_Some _ _ _ _ _ _ _ _ _ _ S)
      as (Hc & Hp & Hh & Hw & Sy & _ & _ & He).
    destruct He as [He | [Hh1 Hw1]]; [lia |].
    split; [exact Hc |]. split; [exact Hp |].
    split; [lia |]. split; [lia |].
    split; [exact Hh |]. split; [exact Hw |]. split; [exact Sy |].
    destruct training.
    + rewrite (call_draws _ _ _ _ _ H), Hx, <- draws_arch, A.
      rewrite (ConvLayer_draws _ _ _ _ _ _ S), Sy.
      rewrite numel_4d_nonzero by lia. reflexivity.
    + change s' with (Ok y, s').2. rewrite <- H.
      apply call_keeps_rng. left. reflexivity.
  - intros -> Hp Hh1 Hw1 Hh Hw.
    apply (call_succeeds training m x s [n; cout; h + 2 * p - 2; w + 2 * p - 2]).
    + rewrite Hx, <- out_shape_arch, A. apply ConvLayer_shape_any; lia.
    + rewrite Hd. exact (built_params_dtype _ _ _ _ B M).
Qed.

Definition ConvLayer_0 : nn_module :=
  Eval vm_compute in
    match (@ConvLayer_init zero_kernels 3 16 1 (VMethod GROUP) state0).1 with
    | Ok m => m
    | Raise _ => ReLU
    end.

Definition state_ConvLayer_0 : state :=
  Eval vm_compute in (@ConvLayer_init zero_kernels 3 16 1 (VMethod GROUP) state0).2.

Lemma ConvLayer_forward_shape_witness :
  exists y s',
    @call zero_kernels ConvLayer_0 true (constant_image [1; 3; 2; 1] 1)
      state_ConvLayer_0 = (Ok y, s')
    /\ t_shape y = [1; 16; 2; 1].
Proof.
  destruct (@ConvLayer_forward_shape zero_kernels 3 16 1 GROUP state0 ConvLayer_0
              state_ConvLayer_0 state_ConvLayer_0 true
              (constant_image [1; 3; 2; 1] 1) 1 3 2 1)
    as (Hs & Hex).
  - vm_compute. reflexivity.
  - apply same_meta_refl.
  - lia.
  - lia.
  - reflexivity.
  - reflexivity.
  - lia.
  - destruct Hex as (y & s' & H); [reflexivity | lia | lia | lia | lia | lia |].
    exists y, s'. split; [exact H |].
    destruct (Hs y s' H) as (_ & _ & _ & _ & _ & _ & S & _). exact S.
Defined.

(** X4.  A [Model.forward] that returns in training mode on a batch of at
    least one image has drawn from the random generator exactly eight
    times, once for the dropout of each of its eight [ConvLayer]s; on an
    empty batch it has drawn nothing. *)
Theorem Model_forward_draws_eight `{K : Kernels}
    nm s0 self s1 x s y s' n c h w :
  Model.init (VMethod nm) s0 = (Ok self, s1) ->
  t_shape x = [n; c; h; w] ->
  Model.forward self true x s = (Ok y, s') ->
  (1 <= n -> rng s' = Nat.iter 8 k_next_rng (rng s))
  /\ (n = 0 -> rng s' = rng s)
  /\ dropouts (Sequential (Model.children self)) = 8%nat.
Proof.
  intros Hinit Hx H. apply construct_Model in Hinit.
  pose proof (constructed_arch _ _ _ _ Hinit) as A.
  assert (D : dropouts (Sequential (forward_path (IModel self))) = 8%nat).
  { rewrite <- dropouts_arch, A. destruct nm; reflexivity. }
  pose proof (forward_Ok_wanted _ _ _ _ _ _ _ _ _ _ _ _ _ Hinit Hx H)
    as (-> & Hh & Hw).
  pose proof (forward_draws (IModel self) x s y s' H) as R.
  rewrite Hx, <- draws_arch, A in R.
  change (variant_arch (VModel nm)) with (Model_arch nm) in R.
  rewrite Model_draws in R by assumption.
  split; [| split; [| exact D]].
  - intros Hn. rewrite R.
    replace (n =? 0) with false by (symmetry; apply Z.eqb_neq; lia).
    reflexivity.
  - intros ->. exact R.
Qed.

Lemma Model_forward_draws_eight_witness :
  rng run_8x8.2 = Nat.iter 8 (@k_next_rng zero_kernels) (rng state_Model_0).
Proof.
  apply (@Model_forward_draws_eight zero_kernels BATCH state0 Model_0_self
           state_Model_0 (constant_image [1; 3; 8; 8] 1) state_Model_0
           (output_of run_8x8) run_8x8.2 1 3 8 8).
  - vm_compute. reflexivity.
  - reflexivity.
  - vm_compute. reflexivity.
  - lia.
Defined.

(* ===================================================================== *)
(** * Rows of the result and images of the batch                           *)
(* ===================================================================== *)

(** The ten class scores of image [r] in a tensor of shape
    [(n, 10, 1, 1)]. *)
Definition scores (a : Tensor) (r : Z) : list R :=
  map (fun k => t_at a [r; Z.of_nat k; 0; 0]) (seq 0 10).

Lemma unravel_ravel_columns n rows r j :
  0 <= j < 10 ->
  unravel [n; 10; 1; 1] (ravel [rows; 10] [r; j]) = [r; j; 0; 0].
Proof.
  intros Hj. unfold ravel, unravel, numel. simpl.
  repeat f_equal; zlia.
Qed.

Lemma view_row_scores `{K : Kernels} a s b s' n r :
  Tensor_view a [-1; 10] s = (Ok b, s') -> t_shape a = [n; 10; 1; 1] ->
  t_shape b = [n; 10] /\ row b r = scores a r.
Proof.
  intros H Ha. apply Tensor_view_inv in H as (_ & _ & _ & Sb & _ & Hat).
  rewrite Ha, view_columns in Sb. injection Sb as Sb.
  split; [symmetry; exact Sb |].
  unfold row, scores. apply map_ext_in. intros k Hk.
  apply in_seq in Hk. rewrite Hat, Ha, <- Sb.
  rewrite unravel_ravel_columns by lia. reflexivity.
Qed.

(** X10.  [Model.forward] keeps the images of a batch apart: the blocks
    end in a tensor of shape [(n, 10, 1, 1)], ten class scores per image,
    and row [r] of the result is the log-softmax of the ten scores of
    image [r] (each score minus the logarithm of the sum of the
    exponentials of the ten). *)
Theorem Model_forward_row_per_image `{K : Kernels}
    nm s0 self s1 s training x n c h w y s' :
  Model.init (VMethod nm) s0 = (Ok self, s1) ->
  t_shape x = [n; c; h; w] ->
  Model.forward self training x s = (Ok y, s') ->
  exists a s2,
    call (Sequential (Model.children self)) training x s = (Ok a, s2)
    /\ t_shape a = [n; 10; 1; 1]
    /\ t_shape y = [n; 10]
    /\ forall r,
         row y r
         = map (fun v => (v - ln (sum_list (map exp (scores a r))))%R) (scores a r).
Proof.
  intros Hinit Hx H. apply construct_Model in Hinit.
  pose proof (constructed_arch _ _ _ _ Hinit) as A.
  change (Model.forward self training x s) with (forward (IModel self) training x s) in H.
  rewrite forward_unfold in H.
  change (forward_path (IModel self)) with (Model.children self) in *.
  apply bind_Ok in H as (a & sa & Ha & H).
  apply bind_Ok in H as (b & sb & Hb & H).
  exists a, sa. split; [exact Ha |].
  pose proof (call_post_holds _ _ _ _ _ _ Ha) as (_ & _ & Sa & _).
  rewrite Hx, <- out_shape_arch, A in Sa.
  apply Model_shape_inv in Sa. split; [exact Sa |].
  pose proof (F_log_softmax_inv _ _ _ _ _ H) as (_ & _ & _ & Sy & _).
  destruct (view_row_scores a sa b sb n 0 Hb Sa) as [Sb _].
  split; [congruence |].
  intros r. destruct (view_row_scores a sa b sb n r Hb Sa) as [_ Rb].
  rewrite <- Rb.
  apply (log_softmax_rows b 1 sb y s' n H Sb). left. reflexivity.
Qed.

Lemma Model_forward_row_per_image_witness :
  exists a s2,
    @call zero_kernels (Sequential (Model.children Model_0_self)) true
      (constant_image [1; 3; 8; 8] 1) state_Model_0 = (Ok a, s2)
    /\ row (output_of run_8x8) 0
       = map (fun v => (v - ln (sum_list (map exp (scores a 0))))%R) (scores a 0).
Proof.
  destruct (@Model_forward_row_per_image zero_kernels BATCH state0 Model_0_self
              state_Model_0 state_Model_0 true (constant_image [1; 3; 8; 8] 1)
              1 3 8 8 (output_of run_8x8) run_8x8.2)
    as (a & s2 & Ha & _ & _ & Hr).
  - vm_compute. reflexivity.
  - reflexivity.
  - vm_compute. reflexivity.
  - exists a, s2. split; [exact Ha | apply Hr].
Defined.

(* ===================================================================== *)
(** * The shapes and the number of the parameters                          *)
(* ===================================================================== *)

(** The shapes the library gives the parameters of a layer, in the order
    of [parameter_locs]: a convolution without bias has one weight of shape
    [(out_channels, in_channels, kH, kW)]; a normalisation layer has a
    weight and a bias with one entry per channel. *)
Fixpoint param_shapes (m : nn_module) : list (list Z) :=
  match m with
  | Conv2d cin cout k _ _ => [[cout; cin; k.1; k.2]]
  | BatchNorm2d c _ _ _ _ _ => [[c]; [c]]
  | GroupNorm _ c _ _ => [[c]; [c]]
  | ReLU | Dropout _ | MaxPool2d _ _ | AvgPool2d _ | AdaptiveAvgPool2d _ => []
  | Sequential children => flat_map param_shapes children
  | ConvLayer layer => param_shapes layer
  | TransBlock layer => param_shapes layer
  end.

Lemma param_shapes_arch m : param_shapes (arch m) = param_shapes m.
Proof.
  induction m as [cin cout k p w | c w b rm rv nbt | g c w b | | p | k st | k
                  | o | ms IH | l IH | l IH] using nn_module_tree_ind;
    try reflexivity; try (simpl; exact IH).
  simpl. induction IH as [| m ms Hm _ IH]; [reflexivity |].
  simpl. rewrite Hm. f_equal. exact IH.
Qed.

(** The shapes of the parameters of [m] in the store. *)
Definition stored_shapes (s : state) (m : nn_module) : list (list Z) :=
  map (fun l => t_shape (cells s !!! l)) (parameter_locs m).

Definition shapes_ok (s : state) (m : nn_module) : Prop :=
  stored_shapes s m = param_shapes m.

(** The number of trainable scalars: what
    [sum(p.numel() for p in model.parameters())] computes. *)
Definition num_parameters (s : state) (m : nn_module) : Z :=
  fold_right Z.add 0 (map numel (stored_shapes s m)).

Lemma stored_shapes_extends s s' m :
  extends s s' -> allocated s m -> stored_shapes s' m = stored_shapes s m.
Proof.
  intros E A. unfold stored_shapes. apply map_ext_in. intros l Hl.
  rewrite (extends_lookup_total s s'); [reflexivity | exact E |].
  unfold allocated in A. rewrite Forall_forall in A.
  apply A, list_elem_of_In, parameter_locs_locs. exact Hl.
Qed.

Lemma stored_shapes_same_meta s s' m :
  same_meta s s' -> stored_shapes s' m = stored_shapes s m.
Proof.
  intros [_ M]. unfold stored_shapes. apply map_ext. intros l. apply M.
Qed.

Lemma stored_shapes_Sequential s ms :
  stored_shapes s (Sequential ms) = flat_map (stored_shapes s) ms.
Proof.
  unfold stored_shapes. simpl. induction ms as [| m ms IH]; [reflexivity |].
  simpl. rewrite map_app, IH. reflexivity.
Qed.

Lemma shapes_ok_Sequential s ms :
  Forall (shapes_ok s) ms -> shapes_ok s (Sequential ms).
Proof.
  unfold shapes_ok. rewrite stored_shapes_Sequential.
  induction 1 as [| m ms Hm _ IH]; [reflexivity |].
  simpl. rewrite Hm. f_equal. exact IH.
Qed.

Section ConstructorShapes.
Context `{K : Kernels}.

(** A constructor that gives the parameters of the module it returns the
    shapes of [param_shapes]. *)
Definition ctor_shapes (c : M nn_module) : Prop :=
  forall s m s', c s = (Ok m, s') -> shapes_ok s' m.

Lemma ctor_shapes_ext (c c' : M nn_module) :
  (forall s, c s = c' s) -> ctor_shapes c' -> ctor_shapes c.
Proof. intros E H s m s' Hc. rewrite E in Hc. exact (H s m s' Hc). Qed.

Lemma nn_Conv2d_shapes cin cout k p : ctor_shapes (nn_Conv2d cin cout k p).
Proof.
  intros s m s' H. unfold nn_Conv2d in H.
  apply bind_Ok in H as ([] & s1 & Hc & H).
  apply check_size_inv in Hc as [-> _].
  destruct (numel _ =? 0); cbv [bind ret alloc get_rng set_rng] in H;
    simpl in H; inversion H; subst; clear H;
    unfold shapes_ok, stored_shapes; simpl; fresh_cells; reflexivity.
Qed.

Lemma nn_BatchNorm2d_shapes c : ctor_shapes (nn_BatchNorm2d c).
Proof.
  intros s m s' H. unfold nn_BatchNorm2d in H.
  apply bind_Ok in H as ([] & s1 & Hc & H).
  apply check_size_inv in Hc as [-> _].
  cbv [bind ret alloc get_rng set_rng] in H.
  simpl in H; inversion H; subst; clear H.
  unfold shapes_ok, stored_shapes. simpl. fresh_cells. reflexivity.
Qed.

Lemma nn_GroupNorm_shapes g c : ctor_shapes (nn_GroupNorm g c).
Proof.
  intros s m s' H. unfold nn_GroupNorm in H.
  destruct (negb _); [discriminate H |].
  apply bind_Ok in H as ([] & s1 & Hc & H).
  apply check_size_inv in Hc as [-> _].
  cbv [bind ret alloc get_rng set_rng] in H.
  simpl in H; inversion H; subst; clear H.
  unfold shapes_ok, stored_shapes. simpl. fresh_cells. reflexivity.
Qed.

Lemma ret_shapes m : parameter_locs m = [] -> param_shapes m = [] -> ctor_shapes (ret m).
Proof.
  intros E1 E2 s m' s' H. inversion H; subst.
  unfold shapes_ok, stored_shapes. rewrite E1, E2. reflexivity.
Qed.

Lemma nn_Dropout_shapes v : ctor_shapes (nn_Dropout v).
Proof.
  intros s m s' H. unfold nn_Dropout in H.
  destruct v as [z | q | nm | | name]; try discriminate H;
    destruct (_ && _); inversion H; subst; reflexivity.
Qed.

Lemma normalizer_shapes nm c : ctor_shapes (normalizer (VMethod nm) c).
Proof.
  apply (ctor_shapes_ext _ _ (normalizer_enum nm c)).
  destruct nm; [apply nn_BatchNorm2d_shapes | apply nn_GroupNorm_shapes ..].
Qed.

Lemma build_all_shapes cs As :
  Forall2 ctor_ok cs As -> Forall ctor_shapes cs ->
  forall s ms s', build_all cs s = (Ok ms, s') -> Forall (shapes_ok s') ms.
Proof.
  induction 1 as [| c A cs As Hc Hcs IH]; intros Hsh s ms s' H; simpl in H.
  - inversion H; subst. constructor.
  - apply Forall_cons in Hsh as [Hsh1 Hsh2].
    apply bind_Ok in H as (m & s1 & Hm & H).
    apply bind_Ok in H as (ms' & s2 & Hms & H). inversion H; subst.
    pose proof (Hc _ _ _ Hm) as (_ & _ & B & _).
    pose proof (build_all_post _ _ Hcs _ _ _ Hms) as (E & _).
    constructor.
    + unfold shapes_ok. rewrite (stored_shapes_extends s1 s' m E).
      * exact (Hsh1 _ _ _ Hm).
      * apply (allocated_later _ _ _ _ B). lia.
    + exact (IH Hsh2 _ _ _ Hms).
Qed.

Lemma seq_ctor_shapes cs As (wrap : nn_module -> nn_module) :
  Forall2 ctor_ok cs As -> Forall ctor_shapes cs ->
  (forall m, parameter_locs (wrap m) = parameter_locs m) ->
  (forall m, param_shapes (wrap m) = param_shapes m) ->
  ctor_shapes (ms <- build_all cs ;; ret (wrap (Sequential ms))).
Proof.
  intros Hok Hsh Hl Hp s m s' H.
  apply bind_Ok in H as (ms & s1 & Hms & H). inversion H; subst.
  apply (build_all_shapes _ _ Hok Hsh) in Hms. apply shapes_ok_Sequential in Hms.
  unfold shapes_ok, stored_shapes in *. rewrite Hl, Hp. exact Hms.
Qed.

End ConstructorShapes.

Ltac same_binds :=
  repeat (repeat (rewrite bind_assoc || rewrite bind_ret_l);
          apply bind_ext; intros ? ?);
  reflexivity.

Ltac each_of tac :=
  repeat (first [apply List.Forall2_cons | apply List.Forall_cons]; [tac |]);
  first [apply List.Forall2_nil | apply List.Forall_nil].

Section ModelShapes.
Context `{K : Kernels}.

Lemma ConvLayer_init_shapes cin cout p nm :
  ctor_shapes (ConvLayer_init cin cout p (VMethod nm)).
Proof.
  apply (ctor_shapes_ext _
           (ms <- build_all [nn_Conv2d cin cout (3, 3) p; normalizer (VMethod nm) cout;
                             nn_ReLU; nn_Dropout (VFloat (5 # 100))] ;;
            ret (ConvLayer (Sequential ms)))).
  - intros s. unfold ConvLayer_init, nn_Sequential. simpl build_all. same_binds.
  - apply (seq_ctor_shapes _
             [Conv2d cin cout (3, 3) p O; norm_arch nm cout; ReLU; Dropout (5 # 100)]
             ConvLayer); auto.
    + each_of ltac:(intros ? ? ?; first [ apply nn_Conv2d_post | apply normalizer_post
                          | apply (ret_post ReLU); reflexivity
                          | apply nn_Dropout_post ]).
    + each_of ltac:(first [ apply nn_Conv2d_shapes | apply normalizer_shapes
                          | apply (ret_shapes ReLU); reflexivity
                          | apply nn_Dropout_shapes ]).
Qed.

Lemma TransBlock_init_shapes cin cout : ctor_shapes (TransBlock_init cin cout).
Proof.
  apply (ctor_shapes_ext _
           (ms <- build_all [nn_Conv2d cin cout (1, 1) 0; nn_MaxPool2d 2 2] ;;
            ret (TransBlock (Sequential ms)))).
  - intros s. unfold TransBlock_init, nn_Sequential. simpl build_all. same_binds.
  - apply (seq_ctor_shapes _ [Conv2d cin cout (1, 1) 0 O; MaxPool2d 2 2] TransBlock);
      auto.
    + each_of ltac:(intros ? ? ?; first [ apply nn_Conv2d_post
                          | apply (ret_post (MaxPool2d 2 2)); reflexivity ]).
    + each_of ltac:(first [ apply nn_Conv2d_shapes
                          | apply (ret_shapes (MaxPool2d 2 2)); reflexivity ]).
Qed.

Lemma conv_relu_bn_shapes cin cout k p : ctor_shapes (conv_relu_bn cin cout k p).
Proof.
  apply (ctor_shapes_ext _
           (ms <- build_all [nn_Conv2d cin cout k p; nn_ReLU; nn_BatchNorm2d cout] ;;
            ret ((fun m => m) (Sequential ms)))).
  - intros s. unfold conv_relu_bn, nn_Sequential. simpl build_all. same_binds.
  - apply (seq_ctor_shapes _ [Conv2d cin cout k p O; ReLU; BatchNorm2d cout O O O O O]
             (fun m => m)); auto.
    + each_of ltac:(intros ? ? ?; first [ apply nn_Conv2d_post | apply nn_BatchNorm2d_post
                          | apply (ret_post ReLU); reflexivity ]).
    + each_of ltac:(first [ apply nn_Conv2d_shapes | apply nn_BatchNorm2d_shapes
                          | apply (ret_shapes ReLU); reflexivity ]).
Qed.

Lemma conv_only_shapes cin cout k p : ctor_shapes (conv_only cin cout k p).
Proof.
  apply (ctor_shapes_ext _
           (ms <- build_all [nn_Conv2d cin cout k p] ;;
            ret ((fun m => m) (Sequential ms)))).
  - intros s. unfold conv_only, nn_Sequential. simpl build_all. same_binds.
  - apply (seq_ctor_shapes _ [Conv2d cin cout k p O] (fun m => m)); auto.
    + each_of ltac:(intros ? ? ?; apply nn_Conv2d_post).
    + each_of ltac:(apply nn_Conv2d_shapes).
Qed.

Lemma plain_seq_shapes cs As :
  Forall2 ctor_ok cs As -> Forall ctor_shapes cs -> ctor_shapes (plain_seq cs).
Proof.
  intros Hok Hsh. apply (seq_ctor_shapes cs As (fun m => m)); auto.
Qed.

Lemma Model_blocks_shapes nm : Forall ctor_shapes (Model_blocks nm).
Proof.
  unfold Model_blocks.
  each_of ltac:(first
    [ apply TransBlock_init_shapes
    | apply nn_Conv2d_shapes
    | apply (ret_shapes (AdaptiveAvgPool2d 1)); reflexivity
    | eapply plain_seq_shapes;
      [ each_of ltac:(apply ConvLayer_init_ok)
      | each_of ltac:(apply ConvLayer_init_shapes) ] ]).
Qed.

Lemma Session_7_blocks_shapes : Forall ctor_shapes Session_7_blocks.
Proof.
  unfold Session_7_blocks.
  each_of ltac:(first [ apply conv_relu_bn_shapes | apply conv_only_shapes
                      | apply (ret_shapes (MaxPool2d 2 2)); reflexivity ]).
Qed.

Lemma Model_init_shapes nm s self s' :
  Model.init (VMethod nm) s = (Ok self, s') ->
  Forall (shapes_ok s') (Model.children self).
Proof.
  rewrite Model_init_blocks. intros H.
  apply bind_Ok in H as (ms & s1 & Hms & H).
  pose proof (build_all_post _ _ (Model_blocks_ok nm) _ _ _ Hms) as (_ & A & _).
  apply (build_all_shapes _ _ (Model_blocks_ok nm) (Model_blocks_shapes nm)) in Hms.
  assert (Hlen : length ms = 8%nat)
    by (rewrite <- (length_map arch), A; reflexivity).
  do 9 (destruct ms as [| ? ms]; try discriminate Hlen).
  inversion H; subst. exact Hms.
Qed.

Lemma Session_7_Model_2_init_shapes s self s' :
  Session_7_Model_2.init s = (Ok self, s') ->
  Forall (shapes_ok s') (Session_7_Model_2.children self).
Proof.
  rewrite Session_7_Model_2_init_blocks. intros H.
  apply bind_Ok in H as (ms & s1 & Hms & H).
  pose proof (build_all_post _ _ Session_7_blocks_ok _ _ _ Hms) as (_ & A & _).
  apply (build_all_shapes _ _ Session_7_blocks_ok Session_7_blocks_shapes) in Hms.
  assert (Hlen : length ms = 10%nat)
    by (rewrite <- (length_map arch), A; reflexivity).
  do 11 (destruct ms as [| ? ms]; try discriminate Hlen).
  inversion H; subst. exact Hms.
Qed.

Lemma Session_7_Model_3_init_shapes s self s' :
  Session_7_Model_3.init s = (Ok self, s') ->
  Forall (shapes_ok s') (Session_7_Model_3.children self).
Proof.
  rewrite Session_7_Model_3_init_blocks. intros H.
  apply bind_Ok in H as (ms & s1 & Hms & H).
  pose proof (build_all_post _ _ Session_7_blocks_ok _ _ _ Hms) as (_ & A & _).
  apply (build_all_shapes _ _ Session_7_blocks_ok Session_7_blocks_shapes) in Hms.
  assert (Hlen : length ms = 10%nat)
    by (rewrite <- (length_map arch), A; reflexivity).
  do 11 (destruct ms as [| ? ms]; try discriminate Hlen).
  inversion H; subst. exact Hms.
Qed.

(** The constructor call behind a constructed instance. *)
Lemma constructed_init v s0 i s1 :
  construct v s0 = (Ok i, s1) ->
  match i with
  | IModel self => exists nm, Model.init (VMethod nm) s0 = (Ok self, s1)
  | ISession_7_Model_2 self => Session_7_Model_2.init s0 = (Ok self, s1)
  | ISession_7_Model_3 self => Session_7_Model_3.init s0 = (Ok self, s1)
  | Isession_6_Model _ | ISession_7_Model_1 _ => False
  end.
Proof.
  destruct v as [nm | | | |]; unfold construct; intros H.
  - destruct (Model_init_total nm s0) as (self & s2 & Hi).
    rewrite (bind_step _ _ _ _ _ Hi) in H. inversion H; subst. eauto.
  - destruct (session_6_Model_init_NameError s0) as (s2 & Hi & _).
    rewrite (bind_fail _ _ _ _ _ Hi) in H. discriminate H.
  - destruct (Session_7_Model_1_init_NameError s0) as (s2 & Hi & _).
    rewrite (bind_fail _ _ _ _ _ Hi) in H. discriminate H.
  - destruct (Session_7_Model_2_init_total s0) as (self & s2 & Hi).
    rewrite (bind_step _ _ _ _ _ Hi) in H. inversion H; subst. exact Hi.
  - destruct (Session_7_Model_3_init_total s0) as (self & s2 & Hi).
    rewrite (bind_step _ _ _ _ _ Hi) in H. inversion H; subst. exact Hi.
Qed.

(** The parameters of a constructed instance have the shapes of its
    architecture. *)
Lemma constructed_shapes v s0 i s1 :
  construct v s0 = (Ok i, s1) -> shapes_ok s1 (Sequential (children i)).
Proof.
  intros Hc. apply shapes_ok_Sequential. apply constructed_init in Hc.
  destruct i as [self | self | self | self | self]; try contradiction.
  - destruct Hc as [nm Hi]. exact (Model_init_shapes _ _ _ _ Hi).
  - exact (Session_7_Model_2_init_shapes _ _ _ Hc).
  - exact (Session_7_Model_3_init_shapes _ _ _ Hc).
Qed.

End ModelShapes.

(** X11.  The number of trainable parameters of an instance, at any time
    after its construction: 25,520 for [Model] under each of the three
    normalisations, 7,524 for Session_7_Model_2 and for Session_7_Model_3;
    and the shapes of the parameters are those of the architecture (every
    convolution without bias). *)
Theorem number_of_parameters `{K : Kernels} v s0 i s1 s :
  construct v s0 = (Ok i, s1) -> same_meta s1 s ->
  stored_shapes s (Sequential (children i)) = param_shapes (Sequential (variant_arch v))
  /\ match v with
     | VModel _ => num_parameters s (Sequential (children i)) = 25520
     | VSession_7_Model_2 | VSession_7_Model_3 =>
         num_parameters s (Sequential (children i)) = 7524
     | Vsession_6_Model | VSession_7_Model_1 => False
     end.
Proof.
  intros Hc M.
  assert (E : stored_shapes s (Sequential (children i))
              = param_shapes (Sequential (variant_arch v))).
  { rewrite (stored_shapes_same_meta s1 s _ M), (constructed_shapes _ _ _ _ Hc).
    rewrite <- param_shapes_arch.
    rewrite <- (constructed_forward_path _ _ _ _ Hc), (constructed_arch _ _ _ _ Hc).
    reflexivity. }
  split; [exact E |].
  unfold num_parameters. rewrite E.
  pose proof (construct_post_holds _ _ _ _ Hc) as (_ & Hof & _).
  apply constructed_init in Hc.
  destruct v as [[] | | | |]; try reflexivity;
    destruct i as [self | self | self | self | self]; contradiction.
Qed.

Lemma number_of_parameters_witness :
  num_parameters run_8x8.2 (Sequential (children Model_0)) = 25520.
Proof.
  apply (@number_of_parameters zero_kernels (VModel BATCH) state0 Model_0
           state_Model_0 run_8x8.2).
  - vm_compute. reflexivity.
  - change run_8x8.2 with (run_8x8.1, run_8x8.2).2.
    apply (@forward_post_holds zero_kernels Model_0 true
             (constant_image [1; 3; 8; 8] 1) state_Model_0 run_8x8.1 run_8x8.2).
    vm_compute. reflexivity.
Defined.

(* ===================================================================== *)
(** * [forward] of session_6_Model and Session_7_Model_1                   *)
(* ===================================================================== *)

(** [nn.Sequential(Conv2d, ReLU, BatchNorm2d, Dropout(q))]: a block of the
    two classes, once [dropout_value] evaluates to a probability [q]. *)
Definition conv_relu_bn_drop_arch (cin cout : Z) (k : Z * Z) (p : Z) (q : Q)
  : nn_module :=
  Sequential [Conv2d cin cout k p O; ReLU; BatchNorm2d cout O O O O O; Dropout q].

(** The blocks [session_6_Model.forward] calls, as lines 154 to 218 build
    them, and the attributes of the class: these and the unused [dropout]. *)
Definition session_6_path_arch (q : Q) : list nn_module :=
  [ conv_relu_bn_drop_arch 1 16 (3, 3) 0 q;
    conv_relu_bn_drop_arch 16 32 (3, 3) 0 q;
    conv_only_arch 32 10 (1, 1) 0;
    MaxPool2d 2 2;
    conv_relu_bn_drop_arch 10 16 (3, 3) 0 q;
    conv_relu_bn_drop_arch 16 16 (3, 3) 0 q;
    conv_relu_bn_drop_arch 16 16 (3, 3) 0 q;
    conv_relu_bn_drop_arch 16 16 (3, 3) 1 q;
    Sequential [AvgPool2d 6];
    conv_only_arch 16 10 (1, 1) 0 ].

Definition session_6_arch (q : Q) : list nn_module :=
  session_6_path_arch q ++ [Dropout q].

(** The same for Session_7_Model_1, lines 242 to 296; its last block
    normalises before the ReLU. *)
Definition Session_7_Model_1_path_arch (q : Q) : list nn_module :=
  [ conv_relu_bn_drop_arch 1 8 (3, 3) 0 q;
    conv_relu_bn_drop_arch 8 16 (3, 3) 0 q;
    conv_only_arch 16 10 (1, 1) 0;
    MaxPool2d 2 2;
    conv_relu_bn_drop_arch 10 10 (3, 3) 0 q;
    conv_relu_bn_drop_arch 10 10 (3, 3) 1 q;
    MaxPool2d 2 2;
    conv_relu_bn_drop_arch 10 10 (3, 3) 1 q;
    Sequential [AvgPool2d 5];
    Sequential [Conv2d 10 10 (1, 1) 0 O; BatchNorm2d 10 O O O O O; ReLU; Dropout q] ].

Definition Session_7_Model_1_arch (q : Q) : list nn_module :=
  Session_7_Model_1_path_arch q ++ [Dropout q].

Lemma batch_norm2d_shape_4d c training n h w :
  training = false \/ n * (h * w) <> 1 ->
  batch_norm2d_shape c training [n; c; h; w] = Some [n; c; h; w].
Proof.
  intros H. unfold batch_norm2d_shape. simpl bn_check_input_dim.
  simpl bn_check_channels. rewrite Z.eqb_refl.
  destruct H as [-> | H]; [reflexivity |].
  unfold verify_batch_size, numel. simpl. rewrite Z.mul_1_r.
  apply Z.eqb_neq in H. rewrite H. rewrite orb_true_r. reflexivity.
Qed.

Lemma conv_relu_bn_drop_shape cin cout p q training n h w :
  cin <> 0 -> 0 < cout -> 1 <= h -> 1 <= w ->
  0 <= p -> 3 <= h + 2 * p -> 3 <= w + 2 * p ->
  training = false \/ n * ((h + 2 * p - 2) * (w + 2 * p - 2)) <> 1 ->
  out_shape (conv_relu_bn_drop_arch cin cout (3, 3) p q) training [n; cin; h; w]
  = Some [n; cout; h + 2 * p - 2; w + 2 * p - 2].
Proof.
  intros Hi Ho Hh1 Hw1 Hp Hh Hw Hb.
  unfold conv_relu_bn_drop_arch. rewrite out_shape_cons.
  change (out_shape (Conv2d cin cout (3, 3) p O) training [n; cin; h; w])
    with (conv2d_shape cin cout (3, 3) p [n; cin; h; w]).
  rewrite (conv2d_shape_ok _ _ _ _ _ _ _ _ (h + 2 * p - 2) (w + 2 * p - 2)) by lia.
  rewrite out_shape_cons.
  change (out_shape ReLU training ?s) with (Some s). cbv beta iota.
  rewrite out_shape_cons.
  change (out_shape (BatchNorm2d cout O O O O O) training ?s)
    with (batch_norm2d_shape cout training s).
  rewrite batch_norm2d_shape_4d by exact Hb.
  reflexivity.
Qed.

Ltac big_batch :=
  first [ lia
        | match goal with
          | Hn : 1 <= ?n |- _ \/ ?n * _ <> 1 => right; simpl; lia
          end ].

Lemma session_6_scan_shapes q training n :
  1 <= n ->
  scan_shapes (session_6_path_arch q) training [n; 1; 28; 28] =
  [ Some [n; 16; 26; 26]; Some [n; 32; 24; 24]; Some [n; 10; 24; 24];
    Some [n; 10; 12; 12];
    Some [n; 16; 10; 10]; Some [n; 16; 8; 8]; Some [n; 16; 6; 6];
    Some [n; 16; 6; 6];
    Some [n; 16; 1; 1]; Some [n; 10; 1; 1] ].
Proof.
  intros Hn. unfold session_6_path_arch. cbn [scan_shapes].
  rewrite (conv_relu_bn_drop_shape 1 16 0 q training n 28 28) by big_batch.
  cbv beta iota. change (28 + 2 * 0 - 2) with 26.
  rewrite (conv_relu_bn_drop_shape 16 32 0 q training n 26 26) by big_batch.
  cbv beta iota. change (26 + 2 * 0 - 2) with 24.
  rewrite (conv_only_shape 32 10 1 1 training n 24 24) by lia.
  cbv beta iota. change (24 - 1 + 1) with 24.
  change (out_shape (MaxPool2d 2 2) training [n; 10; 24; 24])
    with (Some [n; 10; 12; 12]).
  cbv beta iota.
  rewrite (conv_relu_bn_drop_shape 10 16 0 q training n 12 12) by big_batch.
  cbv beta iota. change (12 + 2 * 0 - 2) with 10.
  rewrite (conv_relu_bn_drop_shape 16 16 0 q training n 10 10) by big_batch.
  cbv beta iota. change (10 + 2 * 0 - 2) with 8.
  rewrite (conv_relu_bn_drop_shape 16 16 0 q training n 8 8) by big_batch.
  cbv beta iota. change (8 + 2 * 0 - 2) with 6.
  rewrite (conv_relu_bn_drop_shape 16 16 1 q training n 6 6) by big_batch.
  cbv beta iota. change (6 + 2 * 1 - 2) with 6.
  change (out_shape (Sequential [AvgPool2d 6]) training [n; 16; 6; 6])
    with (Some [n; 16; 1; 1]).
  cbv beta iota.
  rewrite (conv_only_shape 16 10 1 1 training n 1 1) by lia.
  reflexivity.
Qed.

Lemma last_cons_default {A} (l : list A) :
  forall x d d', List.last (x :: l) d = List.last (x :: l) d'.
Proof.
  induction l as [| y l IH]; intros x d d'; [reflexivity |].
  change (List.last (y :: l) d = List.last (y :: l) d'). apply IH.
Qed.

Lemma scan_shapes_out training ms :
  forall s l,
    scan_shapes ms training s = map Some l ->
    out_shape (Sequential ms) training s = Some (List.last l s).
Proof.
  induction ms as [| m ms IH]; intros s l H.
  - destruct l; [reflexivity | discriminate H].
  - destruct l as [| a l]; [discriminate H |].
    simpl in H. injection H as H1 H2.
    rewrite out_shape_cons, H1. rewrite H1 in H2.
    rewrite (IH a l H2). f_equal.
    destruct l as [| b l]; [reflexivity |].
    change (List.last (a :: b :: l) s) with (List.last (b :: l) s).
    apply last_cons_default.
Qed.

Lemma session_6_path self q :
  map arch (session_6_Model.children self) = session_6_arch q ->
  map arch (forward_path (Isession_6_Model self)) = session_6_path_arch q.
Proof.
  destruct self. unfold forward_path, children, session_6_Model.children.
  cbn [removelast map session_6_Model.convblock1 session_6_Model.convblock2
       session_6_Model.convblock3 session_6_Model.pool1 session_6_Model.convblock4
       session_6_Model.convblock5 session_6_Model.convblock6
       session_6_Model.convblock7 session_6_Model.gap session_6_Model.convblock8
       session_6_Model.dropout].
  unfold session_6_arch, session_6_path_arch. cbn [app].
  intros H. injection H as -> -> -> -> -> -> -> -> -> -> _. reflexivity.
Qed.

Lemma Session_7_Model_1_path self q :
  map arch (Session_7_Model_1.children self) = Session_7_Model_1_arch q ->
  map arch (forward_path (ISession_7_Model_1 self)) = Session_7_Model_1_path_arch q.
Proof.
  destruct self. unfold forward_path, children, Session_7_Model_1.children.
  cbn [removelast map Session_7_Model_1.convblock1 Session_7_Model_1.convblock2
       Session_7_Model_1.convblock3 Session_7_Model_1.pool1
       Session_7_Model_1.convblock4 Session_7_Model_1.convblock5
       Session_7_Model_1.pool2 Session_7_Model_1.convblock6
       Session_7_Model_1.gap Session_7_Model_1.convblock7
       Session_7_Model_1.dropout].
  unfold Session_7_Model_1_arch, Session_7_Model_1_path_arch. cbn [app].
  intros H. injection H as -> -> -> -> -> -> -> -> -> -> _. reflexivity.
Qed.

Lemma arch_session_6_path q :
  map arch (session_6_path_arch q) = session_6_path_arch q.
Proof. reflexivity. Qed.

Lemma arch_Session_7_Model_1_path q :
  map arch (Session_7_Model_1_path_arch q) = Session_7_Model_1_path_arch q.
Proof. reflexivity. Qed.

(** X12.  The sizes in the comments of [session_6_Model] hold.  Take an
    object with the attributes that [session_6_Model.__init__] assigns once
    [dropout_value] is bound to a probability, and a batch of single-channel
    28x28 images: [pool1] returns 12x12 images ("output_size = 12"), [gap]
    returns 1x1 ("output_size = 1"), every block accepts its input, and a
    [forward] that returns gives shape [(n, 10)]. *)
Theorem session_6_forward_comment_sizes `{K : Kernels} q self training n :
  map arch (session_6_Model.children self) = session_6_arch q ->
  1 <= n ->
  scan_shapes (forward_path (Isession_6_Model self)) training [n; 1; 28; 28] =
    [ Some [n; 16; 26; 26]; Some [n; 32; 24; 24]; Some [n; 10; 24; 24];
      Some [n; 10; 12; 12];
      Some [n; 16; 10; 10]; Some [n; 16; 8; 8]; Some [n; 16; 6; 6];
      Some [n; 16; 6; 6];
      Some [n; 16; 1; 1]; Some [n; 10; 1; 1] ]
  /\ forall x s y s',
       t_shape x = [n; 1; 28; 28] ->
       session_6_Model.forward self training x s = (Ok y, s') ->
       t_shape y = [n; 10].
Proof.
  intros A Hn. apply session_6_path in A.
  assert (Hscan : scan_shapes (forward_path (Isession_6_Model self)) training
                    [n; 1; 28; 28]
                  = scan_shapes (session_6_path_arch q) training [n; 1; 28; 28]).
  { apply scan_shapes_arch. rewrite A, arch_session_6_path. reflexivity. }
  rewrite Hscan, session_6_scan_shapes by exact Hn.
  split; [reflexivity |].
  intros x s y s' Hx H.
  apply (forward_post_holds (Isession_6_Model self)) in H as (_ & _ & S & _).
  unfold forward_shape in S. rewrite Hx in S.
  rewrite (out_shape_Sequential_arch training _ (session_6_path_arch q)) in S
    by (rewrite A, arch_session_6_path; reflexivity).
  rewrite (scan_shapes_out training _ _
             [ [n; 16; 26; 26]; [n; 32; 24; 24]; [n; 10; 24; 24]; [n; 10; 12; 12];
               [n; 16; 10; 10]; [n; 16; 8; 8]; [n; 16; 6; 6]; [n; 16; 6; 6];
               [n; 16; 1; 1]; [n; 10; 1; 1] ]
             (session_6_scan_shapes q training n Hn)) in S.
  cbn [List.last] in S. rewrite view_columns in S. congruence.
Qed.

(** An object with the attributes of the hypothesis, for the dropout
    probability 1/10: the blocks of [session_6_arch], in the order of the
    attributes. *)
Definition session_6_0_self : session_6_Model.t :=
  Eval vm_compute in
    match session_6_arch (1 # 10) with
    | [a; b; c; d; e; f; g; h; i; j; k] =>
        session_6_Model.mk a b c d e f g h i j k
    | _ => session_6_Model.mk ReLU ReLU ReLU ReLU ReLU ReLU ReLU ReLU ReLU ReLU ReLU
    end.

Lemma session_6_forward_comment_sizes_witness :
  nth 3 (scan_shapes (forward_path (Isession_6_Model session_6_0_self)) true
           [2; 1; 28; 28]) None = Some [2; 10; 12; 12]
  /\ nth 8 (scan_shapes (forward_path (Isession_6_Model session_6_0_self)) true
              [2; 1; 28; 28]) None = Some [2; 16; 1; 1].
Proof.
  destruct (@session_6_forward_comment_sizes zero_kernels (1 # 10)
              session_6_0_self true 2) as [Hs _].
  - vm_compute. reflexivity.
  - lia.
  - rewrite Hs. split; reflexivity.
Defined.

Lemma Session_7_Model_1_shape q training n :
  1 <= n -> training = false \/ n <> 1 ->
  out_shape (Sequential (Session_7_Model_1_path_arch q)) training [n; 1; 28; 28]
  = Some [n; 10; 1; 1].
Proof.
  intros Hn Hb. unfold Session_7_Model_1_path_arch.
  rewrite out_shape_cons,
    (conv_relu_bn_drop_shape 1 8 0 q training n 28 28) by big_batch.
  change (28 + 2 * 0 - 2) with 26.
  rewrite out_shape_cons,
    (conv_relu_bn_drop_shape 8 16 0 q training n 26 26) by big_batch.
  change (26 + 2 * 0 - 2) with 24.
  rewrite out_shape_cons, (conv_only_shape 16 10 1 1 training n 24 24) by lia.
  change (24 - 1 + 1) with 24.
  rewrite out_shape_cons.
  change (out_shape (MaxPool2d 2 2) training [n; 10; 24; 24])
    with (Some [n; 10; 12; 12]).
  cbv beta iota.
  rewrite out_shape_cons,
    (conv_relu_bn_drop_shape 10 10 0 q training n 12 12) by big_batch.
  change (12 + 2 * 0 - 2) with 10.
  rewrite out_shape_cons,
    (conv_relu_bn_drop_shape 10 10 1 q training n 10 10) by big_batch.
  change (10 + 2 * 1 - 2) with 10.
  rewrite out_shape_cons.
  change (out_shape (MaxPool2d 2 2) training [n; 10; 10; 10])
    with (Some [n; 10; 5; 5]).
  cbv beta iota.
  rewrite out_shape_cons,
    (conv_relu_bn_drop_shape 10 10 1 q training n 5 5) by big_batch.
  change (5 + 2 * 1 - 2) with 5.
  rewrite out_shape_cons.
  change (out_shape (Sequential [AvgPool2d 5]) training [n; 10; 5; 5])
    with (Some [n; 10; 1; 1]).
  cbv beta iota.
  rewrite out_shape_cons, out_shape_cons.
  change (out_shape (Conv2d 10 10 (1, 1) 0 O) training [n; 10; 1; 1])
    with (conv2d_shape 10 10 (1, 1) 0 [n; 10; 1; 1]).
  rewrite (conv2d_shape_ok _ _ _ _ _ _ _ _ 1 1) by lia.
  cbv beta iota.
  rewrite out_shape_cons.
  change (out_shape (BatchNorm2d 10 O O O O O) training [n; 10; 1; 1])
    with (batch_norm2d_shape 10 training [n; 10; 1; 1]).
  rewrite batch_norm2d_shape_4d by (destruct Hb; [left; assumption | right; lia]).
  reflexivity.
Qed.

Lemma Session_7_Model_1_shape_one q :
  out_shape (Sequential (Session_7_Model_1_path_arch q)) true [1; 1; 28; 28] = None.
Proof. reflexivity. Qed.

(** X13.  [Session_7_Model_1.forward] and a batch of one.  Take an object
    with the attributes that [Session_7_Model_1.__init__] assigns once
    [dropout_value] is bound to a probability, and a batch of [n]
    single-channel 28x28 images.  A [forward] that returns gives shape
    [(n, 10)].  In training mode a single image is rejected: the last block
    normalises a 1x1 image, and [BatchNorm2d] wants more than one value per
    channel; so a training call that returns had [n >= 2]. *)
Theorem Session_7_Model_1_forward_batch_of_one `{K : Kernels}
    q self training n x s :
  map arch (Session_7_Model_1.children self) = Session_7_Model_1_arch q ->
  1 <= n -> t_shape x = [n; 1; 28; 28] ->
  forward_shape (ISession_7_Model_1 self) training [n; 1; 28; 28]
  = (if training && (n =? 1) then None else Some [n; 10])
  /\ (forall y s',
        Session_7_Model_1.forward self training x s = (Ok y, s') ->
        t_shape y = [n; 10] /\ (training = true -> 2 <= n))
  /\ (training = true -> n = 1 ->
      exists e s',
        Session_7_Model_1.forward self training x s = (Raise e, s')
        /\ exn_origin e = Library).
Proof.
  intros A Hn Hx. apply Session_7_Model_1_path in A.
  assert (Hfs : forward_shape (ISession_7_Model_1 self) training [n; 1; 28; 28]
                = (if training && (n =? 1) then None else Some [n; 10])).
  { unfold forward_shape.
    rewrite (out_shape_Sequential_arch training _ (Session_7_Model_1_path_arch q))
      by (rewrite A, arch_Session_7_Model_1_path; reflexivity).
    destruct training; simpl andb.
    - destruct (Z.eqb_spec n 1) as [-> | Hne].
      + rewrite Session_7_Model_1_shape_one. reflexivity.
      + rewrite Session_7_Model_1_shape by auto. apply view_columns.
    - rewrite Session_7_Model_1_shape by auto. apply view_columns. }
  assert (Hok : forall y s',
            Session_7_Model_1.forward self training x s = (Ok y, s') ->
            t_shape y = [n; 10] /\ (training = true -> 2 <= n)).
  { intros y s' H.
    apply (forward_post_holds (ISession_7_Model_1 self)) in H as (_ & _ & S & _).
    rewrite Hx, Hfs in S.
    destruct training; simpl andb in S.
    - destruct (Z.eqb_spec n 1) as [-> | Hne]; [discriminate S |].
      split; [congruence | intros _; lia].
    - split; [congruence | discriminate]. }
  split; [exact Hfs |]. split; [exact Hok |].
  intros -> ->.
  destruct (Session_7_Model_1.forward self true x s) as [[y | e] s'] eqn:H.
  - destruct (Hok y s' eq_refl) as [_ Hbad]. specialize (Hbad eq_refl). lia.
  - exists e, s'. split; [reflexivity |].
    apply (forward_post_holds (ISession_7_Model_1 self)) in H as (_ & _ & O & _).
    exact O.
Qed.

(** An object with the attributes of the hypothesis, for the dropout
    probability 1/10: the blocks of [Session_7_Model_1_arch], in the order
    of the attributes. *)
Definition Session_7_Model_1_0 : Session_7_Model_1.t :=
  Eval vm_compute in
    match Session_7_Model_1_arch (1 # 10) with
    | [a; b; c; d; e; f; g; h; i; j; k] =>
        Session_7_Model_1.mk a b c d e f g h i j k
    | _ =>
        Session_7_Model_1.mk ReLU ReLU ReLU ReLU ReLU ReLU ReLU ReLU ReLU ReLU ReLU
    end.

Lemma Session_7_Model_1_forward_batch_of_one_witness :
  exists e s',
    @Session_7_Model_1.forward zero_kernels Session_7_Model_1_0 true
      (constant_image [1; 1; 28; 28] 0) state0 = (Raise e, s')
    /\ exn_origin e = Library.
Proof.
  apply (@Session_7_Model_1_forward_batch_of_one zero_kernels (1 # 10)
           Session_7_Model_1_0 true 1 (constant_image [1; 1; 28; 28] 0)
           state0).
  - vm_compute. reflexivity.
  - lia.
  - reflexivity.
  - reflexivity.
  - reflexivity.
Defined.

(* ===================================================================== *)
(** * Two instances of one class                                           *)
(* ===================================================================== *)

Section SameClass.
Context `{K : Kernels}.

(** In evaluation mode the result of a call depends on the tensors of the
    store alone. *)
Lemma call_eval_cells_only m :
  forall x s s',
    cells s = cells s' -> (call m false x s).1 = (call m false x s').1.
Proof.
  induction m as [cin cout k p w | c w b rm rv nbt | g c w b | | p | k st | k
                  | o | ms IH | l IH | l IH] using nn_module_tree_ind;
    intros x s s' C.
  - simpl. unfold F_conv2d. run. simpl. rewrite <- C. repeat next_cond; auto.
  - simpl. unfold BatchNorm2d_forward. run. simpl. rewrite <- C.
    repeat next_cond; auto.
  - simpl. unfold F_group_norm. run. simpl. rewrite <- C. repeat next_cond; auto.
  - reflexivity.
  - reflexivity.
  - simpl. unfold F_max_pool2d. run. simpl. repeat next_cond; auto.
  - simpl. unfold F_avg_pool2d. run. simpl. repeat next_cond; auto.
  - simpl. unfold F_adaptive_avg_pool2d. run. simpl. repeat next_cond; auto.
  - change (call (Sequential ms) false x)
      with (run_seq (fun c => call c false) ms x).
    revert x s s' C. induction IH as [| m ms Hm _ IHms]; intros x s s' C.
    + reflexivity.
    + rewrite !run_seq_cons. pose proof (Hm x s s' C) as E1.
      pose proof (call_keeps_cells false m x s (or_introl eq_refl)) as C1.
      pose proof (call_keeps_cells false m x s' (or_introl eq_refl)) as C1'.
      destruct (call m false x s) as [[a | e] s1];
        destruct (call m false x s') as [[a' | e'] s1'];
        simpl in E1, C1, C1'; try discriminate E1.
      * injection E1 as <-. apply IHms. congruence.
      * exact E1.
  - simpl. rewrite !bind_ret_r. apply IH. exact C.
  - simpl. rewrite !bind_ret_r. apply IH. exact C.
Qed.

Lemma forward_eval_cells_only i x s s' :
  cells s = cells s' -> (forward i false x s).1 = (forward i false x s').1.
Proof.
  intros C. rewrite !forward_unfold.
  pose proof (call_eval_cells_only (Sequential (forward_path i)) x s s' C) as E1.
  destruct (call (Sequential (forward_path i)) false x s) as [[a | e] s1] eqn:E;
    destruct (call (Sequential (forward_path i)) false x s') as [[a' | e'] s1'] eqn:E';
    simpl in E1; try discriminate E1.
  - injection E1 as <-.
    rewrite (bind_step _ _ _ _ _ E), (bind_step _ _ _ _ _ E').
    apply (tail_store_only a (softmax_dim i) s1 s1').
  - rewrite (bind_fail _ _ _ _ _ E), (bind_fail _ _ _ _ _ E'). exact E1.
Qed.

Lemma constructed_softmax_dim v sa i sa' sb i' sb' :
  construct v sa = (Ok i, sa') -> construct v sb = (Ok i', sb') ->
  softmax_dim i = softmax_dim i'.
Proof.
  intros H H'.
  apply construct_post_holds in H as (_ & Hof & _).
  apply construct_post_holds in H' as (_ & Hof' & _).
  destruct v; destruct i; try contradiction; destruct i'; try contradiction;
    reflexivity.
Qed.

End SameClass.

(** X14.  Two instances of one class whose parameters and buffers hold
    equal tensors return the same result on the same input: in evaluation
    mode whatever else the two stores hold, in training mode when the random
    generator is in the same state for both calls.  Their parameters and
    buffers are equal afterwards as well. *)
Theorem same_class_same_parameters_same_result `{K : Kernels}
    v sa i sa' sb i' sb' s s' training x :
  construct v sa = (Ok i, sa') -> construct v sb = (Ok i', sb') ->
  (length (cells sa') <= length (cells s))%nat ->
  (length (cells sb') <= length (cells s'))%nat ->
  params s (Sequential (children i)) = params s' (Sequential (children i')) ->
  (training = true -> rng s = rng s') ->
  (forward i training x s).1 = (forward i' training x s').1
  /\ params (forward i training x s).2 (Sequential (children i))
     = params (forward i' training x s').2 (Sequential (children i')).
Proof.
  intros Hc Hc' L L' P R.
  pose proof (constructed_forward_path _ _ _ _ Hc) as FP.
  pose proof (constructed_forward_path _ _ _ _ Hc') as FP'.
  pose proof (constructed_NoDup _ _ _ _ Hc) as N.
  pose proof (constructed_NoDup _ _ _ _ Hc') as N'.
  pose proof (constructed_arch _ _ _ _ Hc) as A.
  pose proof (constructed_arch _ _ _ _ Hc') as A'.
  pose proof (constructed_softmax_dim _ _ _ _ _ _ _ Hc Hc') as D.
  assert (Al : allocated s (Sequential (forward_path i))).
  { rewrite FP. pose proof (construct_post_holds _ _ _ _ Hc) as (_ & _ & _ & B & _).
    apply built_Sequential in B. exact (allocated_later _ _ _ _ B L). }
  assert (Al' : allocated s' (Sequential (forward_path i'))).
  { rewrite FP'. pose proof (construct_post_holds _ _ _ _ Hc') as (_ & _ & _ & B & _).
    apply built_Sequential in B. exact (allocated_later _ _ _ _ B L'). }
  rewrite <- FP, <- FP' in *.
  destruct training.
  - apply forward_same_params; auto. congruence.
  - set (s2 := mkState (cells s') (rng s) (trace s')).
    destruct (forward_same_params i i' false x s s2) as [E1 _]; auto;
      [congruence |].
    split.
    + rewrite E1. apply forward_eval_cells_only. reflexivity.
    + unfold params.
      rewrite !forward_keeps_cells by (left; reflexivity). exact P.
Qed.

(** A second [Model()], built behind the first. *)
Definition Model_1 : instance :=
  Eval vm_compute in
    match (@construct zero_kernels (VModel BATCH) state_Model_0).1 with
    | Ok i => i
    | Raise _ => fallback_instance
    end.

Definition state_Model_1 : state :=
  Eval vm_compute in (@construct zero_kernels (VModel BATCH) state_Model_0).2.

Lemma same_class_same_parameters_same_result_witness :
  (@forward zero_kernels Model_0 false (constant_image [2; 3; 8; 8] 1)
     state_Model_0).1
  = (@forward zero_kernels Model_1 false (constant_image [2; 3; 8; 8] 1)
       state_Model_1).1.
Proof.
  apply (@same_class_same_parameters_same_result zero_kernels (VModel BATCH)
           state0 Model_0 state_Model_0 state_Model_0 Model_1 state_Model_1
           state_Model_0 state_Model_1 false (constant_image [2; 3; 8; 8] 1)).
  - vm_compute. reflexivity.
  - vm_compute. reflexivity.
  - simpl. lia.
  - simpl. lia.
  - vm_compute. reflexivity.
  - discriminate.
Defined.

(* ===================================================================== *)
(** * When [ConvLayer(...)] can be built                                   *)
(* ===================================================================== *)

Section ConvLayerDomain.
Context `{K : Kernels}.

Lemma fits_int64_spec z : fits_int64 z = true <-> - 2 ^ 63 <= z < 2 ^ 63.
Proof.
  unfold fits_int64. rewrite andb_true_iff, Z.leb_le, Z.ltb_lt. tauto.
Qed.

(** The three outcomes of the check of a shape. *)
Lemma check_size_cases shape s :
  (check_size shape s = (Ok tt, s)
   /\ forallb fits_int64 shape = true
   /\ forallb (fun d => 0 <=? d) shape = true
   /\ can_allocate shape = true)
  \/ (check_size shape s = (Raise (mkExn TypeError Library ""), s)
      /\ forallb fits_int64 shape = false)
  \/ (check_size shape s = (Raise (mkExn RuntimeError Library ""), s)
      /\ forallb fits_int64 shape = true
      /\ (forallb (fun d => 0 <=? d) shape = false
          \/ can_allocate shape = false)).
Proof.
  unfold check_size.
  destruct (forallb fits_int64 shape); simpl; [| right; left; auto].
  destruct (forallb (fun d => 0 <=? d) shape); simpl; [| right; right; auto].
  destruct (can_allocate shape); simpl; [left; auto | right; right; auto].
Qed.

(** The channel counts with which the weight of the 3x3 convolution can be
    made. *)
Definition weight_fits (cin cout : Z) : Prop :=
  0 <= cin < 2 ^ 63 /\ 0 <= cout < 2 ^ 63
  /\ can_allocate [cout; cin; 3; 3] = true.

Lemma weight_shape_fits cin cout :
  forallb fits_int64 [cout; cin; 3; 3] = true
  <-> - 2 ^ 63 <= cin < 2 ^ 63 /\ - 2 ^ 63 <= cout < 2 ^ 63.
Proof.
  cbn [forallb]. change (fits_int64 3) with true.
  rewrite !andb_true_r, andb_true_iff, !fits_int64_spec. tauto.
Qed.

Lemma weight_shape_nonneg cin cout :
  forallb (fun d => 0 <=? d) [cout; cin; 3; 3] = true <-> 0 <= cin /\ 0 <= cout.
Proof.
  cbn [forallb]. change (0 <=? 3) with true.
  rewrite !andb_true_r, andb_true_iff, !Z.leb_le. tauto.
Qed.

(** What [nn.Conv2d(in_channels, out_channels, 3, ...)] does. *)
Lemma nn_Conv2d_cases cin cout p s :
  (weight_fits cin cout
   /\ exists conv s1, nn_Conv2d cin cout (3, 3) p s = (Ok conv, s1))
  \/ (~ (- 2 ^ 63 <= cin < 2 ^ 63 /\ - 2 ^ 63 <= cout < 2 ^ 63)
      /\ nn_Conv2d cin cout (3, 3) p s = (Raise (mkExn TypeError Library ""), s))
  \/ ((- 2 ^ 63 <= cin < 2 ^ 63 /\ - 2 ^ 63 <= cout < 2 ^ 63)
      /\ (cin < 0 \/ cout < 0 \/ can_allocate [cout; cin; 3; 3] = false)
      /\ nn_Conv2d cin cout (3, 3) p s
         = (Raise (mkExn RuntimeError Library ""), s)).
Proof.
  unfold nn_Conv2d. cbn [fst snd].
  destruct (check_size_cases [cout; cin; 3; 3] s)
    as [(E & F & N & A) | [(E & F) | (E & F & B)]].
  - left. apply weight_shape_fits in F. apply weight_shape_nonneg in N.
    split; [unfold weight_fits; split; [lia | split; [lia | exact A]] |].
    rewrite (bind_step _ _ _ _ _ E).
    destruct (numel _ =? 0); eexists _, _; reflexivity.
  - right. left. split; [| apply bind_fail; exact E].
    intros H. apply weight_shape_fits in H. congruence.
  - right. right. apply weight_shape_fits in F.
    split; [exact F |]. split; [| apply bind_fail; exact E].
    destruct B as [B | B]; [| auto].
    destruct (Z_lt_ge_dec cin 0) as [Hi | Hi]; [auto |].
    destruct (Z_lt_ge_dec cout 0) as [Ho | Ho]; [auto |].
    exfalso. assert (N : forallb (fun d => 0 <=? d) [cout; cin; 3; 3] = true)
      by (apply weight_shape_nonneg; lia).
    congruence.
Qed.

(** What [normalizer] does on a member of the enumeration, for a channel
    count that is an extent. *)
Lemma normalizer_cases nm c s :
  0 <= c < 2 ^ 63 ->
  (nm = GROUP /\ c mod 8 <> 0
   /\ normalizer (VMethod nm) c s = (Raise (mkExn ValueError Library ""), s))
  \/ ((nm = GROUP -> c mod 8 = 0) /\ can_allocate [c] = false
      /\ normalizer (VMethod nm) c s = (Raise (mkExn RuntimeError Library ""), s))
  \/ ((nm = GROUP -> c mod 8 = 0) /\ can_allocate [c] = true
      /\ exists m s', normalizer (VMethod nm) c s = (Ok m, s')).
Proof.
  intros Hc. rewrite normalizer_enum.
  assert (Hsize :
            (can_allocate [c] = false
             /\ check_size [c] s = (Raise (mkExn RuntimeError Library ""), s))
            \/ (can_allocate [c] = true /\ check_size [c] s = (Ok tt, s))).
  { destruct (check_size_cases [c] s)
      as [(E & F & N & A) | [(E & F) | (E & F & B)]].
    - right. auto.
    - exfalso. cbn [forallb] in F. rewrite andb_true_r in F.
      assert (fits_int64 c = true) by (apply fits_int64_spec; lia). congruence.
    - left. split; [| exact E]. destruct B as [B | B]; [| exact B].
      exfalso. cbn [forallb] in B. rewrite andb_true_r in B.
      apply Z.leb_gt in B. lia. }
  assert (Hrest : forall g,
            c mod g = 0 ->
            (can_allocate [c] = false
             /\ nn_GroupNorm g c s = (Raise (mkExn RuntimeError Library ""), s))
            \/ (can_allocate [c] = true
                /\ exists m s', nn_GroupNorm g c s = (Ok m, s'))).
  { intros g Hg. unfold nn_GroupNorm. apply Z.eqb_eq in Hg. rewrite Hg.
    cbn [negb].
    destruct Hsize as [[A E] | [A E]]; [left | right]; (split; [exact A |]).
    - apply bind_fail. exact E.
    - rewrite (bind_step _ _ _ _ _ E). eexists _, _. reflexivity. }
  destruct nm.
  - unfold nn_BatchNorm2d.
    destruct Hsize as [[A E] | [A E]]; right; [left | right];
      (split; [discriminate |]); (split; [exact A |]).
    + apply bind_fail. exact E.
    + rewrite (bind_step _ _ _ _ _ E). eexists _, _. reflexivity.
  - destruct (Hrest 1 (Z.mod_1_r c)) as [[A E] | [A E]]; right; [left | right];
      (split; [discriminate |]); (split; [exact A | exact E]).
  - unfold NUM_GROUPS. destruct (Z.eq_dec (c mod 8) 0) as [Hd | Hd].
    + destruct (Hrest 8 Hd) as [[A E] | [A E]]; right; [left | right];
        (split; [intros _; exact Hd |]); (split; [exact A | exact E]).
    + left. split; [reflexivity |]. split; [exact Hd |].
      unfold nn_GroupNorm. apply Z.eqb_neq in Hd. rewrite Hd. reflexivity.
Qed.

Lemma ConvLayer_init_rest conv norm :
  ctor_total (relu <- nn_ReLU ;;
              drop <- nn_Dropout (VFloat (5 # 100)) ;;
              layer <- nn_Sequential [conv; norm; relu; drop] ;;
              ret (ConvLayer layer)).
Proof. intros s. eexists _, _. reflexivity. Qed.

End ConvLayerDomain.

(** X15.  [ConvLayer(in_channels, out_channels, padding, norm_method)]
    returns exactly when the weight of the convolution can be made (both
    channel counts are extents, that is at least 0 and below 2 ** 63, and
    a tensor of [out_channels * in_channels * 3 * 3] entries can be
    stored), [norm_method] is a member of the enumeration, for [GROUP]
    [out_channels] is a multiple of [NUM_GROUPS = 8], and a tensor of
    [out_channels] entries can be stored.  Otherwise it raises, in the order
    of evaluation: for the weight, the library's [TypeError] when a channel
    count is no 64-bit integer and else its [RuntimeError] (the convolution
    is built first, so these win over a bad [norm_method]); then the file's
    own [ValueError] of line 27 for a [norm_method] outside the
    enumeration; then the library's [ValueError] for [GROUP] with
    [out_channels] no multiple of 8; then the library's [RuntimeError] when
    the tensors of the normalisation cannot be stored. *)
Theorem ConvLayer_init_domain `{K : Kernels} cin cout p v s :
  ((exists m s', ConvLayer_init cin cout p v s = (Ok m, s'))
   <-> weight_fits cin cout
       /\ can_allocate [cout] = true
       /\ exists nm, v = VMethod nm /\ (nm = GROUP -> cout mod 8 = 0))
  /\ (forall e s', ConvLayer_init cin cout p v s = (Raise e, s') ->
        (~ (- 2 ^ 63 <= cin < 2 ^ 63 /\ - 2 ^ 63 <= cout < 2 ^ 63)
         /\ exn_cls e = TypeError /\ exn_origin e = Library)
        \/ ((- 2 ^ 63 <= cin < 2 ^ 63 /\ - 2 ^ 63 <= cout < 2 ^ 63)
            /\ (cin < 0 \/ cout < 0 \/ can_allocate [cout; cin; 3; 3] = false)
            /\ exn_cls e = RuntimeError /\ exn_origin e = Library)
        \/ (weight_fits cin cout /\ (forall nm, v <> VMethod nm)
            /\ e = mkExn ValueError (ThisFile 27) "Invalid NormalizationMethod")
        \/ (weight_fits cin cout /\ v = VMethod GROUP /\ cout mod 8 <> 0
            /\ exn_cls e = ValueError /\ exn_origin e = Library)
        \/ (weight_fits cin cout
            /\ (exists nm, v = VMethod nm /\ (nm = GROUP -> cout mod 8 = 0))
            /\ can_allocate [cout] = false
            /\ exn_cls e = RuntimeError /\ exn_origin e = Library)).
Proof.
  unfold ConvLayer_init.
  destruct (nn_Conv2d_cases cin cout p s)
    as [(W & conv & s1 & E) | [(F & E) | (F & B & E)]].
  2: { rewrite (bind_fail _ _ _ _ _ E). split.
       - split; [intros (m & s' & H); discriminate H |].
         intros ((? & ? & _) & _). exfalso. apply F. lia.
       - intros e s' H. injection H as <- <-. left. auto. }
  2: { rewrite (bind_fail _ _ _ _ _ E). split.
       - split; [intros (m & s' & H); discriminate H |].
         intros ((? & ? & A) & _). exfalso.
         destruct B as [B | [B | B]]; [lia | lia | congruence].
       - intros e s' H. injection H as <- <-. right. left. auto. }
  rewrite (bind_step _ _ _ _ _ E).
  assert (Hc : 0 <= cout < 2 ^ 63) by (destruct W as (_ & Hc & _); exact Hc).
  destruct v as [z | q | nm | | name].
  1, 2, 4, 5:
    (split;
     [ split; [intros (m & s' & H); discriminate H
              | intros (_ & _ & nm & Hv & _); discriminate Hv]
     | intros e s' H; injection H as <- <-; right; right; left;
       split; [exact W | split; [discriminate | reflexivity]] ]).
  destruct (normalizer_cases nm cout s1 Hc)
    as [(Hg & Hd & En) | [(Hg & A & En) | (Hg & A & norm & s2 & En)]].
  - rewrite (bind_fail _ _ _ _ _ En). split.
    + split; [intros (m & s' & H); discriminate H |].
      intros (_ & _ & nm' & Hv & Hg'). injection Hv as <-.
      exfalso. apply Hd, Hg', Hg.
    + intros e s' H. injection H as <- <-. do 3 right. left.
      subst nm. auto.
  - rewrite (bind_fail _ _ _ _ _ En). split.
    + split; [intros (m & s' & H); discriminate H |].
      intros (_ & A' & _). congruence.
    + intros e s' H. injection H as <- <-. do 4 right.
      split; [exact W |]. split; [exists nm; auto |]. auto.
  - rewrite (bind_step _ _ _ _ _ En).
    destruct (ConvLayer_init_rest conv norm s2) as (m & s3 & Hrest).
    rewrite Hrest. split.
    + split; [intros _ | intros _; eauto].
      split; [exact W |]. split; [exact A |]. exists nm. auto.
    + intros e s' H. discriminate H.
Qed.
